(** * edm-store: the tiling and windowed-I/O engine, embedded in Rocq

    The development follows the Python sources
      - [edm_store/dm/raster/_global_tile.py]  (lattice, planners, rounding)
      - [edm_store/dm/raster/_band.py]         (SlicedBand / UnSlicedBand)
      - [edm_store/utils/cache.py]             (the byte cache)
      - [edm_store/utils/tools.py]             (the resampling names)
      - [edm_store/utils/pixel_type.py]        (the registry of pixel types)
      - [edm_store/storage/AbsClient.py], [storage/fs/_client.py] and
        [storage/ceph_rgw/_client.py]          (the backend clients)

    Numbers.  Python [int] is [Z].  Python [float] is idealised as an exact
    rational ([Q]): every arithmetic operation is the exact one, so the
    rounding error of binary64 is outside this model.  Operations that raise
    in Python ([/] and [%] by zero, list indexing out of range, unpacking
    [None]) raise here as well, through the [result] monad. *)

From Stdlib Require Import ZArith QArith Qround Qabs List String Ascii Bool Lia.
From Stdlib Require Import DecimalString.
Import ListNotations.

Open Scope Z_scope.

(* ================================================================== *)
(** ** Python exceptions and the error monad *)

Inductive exn : Type :=
| TypeError
| ValueError
| IndexError
| KeyError
| ZeroDivisionError.

Inductive result (A : Type) : Type :=
| Ok (a : A)
| Raise (e : exn).

Arguments Ok {A} a.
Arguments Raise {A} e.

Definition rbind {A B : Type} (m : result A) (k : A -> result B) : result B :=
  match m with
  | Ok a => k a
  | Raise e => Raise e
  end.

Declare Scope result_scope.
Delimit Scope result_scope with result.
Notation "'let*' x ':=' m 'in' k" := (rbind m (fun x => k))
  (at level 10, x pattern, m at level 100, k at level 200) : result_scope.
Open Scope result_scope.

(** Python's arithmetic on the rationals.  [Qred] keeps a result in lowest
    terms and does not change its value. *)
Module Py.

(** [int(x)] on a float: truncation toward zero. *)
Definition int (x : Q) : Z :=
  if Qle_bool 0 x then Qfloor x else Qceiling x.

(** [math.ceil(x)]. *)
Definition ceil (x : Q) : Z := Qceiling x.

(** [abs(x)]. *)
Definition abs (x : Q) : Q := Qabs x.

Definition ltb (x y : Q) : bool := negb (Qle_bool y x).
Definition leb (x y : Q) : bool := Qle_bool x y.
Definition gtb (x y : Q) : bool := ltb y x.
Definition geb (x y : Q) : bool := leb y x.
Definition eqb (x y : Q) : bool := Qeq_bool x y.

Definition max (x y : Q) : Q := if ltb x y then y else x.
Definition min (x y : Q) : Q := if ltb y x then y else x.

(** [x / y]: true division, [ZeroDivisionError] on a zero divisor. *)
Definition div (x y : Q) : result Q :=
  if eqb y 0 then Raise ZeroDivisionError else Ok (Qred (x / y)).

(** [x % y]: the remainder has the sign of the divisor. *)
Definition mod_ (x y : Q) : result Q :=
  if eqb y 0 then Raise ZeroDivisionError
  else Ok (Qred (x - inject_Z (Qfloor (x / y)) * y)).

(** [round(x)]: nearest integer, ties to the even neighbour. *)
Definition round (x : Q) : Z :=
  let f := Qfloor x in
  let d := (x - inject_Z f)%Q in
  if ltb d (1 # 2) then f
  else if ltb (1 # 2) d then f + 1
  else if Z.even f then f else f + 1.

(** [10 ** n] for a natural [n]. *)
Definition pow10 (n : nat) : Z := 10 ^ Z.of_nat n.

(** [round(x, n)], [n > 0]: nearest multiple of [10 ** -n], ties to even. *)
Definition round_n (x : Q) (n : nat) : Q :=
  (inject_Z (round (x * inject_Z (pow10 n))) / inject_Z (pow10 n))%Q.

(** [l[i]] on a list (non-negative [i]). *)
Definition index {A : Type} (l : list A) (i : nat) : result A :=
  match nth_error l i with
  | Some a => Ok a
  | None => Raise IndexError
  end.

(** [range(a, b)]. *)
Definition range (a b : Z) : list Z :=
  map (fun i => a + Z.of_nat i) (seq 0 (Z.to_nat (b - a))).

End Py.

(* ================================================================== *)
(** ** [_global_tile.py]: free functions *)

(** A 4-tuple of window bounds [(x0, x1, y0, y1)]. *)
Definition rect : Type := (Z * Z * Z * Z)%type.

Definition r0 (r : rect) : Z := let '(a, _, _, _) := r in a.
Definition r1 (r : rect) : Z := let '(_, b, _, _) := r in b.
Definition r2 (r : rect) : Z := let '(_, _, c, _) := r in c.
Definition r3 (r : rect) : Z := let '(_, _, _, d) := r in d.

(** [_cal_tile_start_index(l_point, ori_point, tile_size, scala)]. *)
Definition _cal_tile_start_index (l_point ori_point : Q) (tile_size : Z) (scala : Q)
  : result Z :=
  if Py.gtb scala 0 then
    let* ds := Py.div (l_point - ori_point) (Py.abs (inject_Z tile_size * scala)) in
    let tile_start := Py.int (Py.abs ds) in
    let tile_start :=
      if Py.ltb ds 0 then -1 * Py.ceil (Py.abs ds) else tile_start in
    Ok tile_start
  else
    let* ds := Py.div (l_point - ori_point) (Py.abs (inject_Z tile_size * scala)) in
    Ok (-1 * Py.ceil ds).

(** The character [str(num).split('.')[1][n]], as a digit: the [n]-th digit
    after the point in the positional decimal notation of [num] (the sign is
    not part of the fractional string, so the digit is that of [|num|]).
    [None] when the fractional string is not longer than [n]; an integral
    float prints as ["k.0"].  Python prints a float below [1e-4] or from
    [1e16] on with an exponent; there the string after the point is that of
    the mantissa, which this definition does not follow.  At [n = 0], the
    precision of every call in the sources, the value returned by
    [_rounding] is the same in both notations. *)
Definition frac_digit (num : Q) (n : nat) : option Z :=
  let a := Qabs num in
  let scaled := (a * inject_Z (Py.pow10 n))%Q in
  if Qeq_bool scaled (inject_Z (Qfloor scaled)) && negb (Nat.eqb n 0) then None
  else Some (Qfloor (scaled * 10) mod 10).

(** The test [len(frac) > n and frac[n] == '5']. *)
Definition digit_is_5 (num : Q) (n : nat) : bool :=
  match frac_digit num n with
  | Some d => d =? 5
  | None => false
  end.

(** A Python number: [_rounding] inspects [str(num)], which has a point for a
    float and none for an int. *)
Inductive pynum : Type :=
| PyInt (z : Z)
| PyFloat (q : Q).

(** [_rounding(num, n=0)]. *)
Definition _rounding (num : pynum) (n : nat) : pynum :=
  let num :=
    match num with
    | PyInt z => PyInt z                                  (* no '.' in str(num) *)
    | PyFloat q =>
        if digit_is_5 q n
        then PyFloat (q + 1 / inject_Z (Py.pow10 (n + 1)))  (* num += 1 * 10 ** -(n + 1) *)
        else PyFloat q
    end in
  match n with
  | O =>
      match num with
      | PyInt z => PyInt z
      | PyFloat q => PyInt (Py.round q)
      end
  | _ =>
      match num with
      | PyInt z => PyInt z
      | PyFloat q => PyFloat (Py.round_n q n)
      end
  end.

(** The call sites all use the default precision [n = 0] and get an int. *)
Definition _rounding0 (num : pynum) : Z :=
  match _rounding num 0 with
  | PyInt z => z
  | PyFloat q => Py.int q
  end.

(** [_normalized_read_and_fill_info(read_info, fill_info)]. *)
Definition _normalized_read_and_fill_info (read_info fill_info : rect) : rect * rect :=
  let x_size := r1 read_info - r0 read_info - r1 fill_info + r0 fill_info in
  let read_info :=
    if negb (x_size =? 0) && (x_size <? 0)
    then (r0 read_info, r1 read_info - x_size, r2 read_info, r3 read_info)
    else read_info in
  let fill_info :=
    if negb (x_size =? 0) && (x_size >? 0)
    then (r0 fill_info, r1 fill_info + x_size, r2 fill_info, r3 fill_info)
    else fill_info in
  let y_size := r3 read_info - r2 read_info - r3 fill_info + r2 fill_info in
  if negb (y_size =? 0) then
    if y_size <? 0
    then ((r0 read_info, r1 read_info, r2 read_info, r3 read_info - y_size), fill_info)
    else (read_info, (r0 fill_info, r1 fill_info, r2 fill_info, r3 fill_info + y_size))
  else (read_info, fill_info).


Fixpoint mapM {A B : Type} (f : A -> result B) (l : list A) : result (list B) :=
  match l with
  | [] => Ok []
  | a :: tl =>
      let* b := f a in
      let* bs := mapM f tl in
      Ok (b :: bs)
  end.

(* ================================================================== *)
(** ** [_global_tile.py]: class [GlobalTileInfo] *)

(** A GDAL transform [(ox, sx, 0, oy, 0, sy)]. *)
Definition transform : Type := (Q * Q * Q * Q * Q * Q)%type.

Definition t0 (t : transform) : Q := let '(a, _, _, _, _, _) := t in a.
Definition t1 (t : transform) : Q := let '(_, b, _, _, _, _) := t in b.
Definition t3 (t : transform) : Q := let '(_, _, _, d, _, _) := t in d.
Definition t5 (t : transform) : Q := let '(_, _, _, _, _, f) := t in f.

(** [list(a) == list(b)] on transforms: component-wise numeric equality. *)
Definition transform_eqb (a b : transform) : bool :=
  let '(a0, a1, a2, a3, a4, a5) := a in
  let '(b0, b1, b2, b3, b4, b5) := b in
  Py.eqb a0 b0 && Py.eqb a1 b1 && Py.eqb a2 b2 &&
  Py.eqb a3 b3 && Py.eqb a4 b4 && Py.eqb a5 b5.

Record GlobalTileInfo : Type := mkGTI {
  oriX : Q;
  oriY : Q;
  tileSize : Z;
  lx : Q;
  scalaX : Q;
  ly : Q;
  scalaY : Q;
  xSize : Z;
  ySize : Z;
  rx : Q;
  ry : Q;
  deviationX : Q;
  deviationY : Q;
  tileXStart : Z;
  tileYStart : Z;
  firstTileLeftX : Q;
  firstTileLeftY : Q;
  rangeX : Z;
  rangeY : Z;
  tileXEnd : Z;
  tileYEnd : Z;
  reSizeXEnd : Q;
  reSizeYEnd : Q;
  reSize : Z;
  _factors : list Z;
  scalaXList : list Q;
  scalaYList : list Q;
  tileSizeList : list Z
}.

(** The four lists built by [factors]. *)
Definition pyramid : Type := (list Z * list Q * list Q * list Z)%type.

(** The [while base > 256] loop of [factors]; [fuel] bounds the number of
    iterations and [factors_fuel] below is always enough. *)
Fixpoint factors_loop (fuel : nat) (tile : Z) (sX sY : Q) (base : Q) (cur : Z)
  (acc : pyramid) : pyramid :=
  match fuel with
  | O => acc
  | S fuel' =>
      if Py.gtb base 256 then
        let '(fs, scala_x, scala_y, tile_size) := acc in
        factors_loop fuel' tile sX sY (Qred (base / 2)) (cur * 2)
          (fs ++ [cur],
           scala_x ++ [Qred (sX * inject_Z cur)],
           scala_y ++ [Qred (sY * inject_Z cur)],
           tile_size ++ [Py.int (inject_Z tile / inject_Z cur)])
      else acc
  end.

Definition factors_fuel (x y : Z) : nat := Z.to_nat (Z.log2_up (Z.max x y)).

(** The body of [factors(has)] on the attributes it reads. *)
Definition factors_of (re_size range_x range_y tile : Z) (sX sY : Q) (has : bool)
  : pyramid :=
  let x := re_size * range_x in
  let y := re_size * range_y in
  let base := (inject_Z (Z.max x y) / 2)%Q in
  let init : pyramid := ([1], [sX], [sY], [tile]) in
  if has then factors_loop (factors_fuel x y) tile sX sY base 2 init
  else init.

(** [GlobalTileInfo.factors(has=True)]. *)
Definition factors (g : GlobalTileInfo) (has : bool) : pyramid :=
  factors_of (reSize g) (rangeX g) (rangeY g) (tileSize g) (scalaX g) (scalaY g) has.

(** [GlobalTileInfo.__init__]; [factors_arg] is [None] or the triple
    [(factors, xFactors, yFactors)]. *)
Definition init (tr : transform) (x_size y_size : Z) (tile : Z) (hasPyramid : bool)
  (factors_arg : option (list Z * list Q * list Q)) : result GlobalTileInfo :=
  let ori_x := 0%Q in
  let ori_y := 0%Q in
  let '(l_x, s_x, _, l_y, _, s_y) := tr in
  let r_x := Qred (l_x + inject_Z x_size * s_x) in
  let r_y := Qred (l_y + inject_Z y_size * s_y) in
  let* dev_x := Py.mod_ l_x s_x in
  let* dev_y := Py.mod_ l_y (Py.abs s_y) in
  let ori_x := Qred (ori_x + dev_x) in
  let ori_y := Qred (ori_y + dev_y) in
  let* tile_x_start := _cal_tile_start_index l_x ori_x tile s_x in
  let* tile_y_start := _cal_tile_start_index l_y ori_y tile s_y in
  let first_x := Qred (ori_x + inject_Z tile_x_start * (inject_Z tile * s_x)) in
  let first_y := Qred (ori_y + inject_Z tile_y_start * (inject_Z tile * s_y)) in
  let* qx := Py.div (r_x - first_x) (inject_Z tile * s_x) in
  let range_x := Py.ceil qx in
  let* qy := Py.div (r_y - first_y) (inject_Z tile * s_y) in
  let range_y := Py.ceil qy in
  let tile_x_end := range_x - 1 in
  let tile_y_end := range_y - 1 in
  let* (fs, sxl, syl, tsl) :=
    match factors_arg with
    | None => Ok (factors_of tile range_x range_y tile s_x s_y hasPyramid)
    | Some (fs, xFactors, yFactors) =>
        let* tsl := mapM (fun i => let* q := Py.div (inject_Z tile) (inject_Z i) in
                                   Ok (Py.int q)) fs in
        Ok (fs, xFactors, yFactors, tsl)
    end in
  Ok {| oriX := ori_x; oriY := ori_y; tileSize := tile;
        lx := l_x; scalaX := s_x; ly := l_y; scalaY := s_y;
        xSize := x_size; ySize := y_size; rx := r_x; ry := r_y;
        deviationX := dev_x; deviationY := dev_y;
        tileXStart := 0; tileYStart := 0;
        firstTileLeftX := first_x; firstTileLeftY := first_y;
        rangeX := range_x; rangeY := range_y;
        tileXEnd := tile_x_end; tileYEnd := tile_y_end;
        reSizeXEnd := inject_Z tile_x_end; reSizeYEnd := inject_Z tile_y_end;
        reSize := tile;
        _factors := fs; scalaXList := sxl; scalaYList := syl; tileSizeList := tsl |}.

(** [GlobalTileInfo.resize(tileSize)].  The method assigns [self.reSize]
    before it tests the ratio, so the lattice is returned in both cases. *)
Definition resize (g : GlobalTileInfo) (new_size : Z) : GlobalTileInfo * result unit :=
  let g1 := {| oriX := oriX g; oriY := oriY g; tileSize := tileSize g;
               lx := lx g; scalaX := scalaX g; ly := ly g; scalaY := scalaY g;
               xSize := xSize g; ySize := ySize g; rx := rx g; ry := ry g;
               deviationX := deviationX g; deviationY := deviationY g;
               tileXStart := tileXStart g; tileYStart := tileYStart g;
               firstTileLeftX := firstTileLeftX g; firstTileLeftY := firstTileLeftY g;
               rangeX := rangeX g; rangeY := rangeY g;
               tileXEnd := tileXEnd g; tileYEnd := tileYEnd g;
               reSizeXEnd := reSizeXEnd g; reSizeYEnd := reSizeYEnd g;
               reSize := new_size;
               _factors := _factors g; scalaXList := scalaXList g;
               scalaYList := scalaYList g; tileSizeList := tileSizeList g |} in
  match Py.div (inject_Z (tileSize g1)) (inject_Z (reSize g1)) with
  | Raise e => (g1, Raise e)
  | Ok times =>
      if Py.ltb times 1 then (g1, Raise ValueError)
      else
        let end_x := Qred ((inject_Z (tileXEnd g1) + 1) * times - 1) in
        let end_y := Qred ((inject_Z (tileYEnd g1) + 1) * times - 1) in
        ({| oriX := oriX g1; oriY := oriY g1; tileSize := tileSize g1;
            lx := lx g1; scalaX := scalaX g1; ly := ly g1; scalaY := scalaY g1;
            xSize := xSize g1; ySize := ySize g1; rx := rx g1; ry := ry g1;
            deviationX := deviationX g1; deviationY := deviationY g1;
            tileXStart := tileXStart g1; tileYStart := tileYStart g1;
            firstTileLeftX := firstTileLeftX g1; firstTileLeftY := firstTileLeftY g1;
            rangeX := Py.int (end_x + 1); rangeY := Py.int (end_y + 1);
            tileXEnd := tileXEnd g1; tileYEnd := tileYEnd g1;
            reSizeXEnd := end_x; reSizeYEnd := end_y;
            reSize := reSize g1;
            _factors := _factors g1; scalaXList := scalaXList g1;
            scalaYList := scalaYList g1; tileSizeList := tileSizeList g1 |}, Ok tt)
  end.

(** [GlobalTileInfo.get_tile_offset()]. *)
Definition get_tile_offset (g : GlobalTileInfo) : Z * Z := (rangeX g, rangeY g).

(** [GlobalTileInfo.writeable()]. *)
Definition writeable (g : GlobalTileInfo) : bool := tileSize g =? reSize g.

(** [GlobalTileInfo.get_tile_info(x, y)]. *)
Definition get_tile_info (g : GlobalTileInfo) (x y : Z) : transform * (Z * Z) :=
  let _nx := Qred (firstTileLeftX g + inject_Z x * inject_Z (reSize g) * scalaX g) in
  let _ny := Qred (firstTileLeftY g + inject_Z y * inject_Z (reSize g) * scalaY g) in
  ((_nx, scalaX g, 0%Q, _ny, 0%Q, scalaY g), (reSize g, reSize g)).

(** [GlobalTileInfo.get_tiles()]. *)
Definition get_tiles (g : GlobalTileInfo) : list (Z * Z) :=
  flat_map (fun x => map (fun y => (x, y)) (Py.range 0 (rangeY g)))
           (Py.range 0 (rangeX g)).

(** [GlobalTileInfo.get_tile_index_and_offset(x, y)]. *)
Definition get_tile_index_and_offset (g : GlobalTileInfo) (x y : Z)
  : result ((Z * Z) * (Z * Z * Z * Z)) :=
  let* times := Py.div (inject_Z (tileSize g)) (inject_Z (reSize g)) in
  let* qx := Py.div (inject_Z x) times in
  let ox := Py.int qx in
  let* qy := Py.div (inject_Z y) times in
  let oy := Py.int qy in
  let* mx := Py.mod_ (inject_Z x) times in
  let offsetX := Py.int (mx * inject_Z (reSize g)) in
  let* my := Py.mod_ (inject_Z y) times in
  let offsetY := Py.int (my * inject_Z (reSize g)) in
  Ok ((ox, oy), (offsetX, offsetY, reSize g, reSize g)).

(** [GlobalTileInfo._get_x(x)] and [_get_y(y)]. *)
Definition _get_x (g : GlobalTileInfo) (x : Z) : Q :=
  Qred (firstTileLeftX g + inject_Z x * scalaX g * inject_Z (tileSize g)).

Definition _get_y (g : GlobalTileInfo) (y : Z) : Q :=
  Qred (firstTileLeftY g + inject_Z y * scalaY g * inject_Z (tileSize g)).

(** One entry of a plan: [((tx, ty), read_info, fill_info)]. *)
Definition plan_entry : Type := ((Z * Z) * rect * rect)%type.

Definition entry_read (e : plan_entry) : rect := snd (fst e).
Definition entry_fill (e : plan_entry) : rect := snd e.

(** [GlobalTileInfo.calculate_read_window_of_sliced_band(transform, xSize,
    ySize, zoom=0)].  [Ok None] is the [return None] of the emptiness test. *)
Definition calculate_read_window_of_sliced_band (g : GlobalTileInfo)
  (tr : transform) (x_size y_size : Z) (zoom : nat)
  : result (option (list plan_entry * transform * (Z * Z))) :=
  let read_lx := t0 tr in
  let read_ty := t3 tr in
  let read_rx := Qred (t0 tr + t1 tr * inject_Z x_size) in
  let read_by := Qred (t3 tr + t5 tr * inject_Z y_size) in
  let* cur_zoom_tile_size := Py.index (tileSizeList g) zoom in
  let* cur_zoom_scala_x := Py.index (scalaXList g) zoom in
  let* cur_zoom_scala_y := Py.index (scalaYList g) zoom in
  let ori_lx := firstTileLeftX g in
  let ori_rx := Qred (ori_lx + inject_Z (reSize g) * inject_Z (rangeX g) * scalaX g) in
  let ori_ty := firstTileLeftY g in
  let ori_by := Qred (ori_ty + inject_Z (reSize g) * inject_Z (rangeY g) * scalaY g) in
  (* [not A < B and C > D] parses as [(not (A < B)) and (C > D)] *)
  if negb (Py.ltb (Py.max read_lx ori_lx) (Py.min read_rx ori_rx))
     && Py.gtb (Py.min read_ty ori_ty) (Py.max read_by ori_by)
  then Ok None
  else
    let* q := Py.div (read_lx - ori_lx) (inject_Z cur_zoom_tile_size * cur_zoom_scala_x) in
    let start_index_x := Py.int q in
    let* q := Py.div (read_ty - ori_ty) (inject_Z cur_zoom_tile_size * cur_zoom_scala_y) in
    let start_index_y := Py.int q in
    let* q := Py.div (read_rx - ori_lx) (inject_Z cur_zoom_tile_size * cur_zoom_scala_x) in
    let end_index_x := Py.ceil q - 1 in
    let* q := Py.div (read_by - ori_ty) (inject_Z cur_zoom_tile_size * cur_zoom_scala_y) in
    let end_index_y := Py.ceil q - 1 in
    let* q := Py.div (read_lx - _get_x g start_index_x) cur_zoom_scala_x in
    let start_offset_x := Py.int (Py.abs q) in
    let* q := Py.div (read_ty - _get_y g start_index_y) cur_zoom_scala_y in
    let start_offset_y := Py.int (Py.abs q) in
    let* q := Py.div (read_rx - _get_x g end_index_x) cur_zoom_scala_x in
    let end_offset_x := Py.ceil (Py.abs q) in
    let* q := Py.div (read_by - _get_y g end_index_y) cur_zoom_scala_y in
    let end_offset_y := Py.ceil (Py.abs q) in
    let actual_transform : transform :=
      (Qred (_get_x g start_index_x + inject_Z start_offset_x * cur_zoom_scala_x),
       cur_zoom_scala_x, 0%Q,
       Qred (_get_y g start_index_y + inject_Z start_offset_y * cur_zoom_scala_y),
       0%Q, cur_zoom_scala_y) in
    let actual_shape :=
      ((end_index_y - start_index_y) * cur_zoom_tile_size - start_offset_y + end_offset_y,
       (end_index_x - start_index_x) * cur_zoom_tile_size - start_offset_x + end_offset_x) in
    let windows_result_list :=
      flat_map (fun x =>
        let read_x0 := 0 in
        let read_x1 := cur_zoom_tile_size - 1 in
        let fill_x0 := 0 + (x - start_index_x) * cur_zoom_tile_size - start_offset_x in
        let fill_x1 := fill_x0 + cur_zoom_tile_size - 1 in
        let read_x0 := if x =? start_index_x then start_offset_x else read_x0 in
        let fill_x0 := if x =? start_index_x then 0 else fill_x0 in
        let read_x1 := if x =? end_index_x then end_offset_x - 1 else read_x1 in
        let fill_x1 := if x =? end_index_x then fill_x0 + read_x1 - read_x0 else fill_x1 in
        map (fun y =>
          let read_y0 := 0 in
          let read_y1 := cur_zoom_tile_size - 1 in
          let fill_y0 := 0 + (y - start_index_y) * cur_zoom_tile_size - start_offset_y in
          let fill_y1 := fill_y0 + cur_zoom_tile_size - 1 in
          let read_y0 := if y =? start_index_y then start_offset_y else read_y0 in
          let fill_y0 := if y =? start_index_y then 0 else fill_y0 in
          let read_y1 := if y =? end_index_y then end_offset_y - 1 else read_y1 in
          let fill_y1 := if y =? end_index_y then fill_y0 + read_y1 - read_y0 else fill_y1 in
          let '(read_info, fill_info) :=
            _normalized_read_and_fill_info
              (_rounding0 (PyInt read_x0), _rounding0 (PyInt read_x1),
               _rounding0 (PyInt read_y0), _rounding0 (PyInt read_y1))
              (_rounding0 (PyInt fill_x0), _rounding0 (PyInt fill_x1),
               _rounding0 (PyInt fill_y0), _rounding0 (PyInt fill_y1)) in
          ((x, y), read_info, fill_info))
          (Py.range start_index_y (end_index_y + 1)))
        (Py.range start_index_x (end_index_x + 1)) in
    Ok (Some (windows_result_list, actual_transform, actual_shape)).

(** [GlobalTileInfo.calculate_read_window_of_unsliced_band(transform, xSize,
    ySize, zoom=0)].  [Ok None] is the [return None, None]. *)
Definition calculate_read_window_of_unsliced_band (g : GlobalTileInfo)
  (tr : transform) (x_size y_size : Z) (zoom : nat)
  : result (option (rect * rect)) :=
  let regionLX := t0 tr in
  let regionLY := t3 tr in
  let regionRX := Qred (t0 tr + t1 tr * inject_Z x_size) in
  let regionRY := Qred (t3 tr + t5 tr * inject_Z y_size) in
  let* scala_x := Py.index (scalaXList g) zoom in
  let* scala_y := Py.index (scalaYList g) zoom in
  let o_ySize := Py.int (inject_Z (ySize g) / inject_Z (2 ^ Z.of_nat zoom)) in
  let o_xSize := Py.int (inject_Z (xSize g) / inject_Z (2 ^ Z.of_nat zoom)) in
  if Py.geb regionLX (rx g) || Py.leb regionRX (lx g)
     || Py.leb regionLY (ry g) || Py.geb regionRY (ly g)
  then Ok None
  else
    let* disLX := Py.div (regionLX - lx g) scala_x in
    let '(_x0, _offsetX) :=
      if Py.ltb disLX 0 then (PyInt 0, PyFloat (Py.abs disLX))
      else (PyFloat disLX, PyInt 0) in
    let* disRX := Py.div (regionRX - rx g) scala_x in
    let '(_x1, _endX) :=
      if Py.geb disRX 0
      then (PyInt (o_xSize - 1), PyFloat (Qred (inject_Z (x_size - 1) - disRX)))
      else (PyFloat (Qred (inject_Z (o_xSize - 1) + disRX)), PyInt (x_size - 1)) in
    let* disLY := Py.div (regionLY - ly g) scala_y in
    let '(_y0, _offsetY) :=
      if Py.ltb disLY 0 then (PyInt 0, PyFloat (Py.abs disLY))
      else (PyFloat disLY, PyInt 0) in
    let* disRY := Py.div (regionRY - ry g) scala_y in
    let '(_y1, _endY) :=
      if Py.geb disRY 0
      then (PyInt (o_ySize - 1), PyFloat (Qred (inject_Z (y_size - 1) - disRY)))
      else (PyFloat (Qred (inject_Z o_ySize + disRY - 1)), PyInt (y_size - 1)) in
    Ok (Some (_normalized_read_and_fill_info
                (_rounding0 _x0, _rounding0 _x1, _rounding0 _y0, _rounding0 _y1)
                (_rounding0 _offsetX, _rounding0 _endX,
                 _rounding0 _offsetY, _rounding0 _endY))).

(** The level loop of [rebuild_transform_to_target_crs]:
    [for i, v in enumerate(scalaXList): if sx >= v: zoom = i else: break]. *)
Fixpoint zoom_loop (sx : Q) (l : list Q) (i zoom : nat) : nat :=
  match l with
  | [] => zoom
  | v :: tl => if Py.geb sx v then zoom_loop sx tl (S i) i else zoom
  end.

Section Reprojection.

(** The geospatial driver.  [is_same_crs] is [osr]'s [IsSame];
    [transform_envelope min_x max_x min_y max_y s_crs t_crs] is the envelope
    [(min_x, max_x, min_y, max_y)] of the rectangle after
    [GeometryGenerator(...).transform(t_crs)]. *)
Variable is_same_crs : string -> string -> bool.
Variable transform_envelope : Q -> Q -> Q -> Q -> string -> string -> Q * Q * Q * Q.


(** [GlobalTileInfo.rebuild_transform_to_target_crs(transform, shape, s_crs,
    t_crs)]; [shape] is [(height, width)]. *)
Definition rebuild_transform_to_target_crs (g : GlobalTileInfo)
  (tr : transform) (shape : Z * Z) (s_crs t_crs : string)
  : result (transform * (Z * Z) * bool * nat) :=
  let '(min_x, step_x, _, max_y, _, step_y) := tr in
  let useless :=
    Py.eqb step_x (scalaX g) && Py.eqb step_y (scalaY g) && is_same_crs s_crs t_crs in
  if useless then Ok (tr, shape, false, O)
  else
    let max_x := Qred (min_x + inject_Z (snd shape) * step_x) in
    let min_y := Qred (max_y + inject_Z (fst shape) * step_y) in
    let '(min_x, max_x, min_y, max_y) :=
      transform_envelope min_x max_x min_y max_y s_crs t_crs in
    let* sx := Py.div (max_x - min_x) (inject_Z (snd shape)) in
    let* sy := Py.div (max_y - min_y) (inject_Z (fst shape)) in
    let zoom := zoom_loop sx (scalaXList g) 0 0 in
    (* the list reads below happen lazily, in the order of the source *)
    let* max_y :=
      if Py.geb max_y (ly g) then Ok (ly g)
      else
        let* sY := Py.index (scalaYList g) zoom in
        let* q := Py.div (max_y - ly g) sY in
        Ok (Qred (inject_Z (Py.int q) * sY + ly g)) in
    let* min_x :=
      if Py.leb min_x (lx g) then Ok (lx g)
      else
        let* sX := Py.index (scalaXList g) zoom in
        let* q := Py.div (min_x - lx g) sX in
        Ok (Qred (inject_Z (Py.int q) * sX + lx g)) in
    let* max_x :=
      if Py.geb max_x (rx g) then Ok (rx g)
      else
        let* sX := Py.index (scalaXList g) zoom in
        let* q := Py.div (max_x - lx g) sX in
        Ok (Qred (inject_Z (Py.ceil q) * sX + lx g)) in
    let* min_y :=
      if Py.leb min_y (ry g) then Ok (ry g)
      else
        let* sY := Py.index (scalaYList g) zoom in
        let* q := Py.div (min_y - ly g) sY in
        Ok (Qred (inject_Z (Py.ceil q) * sY + ly g)) in
    let* sY := Py.index (scalaYList g) zoom in
    let* q := Py.div (min_y - max_y) sY in
    let h := _rounding0 (PyFloat (Py.abs q)) in
    let* sX := Py.index (scalaXList g) zoom in
    let* q := Py.div (max_x - min_x) sX in
    let w := _rounding0 (PyFloat (Py.abs q)) in
    Ok ((min_x, sX, 0%Q, max_y, 0%Q, sY), (h, w), true, zoom).

End Reprojection.

(* ================================================================== *)
(** ** numpy arrays, GeoTIFF blobs and band metadata *)

(** A 2-D [numpy] array: its shape and its cells.  Element types are not
    modelled; a cell holds a number. *)
Record ndarray : Type := mkArray {
  nrows : Z;
  ncols : Z;
  cell : Z -> Z -> Q
}.

Definition shape_of (a : ndarray) : Z * Z := (nrows a, ncols a).

Definition shape_eqb (s1 s2 : Z * Z) : bool :=
  (fst s1 =? fst s2) && (snd s1 =? snd s2).

(** [np.empty(shape, dtype)]; numpy refuses negative sizes.  The cells of the
    fresh array are unspecified in numpy and zero here. *)
Definition np_empty (shape : Z * Z) : result ndarray :=
  if (fst shape <? 0) || (snd shape <? 0) then Raise ValueError
  else Ok (mkArray (fst shape) (snd shape) (fun _ _ => 0%Q)).

(** [a.fill(v)]. *)
Definition fill (a : ndarray) (v : Q) : ndarray :=
  mkArray (nrows a) (ncols a) (fun _ _ => v).

(** The bounds selected by the slice [start:stop] on an axis of length [len]. *)
Definition slice_bounds (len start stop : Z) : Z * Z :=
  let norm i := if i <? 0 then Z.max (i + len) 0 else Z.min i len in
  let s := norm start in
  let e := norm stop in
  (s, Z.max s e).

(** [a[y0:y1, x0:x1]]. *)
Definition get_slice (a : ndarray) (y0 y1 x0 x1 : Z) : ndarray :=
  let '(rs, re) := slice_bounds (nrows a) y0 y1 in
  let '(cs, ce) := slice_bounds (ncols a) x0 x1 in
  mkArray (re - rs) (ce - cs) (fun r c => cell a (rs + r) (cs + c)).

(** [a[y0:y1, x0:x1] = src]: the source must have the shape of the selected
    region, up to broadcasting of an axis of length 1. *)
Definition set_slice (a : ndarray) (y0 y1 x0 x1 : Z) (src : ndarray) : result ndarray :=
  let '(rs, re) := slice_bounds (nrows a) y0 y1 in
  let '(cs, ce) := slice_bounds (ncols a) x0 x1 in
  let h := re - rs in
  let w := ce - cs in
  if ((nrows src =? h) || (nrows src =? 1)) && ((ncols src =? w) || (ncols src =? 1))
  then Ok (mkArray (nrows a) (ncols a)
             (fun r c =>
                if (rs <=? r) && (r <? re) && (cs <=? c) && (c <? ce)
                then cell src (if nrows src =? h then r - rs else 0)
                              (if ncols src =? w then c - cs else 0)
                else cell a r c))
  else Raise ValueError.

(** What [write_tile] puts in a tile blob: the keyword arguments of
    [mem_file.open(driver='GTiff', ...)], the band written and the overviews
    requested from [build_overviews]. *)
Inductive resampling : Type := Nearest | Bilinear | Cubic.

Record GTiff : Type := mkGTiff {
  gt_driver : string;
  gt_count : Z;
  gt_width : Z;
  gt_height : Z;
  gt_dtype : string;
  gt_nodata : Q;
  gt_transform : transform;
  gt_crs : string;
  gt_compress : string;
  gt_band1 : ndarray;
  gt_overviews : list Z;
  gt_overview_resampling : resampling
}.

(** The fields of the band document the raster adapters read. *)
Record Metadata : Type := mkMetadata {
  band_path : string;
  backend_type : string;
  backend_path : string;
  crs : string;
  md_transform : transform;
  shape : Z * Z;
  tile_size : Z;
  cropped : bool;
  readonly : bool;
  nodata_values : list Q;
  dtypes : list string
}.

(** [utils/pixel_type.py]: the registry of pixel types, with the
    [rasterio_type] of every name it holds. *)
Definition pixel_types : list (string * string) :=
  [("ubyte", "ubyte"); ("uint8", "ubyte"); ("bool", "ubyte");
   ("uint16", "uint16"); ("int16", "int16"); ("int8", "int16"); ("byte", "int16");
   ("uint32", "uint32"); ("uint", "uint32"); ("uint64", "uint32");
   ("int32", "int32"); ("int", "int32"); ("int64", "int32");
   ("float32", "float32"); ("float16", "float32");
   ("float64", "float64"); ("float", "float64");
   ("unknown", "uint8")]%string.

Fixpoint pixel_lookup (d_type : string) (l : list (string * string)) : option string :=
  match l with
  | [] => None
  | (k, v) :: tl => if String.eqb k d_type then Some v else pixel_lookup d_type tl
  end.

(** [global_data_type.get(d_type).rasterio_type]: a name that is not in the
    registry gets the entry of ['unknown']. *)
Definition rasterio_type (d_type : string) : string :=
  match pixel_lookup d_type pixel_types with
  | Some t => t
  | None =>
      match pixel_lookup "unknown" pixel_types with
      | Some t => t
      | None => EmptyString
      end
  end.

(** [Band]: the metadata, the lattice built from it and the pixel type
    looked up from [metadata.dtypes[0]]. *)
Record Band : Type := mkBand {
  metadata : Metadata;
  gti : GlobalTileInfo;
  datatype : string
}.

(** [Band.__init__(metadata, tile_size=None)]. *)
Definition Band_init (md : Metadata) (tile_size_arg : option Z) : result Band :=
  let* g := init (md_transform md) (snd (shape md)) (fst (shape md)) (tile_size md)
                 true None in
  let* g :=
    match tile_size_arg with
    | Some t =>
        if negb (t =? tile_size md) then
          let '(g', r) := resize g t in
          let* _ := r in Ok g'
        else Ok g
    | None => Ok g
    end in
  let* dt := Py.index (dtypes md) 0 in
  Ok (mkBand md g (rasterio_type dt)).

(** [Band.nodata]: [metadata.nodata[0]]. *)
Definition Band_nodata (b : Band) : result Q := Py.index (nodata_values (metadata b)) 0.

(** [_get_x_end_and_y_end(fill_info, actual_shape, virtual_shape)]. *)
Definition _get_x_end_and_y_end (fill_info : rect) (actual_shape virtual_shape : Z * Z)
  : Z * Z :=
  let '(data_y_size, data_x_size) := actual_shape in
  let x_end :=
    if r1 fill_info <? data_x_size + r0 fill_info - 1
    then r1 fill_info - r0 fill_info + 1 else data_x_size in
  let y_end :=
    if r3 fill_info <? data_y_size + r2 fill_info - 1
    then r3 fill_info - r2 fill_info + 1 else data_y_size in
  let x_end :=
    if r0 fill_info + x_end >? snd virtual_shape
    then snd virtual_shape - r0 fill_info else x_end in
  let y_end :=
    if r2 fill_info + y_end >? fst virtual_shape
    then fst virtual_shape - r2 fill_info else y_end in
  (x_end, y_end).

(** [str(z)] for an int. *)
Definition str_of_int (z : Z) : string := NilZero.string_of_int (Z.to_int z).

(** [ResampleMapper.resample_items]. *)
Definition resample_items : list string :=
  ["nearest"; "bilinear"; "cubic"; "cubic_spline"; "lanczos"; "average"; "mode";
   "gauss"; "max"; "min"; "med"; "q1"; "q3"; "sum"; "rms"]%string.

Definition lower_ascii (c : ascii) : ascii :=
  let n := nat_of_ascii c in
  if (Nat.leb 65 n && Nat.leb n 90)%bool then ascii_of_nat (n + 32) else c.

Fixpoint lower (s : string) : string :=
  match s with
  | EmptyString => EmptyString
  | String c tl => String (lower_ascii c) (lower tl)
  end.

Fixpoint index_of (s : string) (l : list string) (i : Z) : option Z :=
  match l with
  | [] => None
  | x :: tl => if String.eqb x s then Some i else index_of s tl (i + 1)
  end.

(** [get_resample_method(resample_method=None)]. *)
Definition get_resample_method (resample_method : option string) : result Z :=
  let name := match resample_method with Some n => n | None => "nearest"%string end in
  match index_of (lower name) resample_items 0 with
  | Some i => Ok i
  | None => Raise KeyError
  end.

(* ================================================================== *)
(** ** [_band.py]: [SlicedBand] and [UnSlicedBand] *)

(** Requests sent to the storage backend and to the tile reader. *)
Inductive event : Type :=
| EvIsAccessible (path : string)
| EvGetAccessPath (path : string)
| EvRead (access_path : option string) (window : Z * Z * Z * Z) (zoom : option nat)
| EvUpload (object_name : string) (directory : string)
| EvSubmitUpload (x y : Z) (directory : string).

(** What a read returns: the literal [[[]]] or an array. *)
Inductive read_result : Type :=
| EmptyList
| Buffer (a : ndarray).

(** What a write returns: a [bool], or the [(ok, path)] of [upload_by_bytes]. *)
Inductive write_result : Type :=
| RBool (b : bool)
| RTuple (ok : bool) (path : string).

(** [AbsBackendClient], over a backend state [S].  [is_accessible] only
    inspects the backend (a [HEAD] request, [os.path.exists]).
    [get_access_path] returns the backend it leaves as well: the filesystem
    client only looks the path up, the object-store client
    ([CephRGWClient], registered for [ceph_rgw] and [s3]) sets the ACL of
    the stored key to [public-read] before it builds the URL. *)
Record Client (S : Type) : Type := mkClient {
  is_accessible : S -> string -> bool;
  get_access_path : S -> string -> S * option string;
  upload_by_bytes : S -> string -> GTiff -> string -> S * (bool * string)
}.

Arguments is_accessible {S} c s path.
Arguments get_access_path {S} c s path.
Arguments upload_by_bytes {S} c s object_name stream directory.

Section Bands.

Variable S : Type.
Variable client : Client S.

(** The geospatial and raster drivers:
    - [is_same_crs], [transform_envelope]: see [Reprojection];
    - [ExportToWkt], [ExportToProj4]: the exports of [osr.SpatialReference];
    - [rebuilt_path]: [utils.tools.rebuilt_path] ([os.path.normpath]);
    - [raster_read s access_path window zoom]: the windowed read of band 1
      that [read_from_access_path] does through [rasterio], at the overview
      of level [zoom]; it raises [ValueError] on a read error;
    - [reproject_by_gdal]: the warp of [_io.py]. *)
Variable is_same_crs : string -> string -> bool.
Variable transform_envelope : Q -> Q -> Q -> Q -> string -> string -> Q * Q * Q * Q.
Variable ExportToWkt : string -> string.
Variable ExportToProj4 : string -> string.
Variable rebuilt_path : string -> string.
Variable raster_read : S -> string -> option (Z * Z * Z * Z) -> option nat -> result ndarray.
Variable reproject_by_gdal :
  ndarray -> transform -> string -> Q -> Z * Z ->
  transform -> string -> Z * Z -> Q -> string -> Z -> result ndarray.

(** The state a call runs in: the backend, the requests made so far (latest
    first) and the warnings issued so far (latest first). *)
Record World : Type := mkWorld {
  backend : S;
  requests : list event;
  warned : list string
}.

(** State and exceptions: a raise keeps the state reached. *)
Definition M (A : Type) : Type := World -> World * result A.

Definition ret {A : Type} (a : A) : M A := fun w => (w, Ok a).

Definition bind {A B : Type} (m : M A) (k : A -> M B) : M B :=
  fun w =>
    match m w with
    | (w', Ok a) => k a w'
    | (w', Raise e) => (w', Raise e)
    end.

Definition lift {A : Type} (r : result A) : M A := fun w => (w, r).

Definition raise {A : Type} (e : exn) : M A := fun w => (w, Raise e).

Notation "x <- m ;; k" := (bind m (fun x => k))
  (at level 61, m at next level, right associativity).
Notation "' p <- m ;; k" := (bind m (fun x => let 'p := x in k))
  (at level 61, p pattern, m at next level, right associativity).

Definition emit (e : event) : M unit :=
  fun w => (mkWorld (backend w) (e :: requests w) (warned w), Ok tt).

(** [warnings.warn(msg)]. *)
Definition warn (msg : string) : M unit :=
  fun w => (mkWorld (backend w) (requests w) (msg :: warned w), Ok tt).

(** A task run by [pool.map] whose results are never read: what it raises is
    dropped, what it did before stays. *)
Definition swallow {A : Type} (m : M A) (default : A) : M A :=
  fun w =>
    match m w with
    | (w', Ok a) => (w', Ok a)
    | (w', Raise _) => (w', Ok default)
    end.

Definition client_is_accessible (path : string) : M bool :=
  _ <- emit (EvIsAccessible path) ;;
  fun w => (w, Ok (is_accessible client (backend w) path)).

Definition client_get_access_path (path : string) : M (option string) :=
  _ <- emit (EvGetAccessPath path) ;;
  fun w =>
    let '(s', r) := get_access_path client (backend w) path in
    (mkWorld s' (requests w) (warned w), Ok r).

Definition client_upload_by_bytes (name : string) (ctx : GTiff) (dir : string)
  : M (bool * string) :=
  _ <- emit (EvUpload name dir) ;;
  fun w =>
    let '(s', r) := upload_by_bytes client (backend w) name ctx dir in
    (mkWorld s' (requests w) (warned w), Ok r).

(** [global_thread_pool_executor.upload_tiles]: the upload is handed to the
    shared pool and not waited for; only the submission is part of the call. *)
Definition upload_tiles (x y : Z) (ctx : GTiff) (dir : string) : M unit :=
  emit (EvSubmitUpload x y dir).

(** [read_from_access_path(access_path, window, zoom, cache)], as a read of
    the backend.  With [cache] set the code first asks the process-wide byte
    cache for the path, and a read that misses starts a thread that keeps
    the blob there for 3600 s; a blob served from the cache can be older
    than the one the backend holds.  That cache is outside this model, which
    therefore says which requests a read makes and how the array it gets is
    used, not which version of a rewritten tile the array shows. *)
Definition read_from_access_path (access_path : option string)
  (window : Z * Z * Z * Z) (zoom : option nat) (cache : bool) : M ndarray :=
  _ <- emit (EvRead access_path window zoom) ;;
  match access_path with
  | None =>
      let '(_, _, w2, w3) := window in
      ret (mkArray w3 w2 (fun _ _ => 0%Q))
  | Some p => fun w => (w, raster_read (backend w) p (Some window) zoom)
  end.

(** The object path [rebuilt_path(f'{directory}/{x}_{y}.tif')]. *)
Definition tile_object_path (dir : string) (x y : Z) : string :=
  rebuilt_path (dir ++ "/" ++ str_of_int x ++ "_" ++ str_of_int y ++ ".tif")%string.

(** [SlicedBand.read_tile(x, y)]. *)
Definition SlicedBand_read_tile (b : Band) (x y : Z) : M ndarray :=
  '(tiles, windows) <- lift (get_tile_index_and_offset (gti b) x y) ;;
  let fa_directory := backend_path (metadata b) in
  let '(x, y) := tiles in
  let tile_path := tile_object_path fa_directory x y in
  acc <- client_is_accessible tile_path ;;
  if acc : bool then
    access_path <- client_get_access_path tile_path ;;
    read_from_access_path access_path windows None true
  else
    data <- lift (np_empty (reSize (gti b), reSize (gti b))) ;;
    nodata <- lift (Band_nodata b) ;;
    ret (fill data nodata).

(** The closure [threading_read_from_info] of [SlicedBand.read_region],
    on the shared [base_array]. *)
Definition threading_read_from_info (b : Band) (zoom : nat) (actual_shape : Z * Z)
  (base_array : ndarray) (info : plan_entry) : M ndarray :=
  let '(tiles, read_info, fill_info) := info in
  let object_path := tile_object_path (backend_path (metadata b)) (fst tiles) (snd tiles) in
  acc <- client_is_accessible object_path ;;
  data <-
    (if acc : bool then
       url <- client_get_access_path object_path ;;
       let windows := (r0 read_info, r2 read_info,
                       r1 read_info - r0 read_info + 1,
                       r3 read_info - r2 read_info + 1) in
       d <- read_from_access_path url windows (Some zoom) true ;;
       ret (Some d)
     else ret None) ;;
  match data with
  | Some data =>
      let '(x_end, y_end) := _get_x_end_and_y_end fill_info (shape_of data) actual_shape in
      lift (set_slice base_array
              (r2 fill_info) (r2 fill_info + y_end)
              (r0 fill_info) (x_end + r0 fill_info)
              (get_slice data 0 y_end 0 x_end))
  | None => ret base_array
  end.

(** [pool.map(task, infos)] inside [with ThreadPoolExecutor(8)], one task
    after the other; the iterator of results is never consumed. *)
Fixpoint pool_map_reads (b : Band) (zoom : nat) (actual_shape : Z * Z)
  (infos : list plan_entry) (base_array : ndarray) : M ndarray :=
  match infos with
  | [] => ret base_array
  | info :: tl =>
      base_array <- swallow (threading_read_from_info b zoom actual_shape base_array info)
                            base_array ;;
      pool_map_reads b zoom actual_shape tl base_array
  end.

(** [SlicedBand.read_region(transform, xSize, ySize, project=None,
    resample=None)]. *)
Definition SlicedBand_read_region (b : Band) (tr : transform) (x_size y_size : Z)
  (project resample : option string) : M read_result :=
  if (x_size <=? 0) || (y_size <=? 0) then ret EmptyList
  else
    '(x_size, y_size) <-
      (if (x_size >=? 4096) || (y_size >=? 4096) then
         _ <- warn "read_region: sizes above 4096 are reset to 4096" ;;
         ret (Z.min x_size 4096, Z.min y_size 4096)
       else ret (x_size, y_size)) ;;
    let wkt := ExportToWkt (crs (metadata b)) in
    let project := match project with None => wkt | Some p => p end in
    resample <- lift (get_resample_method resample) ;;
    '(virtual_transform, virtual_shape, need_reproject, zoom) <-
      lift (rebuild_transform_to_target_crs is_same_crs transform_envelope (gti b)
              tr (y_size, x_size) project wkt) ;;
    planned <- lift (calculate_read_window_of_sliced_band (gti b) virtual_transform
                       (snd virtual_shape) (fst virtual_shape) zoom) ;;
    (* unpacking [None] into three names *)
    '(infos, actual_transform, actual_shape) <-
      match planned with
      | Some p => ret p
      | None => raise TypeError
      end ;;
    base_array <- lift (np_empty actual_shape) ;;
    nodata <- lift (Band_nodata b) ;;
    let base_array := fill base_array nodata in
    base_array <- pool_map_reads b zoom actual_shape infos base_array ;;
    if shape_eqb actual_shape virtual_shape && negb need_reproject
    then ret (Buffer base_array)
    else
      src_nodata <- lift (Band_nodata b) ;;
      out <- lift (reproject_by_gdal base_array actual_transform wkt src_nodata
                     actual_shape tr project (y_size, x_size) src_nodata
                     (datatype b) resample) ;;
      ret (Buffer out).

(** The tile blob composed by [write_tile] inside [MemoryFile()]. *)
Definition compose_tile (b : Band) (tr : transform) (shape : Z * Z) (dtype : string)
  (array : ndarray) : GTiff :=
  {| gt_driver := "GTiff";
     gt_count := 1;
     gt_width := snd shape;
     gt_height := fst shape;
     gt_dtype := dtype;
     gt_nodata := 0%Q;
     gt_transform := tr;
     gt_crs := ExportToProj4 (crs (metadata b));
     gt_compress := "lzw";
     gt_band1 := array;
     gt_overviews := _factors (gti b);
     gt_overview_resampling := Nearest |}.

(** [base_directory] without its leading and its trailing ['/']. *)
Definition strip_slashes (dir : string) : string :=
  let dir := if String.prefix "/" dir then String.substring 1 (String.length dir - 1) dir
             else dir in
  let n := String.length dir in
  if (Nat.ltb 0 n && String.eqb (String.substring (n - 1) 1 dir) "/")%bool
  then String.substring 0 (n - 1) dir else dir.

(** [SlicedBand.write_tile(x, y, array, concurrency=False)]. *)
Definition SlicedBand_write_tile (b : Band) (x y : Z) (array : ndarray)
  (concurrency : bool) : M write_result :=
  if readonly (metadata b) || negb (writeable (gti b)) then
    _ <- warn "write_tile: open size differs from the write size, or writing is not supported" ;;
    ret (RBool false)
  else if negb (shape_eqb (shape_of array) (tileSize (gti b), tileSize (gti b))) then
    _ <- warn "write_tile: the array does not have the size of a tile" ;;
    ret (RBool false)
  else
    let base_directory := backend_path (metadata b) in
    let '(tr, shape) := get_tile_info (gti b) x y in
    let base_directory := strip_slashes base_directory in
    dtype <- lift (Py.index (dtypes (metadata b)) 0) ;;
    let ctx := compose_tile b tr shape dtype array in
    if concurrency then
      _ <- upload_tiles x y ctx base_directory ;;
      ret (RBool true)
    else
      '(ok, path) <- client_upload_by_bytes
                       (str_of_int x ++ "_" ++ str_of_int y ++ ".tif")%string
                       ctx base_directory ;;
      ret (RTuple ok path).

(** [suc and v]: [v] when [suc] is true. *)
Definition and_suc (suc : bool) (v : write_result) : write_result :=
  if suc then v else RBool false.

(** The closure [_write_tile] of [SlicedBand.write_region]; [suc] is the
    variable of the enclosing call, which the closure only reads. *)
Definition _write_tile (b : Band) (suc : bool) (base_data : ndarray) (info : plan_entry)
  : M write_result :=
  let '(tile, read_info, fill_info) := info in
  array <- SlicedBand_read_tile b (fst tile) (snd tile) ;;
  array <- lift (set_slice array
                   (r2 read_info) (r3 read_info + 1) (r0 read_info) (r1 read_info + 1)
                   (get_slice base_data
                      (r2 fill_info) (r3 fill_info + 1)
                      (r0 fill_info) (r1 fill_info + 1))) ;;
  v <- SlicedBand_write_tile b (fst tile) (snd tile) array false ;;
  ret (and_suc suc v).

(** [for info in infos: _write_tile(info)]: the value returned by the
    closure is dropped, what it raises ends the loop. *)
Fixpoint for_write_tiles (b : Band) (suc : bool) (base_data : ndarray)
  (infos : list plan_entry) : M unit :=
  match infos with
  | [] => ret tt
  | info :: tl =>
      _ <- _write_tile b suc base_data info ;;
      for_write_tiles b suc base_data tl
  end.

(** [pool.map(_write_tile, infos)]: neither values nor raises are read. *)
Fixpoint pool_map_writes (b : Band) (suc : bool) (base_data : ndarray)
  (infos : list plan_entry) : M unit :=
  match infos with
  | [] => ret tt
  | info :: tl =>
      _ <- swallow (_write_tile b suc base_data info) (RBool false) ;;
      pool_map_writes b suc base_data tl
  end.

(** [SlicedBand.write_region(transform, data, concurrency=False)]. *)
Definition SlicedBand_write_region (b : Band) (tr : transform) (data : ndarray)
  (concurrency : bool) : M bool :=
  if readonly (metadata b) || negb (writeable (gti b)) then
    _ <- warn "write_region: open size differs from the write size, or writing is not supported" ;;
    ret false
  else
    let data_shape := shape_of data in
    planned <- lift (calculate_read_window_of_sliced_band (gti b) tr
                       (snd data_shape) (fst data_shape) 0) ;;
    (* unpacking [None] into three names; the test [infos is None] that
       follows in the source is never reached with [None] *)
    '(infos, actual_transform, actual_shape) <-
      match planned with
      | Some p => ret p
      | None => raise TypeError
      end ;;
    let suc := true in
    resample <- lift (get_resample_method None) ;;
    base_data <-
      (if negb (transform_eqb actual_transform tr)
          || negb (shape_eqb actual_shape data_shape)
       then
         let wkt := ExportToWkt (crs (metadata b)) in
         nodata <- lift (Band_nodata b) ;;
         lift (reproject_by_gdal data tr wkt nodata data_shape
                 actual_transform wkt actual_shape nodata (datatype b) resample)
       else ret data) ;;
    _ <- (if concurrency then pool_map_writes b suc base_data infos
          else for_write_tiles b suc base_data infos) ;;
    ret suc.

(** [UnSlicedBand.read_region(transform, xSize, ySize, project=None,
    resample=None)]. *)
Definition UnSlicedBand_read_region (b : Band) (tr : transform) (x_size y_size : Z)
  (project resample : option string) : M read_result :=
  if x_size * y_size <=? 0 then ret EmptyList
  else
    '(x_size, y_size) <-
      (if (x_size >? 4096) || (y_size >? 4096) then
         _ <- warn "readRegion: sizes above 4096 are reset to 4096" ;;
         ret (Z.min x_size 4096, Z.min y_size 4096)
       else ret (x_size, y_size)) ;;
    let wkt := ExportToWkt (crs (metadata b)) in
    let project := match project with None => wkt | Some p => p end in
    resample <- lift (get_resample_method resample) ;;
    '(n_transform, n_shape, need_reproject, zoom) <-
      lift (rebuild_transform_to_target_crs is_same_crs transform_envelope (gti b)
              tr (y_size, x_size) project wkt) ;;
    planned <- lift (calculate_read_window_of_unsliced_band (gti b) n_transform
                       (snd n_shape) (fst n_shape) zoom) ;;
    base_array <- lift (np_empty (y_size, x_size)) ;;
    nodata <- lift (Band_nodata b) ;;
    let base_array := fill base_array nodata in
    match planned with
    | None => ret (Buffer base_array)
    | Some (read_info, fill_info) =>
        acc <- client_is_accessible (backend_path (metadata b)) ;;
        base_array <-
          (if acc : bool then
             access_path <- client_get_access_path (backend_path (metadata b)) ;;
             data <- read_from_access_path access_path
                       (r0 read_info, r2 read_info,
                        r1 read_info - r0 read_info + 1,
                        r3 read_info - r2 read_info + 1) (Some zoom) false ;;
             let '(x_end, y_end) :=
               _get_x_end_and_y_end fill_info (shape_of data) n_shape in
             lift (set_slice base_array
                     (r2 fill_info) (r2 fill_info + y_end)
                     (r0 fill_info) (r0 fill_info + x_end)
                     (get_slice data 0 y_end 0 x_end))
           else ret base_array) ;;
        if negb need_reproject then ret (Buffer base_array)
        else
          src_nodata <- lift (Band_nodata b) ;;
          out <- lift (reproject_by_gdal base_array n_transform
                         (ExportToProj4 (crs (metadata b))) src_nodata n_shape
                         tr project (y_size, x_size) src_nodata (datatype b) resample) ;;
          ret (Buffer out)
    end.

(** [UnSlicedBand.read_tile(x, y)]. *)
Definition UnSlicedBand_read_tile (b : Band) (x y : Z) : M read_result :=
  let '(tr, shape) := get_tile_info (gti b) x y in
  UnSlicedBand_read_region b tr (snd shape) (fst shape) None None.

(** [UnSlicedBand.write_tile] and [UnSlicedBand.write_region]. *)
Definition UnSlicedBand_write_tile (b : Band) (x y : Z) (array : ndarray)
  (concurrency : bool) : M bool :=
  _ <- warn "Unsliced Band do not support functions for writing" ;;
  ret false.

Definition UnSlicedBand_write_region (b : Band) (tr : transform) (data : ndarray)
  (concurrency : bool) : M bool :=
  _ <- warn "Unsliced Band do not support functions for writing" ;;
  ret false.

End Bands.

Arguments mkWorld {S} backend requests warned.
Arguments backend {S} _.
Arguments requests {S} _.
Arguments warned {S} _.

(* ================================================================== *)
(** ** [utils/cache.py]: class [Cache] *)

Module Cache.
Section Cache.

(** Cached values and [sys.getsizeof] on them. *)
Variable value : Type.
Variable getsizeof : value -> Z.

(** [_CACHE] is an [OrderedDict]: keys in insertion order, oldest first.
    [_EXPIRE_DICT] is a dict from keys to expiry timestamps. *)
Record t : Type := mk {
  maxsize : Z;
  defaultExpire : Z;
  freeSize : Z;
  defaultEmptyResult : option value;
  _CACHE : list (string * value);
  _EXPIRE_DICT : list (string * Z)
}.

(** Dictionary primitives on association lists with unique keys. *)
Fixpoint lookup {A : Type} (k : string) (d : list (string * A)) : option A :=
  match d with
  | [] => None
  | (k', a) :: tl => if String.eqb k' k then Some a else lookup k tl
  end.

Fixpoint remove {A : Type} (k : string) (d : list (string * A)) : list (string * A) :=
  match d with
  | [] => []
  | (k', a) :: tl => if String.eqb k' k then tl else (k', a) :: remove k tl
  end.

(** [d[k] = a]: in place when [k] is present, at the end otherwise. *)
Fixpoint assign {A : Type} (k : string) (a : A) (d : list (string * A))
  : list (string * A) :=
  match d with
  | [] => [(k, a)]
  | (k', a') :: tl =>
      if String.eqb k' k then (k', a) :: tl else (k', a') :: assign k a tl
  end.

(** The bytes held: the sum of [sys.getsizeof] over the stored values. *)
Definition stored_size (d : list (string * value)) : Z :=
  fold_right (fun kv acc => getsizeof (snd kv) + acc) 0 d.

(** [Cache.__init__(maxsize, defaultExpire)], through [configure]. *)
Definition init (max_size default_expire : Z) : result t :=
  if max_size <=? 0 then Raise ValueError
  else if default_expire <? 0 then Raise ValueError
  else Ok (mk max_size default_expire max_size None [] []).

(** [Cache._delete(key)]: the tag and the new state. *)
Definition _delete (c : t) (key : string) : t * Z :=
  let '(cache, free, tag) :=
    match lookup key (_CACHE c) with
    | Some v => (remove key (_CACHE c), freeSize c + getsizeof v, 1)
    | None => (_CACHE c, freeSize c, 0)            (* except KeyError: pass *)
    end in
  (mk (maxsize c) (defaultExpire c) free (defaultEmptyResult c)
      cache (remove key (_EXPIRE_DICT c)), tag).

(** The loop of [_delete_expired] over [expire_cp.items()]. *)
Fixpoint delete_expired_loop (c : t) (expire_cp : list (string * Z)) (expireOn : Z)
  (count : Z) : t * Z :=
  match expire_cp with
  | [] => (c, count)
  | (key, expiration) :: tl =>
      if expiration <=? expireOn then
        let '(c', tag) := _delete c key in
        delete_expired_loop c' tl expireOn (count + tag)
      else delete_expired_loop c tl expireOn count
  end.

(** [Cache._delete_expired()], the clock reading [now] being
    [int(time.time())]. *)
Definition _delete_expired (c : t) (now : Z) : t * Z :=
  match _EXPIRE_DICT c with
  | [] => (c, 0)
  | _ => delete_expired_loop c (_EXPIRE_DICT c) now 0
  end.

(** The [while sizeLack < 0] loop of [_evict]: [popitem(last=False)] takes
    the oldest entry and raises [KeyError] on an empty dict, which ends the
    loop.  The expiry entry of an evicted key stays. *)
Fixpoint evict_loop (cache : list (string * value)) (free sizeLack count : Z)
  : list (string * value) * Z * Z :=
  match cache with
  | [] => (cache, free, count)
  | (_, v) :: tl =>
      if sizeLack <? 0
      then evict_loop tl (free + getsizeof v) (sizeLack + getsizeof v) (count + 1)
      else (cache, free, count)
  end.

(** [Cache._evict(sizeNeed)]. *)
Definition _evict (c : t) (sizeNeed : Z) : t * Z :=
  if sizeNeed >? freeSize c then
    let sizeLack := freeSize c - sizeNeed in
    let '(cache, free, count) := evict_loop (_CACHE c) (freeSize c) sizeLack 0 in
    (mk (maxsize c) (defaultExpire c) free (defaultEmptyResult c)
        cache (_EXPIRE_DICT c), count)
  else (c, 0).

(** [Cache._set(key, value, expire=None)].  The three clock readings are
    those of [delete_expired()], of the sweep inside [self.keys()] and of
    [_get_timestamp(expire)].  A raise leaves the state reached. *)
Definition _set (c : t) (key : string) (v : value) (expire : option Z)
  (now1 now2 now3 : Z) : t * result unit :=
  let expire := match expire with Some e => e | None => defaultExpire c end in
  let c := fst (_delete_expired c now1) in
  let value_size := getsizeof v in
  if value_size >? maxsize c then (c, Raise ValueError)
  else
    let c := fst (_delete_expired c now2) in
    let c := match lookup key (_CACHE c) with
             | Some _ => fst (_delete c key)
             | None => c
             end in
    let c := fst (_evict c value_size) in
    (mk (maxsize c) (defaultExpire c) (freeSize c - value_size)
        (defaultEmptyResult c)
        (assign key v (_CACHE c))
        (assign key (now3 + expire) (_EXPIRE_DICT c)), Ok tt).

(** [Cache.is_expired(key)]. *)
Definition is_expired (c : t) (key : string) (now : Z) : bool :=
  match lookup key (_EXPIRE_DICT c) with
  | Some e => e <=? now
  | None => false
  end.

(** [Cache._get(key, default=None)]. *)
Definition _get (c : t) (key : string) (default : option value) (now : Z)
  : t * option value :=
  let fallback := match default with
                  | None => defaultEmptyResult c
                  | Some d => Some d
                  end in
  match lookup key (_CACHE c) with
  | Some v =>
      if is_expired c key now then (fst (_delete c key), fallback)
      else (c, Some v)
  | None => (c, fallback)
  end.

(** [Cache._has(key)]: both [delete_expired()] and [keys()] sweep. *)
Definition _has (c : t) (key : string) (now1 now2 : Z) : t * bool :=
  let c := fst (_delete_expired c now1) in
  let c := fst (_delete_expired c now2) in
  (c, match lookup key (_CACHE c) with Some _ => true | None => false end).

(** [Cache.__len__()]: the bytes in use. *)
Definition __len__ (c : t) : Z := maxsize c - freeSize c.

(** [Cache.cacheable(dataSize)]. *)
Definition cacheable (c : t) (dataSize : Z) : bool := dataSize <=? maxsize c.

(** [Cache.copy()]: sweeps the expired entries, then copies [_CACHE]. *)
Definition copy (c : t) (now : Z) : t * list (string * value) :=
  let c := fst (_delete_expired c now) in
  (c, _CACHE c).

(** [Cache.keys()]. *)
Definition keys (c : t) (now : Z) : t * list string :=
  let '(c, d) := copy c now in
  (c, map fst d).

(** [Cache._clear()]. *)
Definition _clear (c : t) : t :=
  mk (maxsize c) (defaultExpire c) (maxsize c) (defaultEmptyResult c) [] [].

(** [Cache.full()]. *)
Definition full (c : t) : bool :=
  if maxsize c <=? 0 then false else freeSize c <=? 0.

(** [Cache.configure(maxsize, defaultExpire, defaultEmptyResult)] on a
    constructed cache ([freeSize] is set).  The arguments are typed, so the
    two [isinstance] tests pass; a raise at [defaultExpire] comes after the
    new [maxsize] has been stored. *)
Definition configure (c : t) (max_size default_expire : option Z)
  (default_empty : option value) : t * result unit :=
  let step1 :=
    match max_size with
    | Some m =>
        if m <=? 0 then (c, Raise ValueError)
        else (mk m (defaultExpire c) (freeSize c + (m - maxsize c))
                 (defaultEmptyResult c) (_CACHE c) (_EXPIRE_DICT c), Ok tt)
    | None => (c, Ok tt)
    end in
  match step1 with
  | (c, Raise e) => (c, Raise e)
  | (c, Ok _) =>
      let step2 :=
        match default_expire with
        | Some d =>
            if d <? 0 then (c, Raise ValueError)
            else (mk (maxsize c) d (freeSize c) (defaultEmptyResult c)
                     (_CACHE c) (_EXPIRE_DICT c), Ok tt)
        | None => (c, Ok tt)
        end in
      match step2 with
      | (c, Raise e) => (c, Raise e)
      | (c, Ok _) =>
          match default_empty with
          | Some r => (mk (maxsize c) (defaultExpire c) (freeSize c) (Some r)
                          (_CACHE c) (_EXPIRE_DICT c), Ok tt)
          | None => (c, Ok tt)
          end
      end
  end.

(** The public operations, each under the lock. *)
Inductive op : Type :=
  | Set_ (key : string) (v : value) (expire : option Z) (now1 now2 now3 : Z)
  | Get (key : string) (default : option value) (now : Z)
  | Delete (key : string)
  | DeleteExpired (now : Z).

Definition step (c : t) (o : op) : t :=
  match o with
  | Set_ key v expire now1 now2 now3 => fst (_set c key v expire now1 now2 now3)
  | Get key default now => fst (_get c key default now)
  | Delete key => fst (_delete c key)
  | DeleteExpired now => fst (_delete_expired c now)
  end.

Definition run (c : t) (ops : list op) : t := fold_left step ops c.

End Cache.
End Cache.

Arguments Cache.maxsize {value} _.
Arguments Cache.defaultExpire {value} _.
Arguments Cache.freeSize {value} _.
Arguments Cache.defaultEmptyResult {value} _.
Arguments Cache._CACHE {value} _.
Arguments Cache._EXPIRE_DICT {value} _.
Arguments Cache.stored_size {value} getsizeof d.
Arguments Cache.init {value} max_size default_expire.
Arguments Cache._delete {value} getsizeof c key.
Arguments Cache.delete_expired_loop {value} getsizeof c expire_cp expireOn count.
Arguments Cache._delete_expired {value} getsizeof c now.
Arguments Cache.evict_loop {value} getsizeof cache free sizeLack count.
Arguments Cache._evict {value} getsizeof c sizeNeed.
Arguments Cache._set {value} getsizeof c key v expire now1 now2 now3.
Arguments Cache.is_expired {value} c key now.
Arguments Cache._get {value} getsizeof c key default now.
Arguments Cache._has {value} getsizeof c key now1 now2.
Arguments Cache.__len__ {value} c.
Arguments Cache.cacheable {value} c dataSize.
Arguments Cache.copy {value} getsizeof c now.
Arguments Cache.keys {value} getsizeof c now.
Arguments Cache._clear {value} c.
Arguments Cache.full {value} c.
Arguments Cache.configure {value} c max_size default_expire default_empty.
Arguments Cache.Set_ {value} key v expire now1 now2 now3.
Arguments Cache.Get {value} key default now.
Arguments Cache.Delete {value} key.
Arguments Cache.DeleteExpired {value} now.
Arguments Cache.step {value} getsizeof c o.
Arguments Cache.run {value} getsizeof c ops.

(* ================================================================== *)
(** ** An in-memory backend and the test band, for the examples *)

(** Objects by absolute path, as the filesystem client keeps them under its
    base directory [/]. *)
Definition mem_store : Type := list (string * GTiff).

Fixpoint mem_lookup (s : mem_store) (path : string) : option GTiff :=
  match s with
  | [] => None
  | (p, t) :: tl => if String.eqb p path then Some t else mem_lookup tl path
  end.

(** [FSClient]: [upload_by_bytes] returns [(False, path)] when the write
    keeps failing; [upload_ok] says whether writes succeed. *)
Definition mem_client (upload_ok : bool) : Client mem_store :=
  {| is_accessible := fun s path =>
       match mem_lookup s path with Some _ => true | None => false end;
     get_access_path := fun s path =>
       (s, match mem_lookup s path with Some _ => Some path | None => None end);
     upload_by_bytes := fun s object_name stream directory =>
       let path := ("/" ++ directory ++ "/" ++ object_name)%string in
       if upload_ok then ((path, stream) :: s, (true, path))
       else (s, (false, path)) |}.

(** A windowed read of the base level of a stored blob. *)
Definition mem_raster_read (s : mem_store) (access_path : string)
  (window : option (Z * Z * Z * Z)) (zoom : option nat) : result ndarray :=
  match mem_lookup s access_path with
  | None => Raise ValueError
  | Some t =>
      match window with
      | None => Ok (gt_band1 t)
      | Some (col, row, w, h) =>
          Ok (mkArray h w (fun r c => cell (gt_band1 t) (row + r) (col + c)))
      end
  end.

(** No warp is available in the examples; none of them reaches it. *)
Definition no_warp (a : ndarray) (st : transform) (sc : string) (sn : Q) (ss : Z * Z)
  (dt : transform) (dc : string) (ds : Z * Z) (dn : Q) (ty : string) (rs : Z)
  : result ndarray := Raise ValueError.

Definition same_crs_driver_is_same (s t : string) : bool := String.eqb s t.

Definition same_crs_driver_envelope (min_x max_x min_y max_y : Q) (s t : string)
  : Q * Q * Q * Q := (min_x, max_x, min_y, max_y).

Definition same_string (s : string) : string := s.

(** The dataset of the repository's tests: [transform = (12834619, 30, 0,
    5011732, 0, -30)], 2000 x 2000 pixels, EPSG:3857, tiles of 2048. *)
Definition test_transform : transform :=
  (12834619 # 1, 30 # 1, 0, 5011732 # 1, 0, -30 # 1)%Q.

Definition test_gti : GlobalTileInfo :=
  Eval vm_compute in
    match init test_transform 2000 2000 2048 true None with
    | Ok g => g
    | Raise _ => mkGTI 0 0 0 0 0 0 0 0 0 0 0 0 0 0 0 0 0 0 0 0 0 0 0 0 [] [] [] []
    end.

Definition test_metadata (read_only : bool) : Metadata :=
  {| band_path := "/edm_store/test/B2.BAND";
     backend_type := "fs";
     backend_path := "/edm_store/test/B2";
     crs := "EPSG:3857";
     md_transform := test_transform;
     shape := (2000, 2000);
     tile_size := 2048;
     cropped := true;
     readonly := read_only;
     nodata_values := [(-9999 # 1)%Q];
     dtypes := ["int16"%string] |}.

Definition test_band (read_only : bool) : Band :=
  mkBand (test_metadata read_only) test_gti "int16".

(** The same band opened with tiles of 1024. *)
Definition test_band_resized : Band :=
  mkBand (test_metadata false) (fst (resize test_gti 1024)) "int16".

Definition empty_world : World mem_store := mkWorld [] [] [].

(* ================================================================== *)
(** ** Size symmetry of the plans *)

(** [read_info] and [fill_info] have the same side lengths. *)
Definition same_size (read_info fill_info : rect) : Prop :=
  r1 read_info - r0 read_info = r1 fill_info - r0 fill_info /\
  r3 read_info - r2 read_info = r3 fill_info - r2 fill_info.

Lemma normalized_same_size (read_info fill_info : rect) :
  same_size (fst (_normalized_read_and_fill_info read_info fill_info))
            (snd (_normalized_read_and_fill_info read_info fill_info)).
Proof.
  destruct read_info as [[[a0 a1] a2] a3], fill_info as [[[b0 b1] b2] b3].
  unfold _normalized_read_and_fill_info, same_size; cbn [r0 r1 r2 r3].
  destruct (Z.eqb_spec (a1 - a0 - b1 + b0) 0) as [Ex|Ex];
    destruct (Z.ltb_spec (a1 - a0 - b1 + b0) 0) as [Lx|Lx];
    destruct (Z.gtb_spec (a1 - a0 - b1 + b0) 0) as [Gx|Gx];
    cbn [negb andb r0 r1 r2 r3]; try lia;
    destruct (Z.eqb_spec (a3 - a2 - b3 + b2) 0) as [Ey|Ey];
    destruct (Z.ltb_spec (a3 - a2 - b3 + b2) 0) as [Ly|Ly];
    cbn [negb fst snd r0 r1 r2 r3]; lia.
Qed.

(** C1.  Whenever [calculate_read_window_of_sliced_band] returns a plan,
    every entry [((tx, ty), read_info, fill_info)] of it has
    [read_info.x1 - read_info.x0 = fill_info.x1 - fill_info.x0] and
    [read_info.y1 - read_info.y0 = fill_info.y1 - fill_info.y0]; the pair
    returned by [calculate_read_window_of_unsliced_band], when it is not
    [(None, None)], has the same two equalities. *)
Theorem plan_size_symmetry (g : GlobalTileInfo) (tr : transform) (x_size y_size : Z)
  (zoom : nat) :
  (forall plan actual_transform actual_shape,
     calculate_read_window_of_sliced_band g tr x_size y_size zoom
       = Ok (Some (plan, actual_transform, actual_shape)) ->
     Forall (fun e => same_size (entry_read e) (entry_fill e)) plan) /\
  (forall read_info fill_info,
     calculate_read_window_of_unsliced_band g tr x_size y_size zoom
       = Ok (Some (read_info, fill_info)) ->
     same_size read_info fill_info).
Proof.
  split.
  - intros plan at_ as_ H. unfold calculate_read_window_of_sliced_band in H.
    repeat match type of H with
    | rbind ?m _ = _ => destruct m; cbn [rbind] in H; [|discriminate]
    | (if ?c then _ else _) = _ => destruct c; [discriminate|]
    end.
    injection H as <- _ _.
    apply Forall_forall. intros e He.
    apply in_flat_map in He. destruct He as (x & _ & He).
    apply in_map_iff in He. destruct He as (y & <- & _).
    match goal with
    | |- context [_normalized_read_and_fill_info ?r ?f] =>
        pose proof (normalized_same_size r f) as Hn;
        destruct (_normalized_read_and_fill_info r f) as [ri fi]
    end.
    exact Hn.
  - intros ri fi H. unfold calculate_read_window_of_unsliced_band in H.
    repeat match type of H with
    | context [rbind ?m _] => destruct m; cbn [rbind] in H; try discriminate
    | context [if ?c then _ else _] => destruct c; cbn beta iota zeta in H; try discriminate
    end;
    injection H as H;
    match type of H with
    | _normalized_read_and_fill_info ?r ?f = _ =>
        pose proof (normalized_same_size r f) as Hn; rewrite H in Hn; exact Hn
    end.
Qed.

Lemma plan_size_symmetry_witness :
  Forall (fun e => same_size (entry_read e) (entry_fill e))
    [((0, 0), (1836, 2047, 879, 2047), (0, 211, 0, 1168));
     ((0, 1), (1836, 2047, 0, 830), (0, 211, 1169, 1999));
     ((1, 0), (0, 1787, 879, 2047), (212, 1999, 0, 1168));
     ((1, 1), (0, 1787, 0, 830), (212, 1999, 1169, 1999))] /\
  same_size (0, 1999, 0, 1999) (0, 1999, 0, 1999).
Proof.
  split.
  - refine (proj1 (plan_size_symmetry test_gti test_transform 2000 2000 0) _ _ _ _).
    vm_compute. reflexivity.
  - refine (proj2 (plan_size_symmetry test_gti test_transform 2000 2000 0) _ _ _).
    vm_compute. reflexivity.
Defined.

(* ================================================================== *)
(** ** Pyramid-level selection *)




Lemma factors_loop_head fuel : forall tile sX sY base cur fs xs ys ts x0,
  nth_error xs 0 = Some x0 ->
  nth_error (snd (fst (fst (factors_loop fuel tile sX sY base cur (fs, xs, ys, ts))))) 0
    = Some x0.
Proof.
  induction fuel as [|fuel IH]; intros tile sX sY base cur fs xs ys ts x0 H0;
    cbn [factors_loop].
  - exact H0.
  - destruct (Py.gtb base 256); [|exact H0].
    apply IH. destruct xs; [discriminate | exact H0].
Qed.




(** [factors_fuel] is enough: with more fuel the loop of [factors] returns
    the same lists, so it always leaves through its test [base > 256]. *)
Lemma factors_loop_fuel_enough fuel : forall tile sX sY base cur acc extra,
  (base <= inject_Z (256 * 2 ^ Z.of_nat fuel))%Q ->
  factors_loop (fuel + extra) tile sX sY base cur acc
    = factors_loop fuel tile sX sY base cur acc.
Proof.
  induction fuel as [|fuel IH]; intros tile sX sY base cur acc extra Hb.
  - assert (E : Py.gtb base 256 = false).
    { unfold Py.gtb, Py.ltb. apply negb_false_iff. apply Qle_bool_iff. exact Hb. }
    destruct extra; cbn [Nat.add factors_loop]; [reflexivity|].
    rewrite E. reflexivity.
  - cbn [Nat.add factors_loop]. destruct (Py.gtb base 256); [|reflexivity].
    destruct acc as [[[fs xs] ys] ts]. apply IH.
    rewrite Qred_correct.
    replace (256 * 2 ^ Z.of_nat (S fuel)) with (2 * (256 * 2 ^ Z.of_nat fuel)) in Hb
      by (rewrite Nat2Z.inj_succ, Z.pow_succ_r by lia; lia).
    rewrite inject_Z_mult in Hb.
    apply Qle_shift_div_r; [reflexivity|].
    rewrite Qmult_comm. exact Hb.
Qed.

Lemma factors_fuel_enough re_size range_x range_y tile sX sY extra :
  let x := re_size * range_x in
  let y := re_size * range_y in
  factors_loop (factors_fuel x y + extra) tile sX sY (inject_Z (Z.max x y) / 2) 2
    ([1], [sX], [sY], [tile])
  = factors_of re_size range_x range_y tile sX sY true.
Proof.
  intros x y. unfold factors_of. fold x y. apply factors_loop_fuel_enough.
  unfold factors_fuel. set (m := Z.max x y).
  apply Qle_shift_div_r; [reflexivity|].
  assert (Hm : m <= 2 ^ Z.log2_up m).
  { destruct (Z.le_gt_cases m 1) as [H1|H1].
    - rewrite Z.log2_up_eqn0 by exact H1. simpl. exact H1.
    - apply Z.log2_up_spec. exact H1. }
  rewrite Z2Nat.id by apply Z.log2_up_nonneg.
  change 2%Q with (inject_Z 2). rewrite <- inject_Z_mult, <- Zle_Qle.
  assert (0 < 2 ^ Z.log2_up m) by (apply Z.pow_pos_nonneg; [lia | apply Z.log2_up_nonneg]).
  lia.
Qed.




Section LevelSelection.

Variable is_same_crs : string -> string -> bool.
Variable transform_envelope : Q -> Q -> Q -> Q -> string -> string -> Q * Q * Q * Q.


End LevelSelection.


(* ================================================================== *)
(** ** Resizing the lattice *)

Lemma div_int_ltb_1 (T t : Z) :
  0 < T -> t <> 0 ->
  Py.ltb (Qred (inject_Z T / inject_Z t)) 1 = (t <? 0) || (T <? t).
Proof.
  intros HT Ht. unfold Py.ltb.
  destruct ((t <? 0) || (T <? t)) eqn:E.
  - apply negb_true_iff. apply not_true_is_false. intros H.
    apply Qle_bool_iff in H. rewrite Qred_correct in H.
    apply orb_true_iff in E.
    destruct t as [|p|p]; [contradiction| |].
    + destruct E as [E|E]; [discriminate|]. apply Z.ltb_lt in E.
      unfold Qle, Qdiv, Qinv, Qmult, inject_Z in H. simpl in H. lia.
    + unfold Qle, Qdiv, Qinv, Qmult, inject_Z in H. simpl in H. lia.
  - apply negb_false_iff. apply Qle_bool_iff. rewrite Qred_correct.
    apply orb_false_iff in E. destruct E as [E1 E2].
    apply Z.ltb_ge in E1. apply Z.ltb_ge in E2.
    destruct t as [|p|p]; [contradiction| |lia].
    unfold Qle, Qdiv, Qinv, Qmult, inject_Z. simpl. lia.
Qed.

Lemma inject_Z_eqb_0 (t : Z) : Py.eqb (inject_Z t) 0 = (t =? 0).
Proof.
  unfold Py.eqb, Qeq_bool, inject_Z. simpl. rewrite Z.mul_1_r.
  destruct t; reflexivity.
Qed.

Lemma resize_non_divisor_counterexample :
  ~ (forall (g : GlobalTileInfo) (t : Z),
       ~ (t | tileSize g) -> exists e, snd (resize g t) = Raise e).
Proof.
  intros H. destruct (H test_gti 1000) as [e He].
  - intros [k Hk]. change (tileSize test_gti) with 2048 in Hk. lia.
  - vm_compute in He. discriminate.
Qed.

(** C7, as amended.  On a lattice with a positive stored tile size,
    [resize(tileSize)] raises [ValueError] for every requested size that is
    larger than the stored one or negative, and [ZeroDivisionError] for 0;
    it succeeds for every positive size up to the stored one, whether or not
    the size divides the stored one, and leaves that size in [reSize]; after
    a successful resize to a smaller size [writeable()] is false. *)
Theorem resize_guard (g : GlobalTileInfo) (t : Z) :
  0 < tileSize g ->
  (tileSize g < t \/ t < 0 -> snd (resize g t) = Raise ValueError) /\
  (t = 0 -> snd (resize g t) = Raise ZeroDivisionError) /\
  (0 < t <= tileSize g ->
     snd (resize g t) = Ok tt /\
     reSize (fst (resize g t)) = t /\
     (t < tileSize g -> writeable (fst (resize g t)) = false)).
Proof.
  intros HT. unfold resize. cbn [tileSize reSize]. unfold Py.div.
  rewrite inject_Z_eqb_0.
  destruct (Z.eqb_spec t 0) as [E0|E0].
  - subst t. repeat split; lia.
  - rewrite (div_int_ltb_1 _ _ HT E0).
    split; [|split].
    + intros [H|H].
      * replace (tileSize g <? t) with true by (symmetry; apply Z.ltb_lt; lia).
        rewrite orb_true_r. reflexivity.
      * replace (t <? 0) with true by (symmetry; apply Z.ltb_lt; lia). reflexivity.
    + intros ->. contradiction.
    + intros [H1 H2].
      replace (t <? 0) with false by (symmetry; apply Z.ltb_ge; lia).
      replace (tileSize g <? t) with false by (symmetry; apply Z.ltb_ge; lia).
      cbn [orb fst snd reSize tileSize writeable].
      split; [reflexivity|]. split; [reflexivity|].
      intros Hlt. apply Z.eqb_neq. cbn [tileSize reSize]. lia.
Qed.

Lemma resize_guard_witness :
  snd (resize test_gti 1000) = Ok tt /\
  reSize (fst (resize test_gti 1000)) = 1000 /\
  writeable (fst (resize test_gti 1000)) = false /\
  snd (resize test_gti 2049) = Raise ValueError.
Proof.
  assert (HT : 0 < tileSize test_gti) by (vm_compute; reflexivity).
  destruct (resize_guard test_gti 1000 HT) as (_ & _ & H).
  destruct (resize_guard test_gti 2049 HT) as (H' & _).
  destruct H as (H1 & H2 & H3); [vm_compute; split; congruence|].
  split; [exact H1|]. split; [exact H2|]. split.
  - apply H3. vm_compute. reflexivity.
  - apply H'. left. vm_compute. reflexivity.
Defined.

(* ================================================================== *)
(** ** [_rounding] *)

(** [x] lies exactly half-way between two multiples of [10 ** -n]. *)
Definition exact_half (x : Q) (n : nat) : Prop :=
  exists k : Z, (x * inject_Z (Py.pow10 n) == inject_Z k + (1 # 2))%Q.

Lemma Qfloor_frac (a : Z) (b : positive) : Qfloor (a # b) = a / Z.pos b.
Proof. reflexivity. Qed.

(** Exact halves go up, whatever their sign: [_rounding(k + 0.5) = k + 1]. *)
Lemma rounding_half_up (k : Z) :
  _rounding (PyFloat (inject_Z k + (1 # 2))) 0 = PyInt (k + 1).
Proof.
  unfold _rounding, digit_is_5, frac_digit.
  cbn [Nat.eqb negb andb].
  rewrite andb_false_r.
  assert (Hd : Qfloor (Qabs (inject_Z k + (1 # 2)) * inject_Z (Py.pow10 0) * 10) mod 10 = 5).
  { unfold Qabs, Qplus, Qmult, inject_Z, Py.pow10. cbn [Qnum Qden Z.of_nat Z.pow].
    rewrite Qfloor_frac.
    change (Z.pos (1 * 2 * 1 * 1)) with 2.
    destruct (Z.abs_spec (k * 2 + 1 * 1)) as [[_ ->]|[_ ->]];
      Z.div_mod_to_equations; lia. }
  rewrite Hd. cbn [Z.eqb Pos.eqb].
  f_equal. unfold Py.round.
  assert (Hf : Qfloor (inject_Z k + (1 # 2) + 1 / inject_Z (Py.pow10 (0 + 1))) = k).
  { unfold Qplus, Qdiv, Qmult, Qinv, inject_Z, Py.pow10.
    cbn [Qnum Qden Z.of_nat Pos.of_succ_nat Pos.succ plus Z.pow Z.pow_pos Pos.iter Z.mul Pos.mul].
    rewrite Qfloor_frac. symmetry. apply Z.div_unique with 12; lia. }
  rewrite Hf.
  assert (Hlt : Py.ltb (inject_Z k + (1 # 2) + 1 / inject_Z (Py.pow10 (0 + 1)) - inject_Z k)
                       (1 # 2) = false).
  { unfold Py.ltb. apply negb_false_iff. apply Qle_bool_iff.
    unfold Qle, Qminus, Qplus, Qopp, Qdiv, Qmult, Qinv, inject_Z, Py.pow10.
    cbn [Qnum Qden Z.of_nat Pos.of_succ_nat Pos.succ plus Z.pow Z.pow_pos Pos.iter Z.mul Pos.mul].
    lia. }
  assert (Hgt : Py.ltb (1 # 2)
                       (inject_Z k + (1 # 2) + 1 / inject_Z (Py.pow10 (0 + 1)) - inject_Z k)
                = true).
  { unfold Py.ltb. apply negb_true_iff. apply not_true_is_false. intros H.
    apply Qle_bool_iff in H. revert H.
    unfold Qle, Qminus, Qplus, Qopp, Qdiv, Qmult, Qinv, inject_Z, Py.pow10.
    cbn [Qnum Qden Z.of_nat Pos.of_succ_nat Pos.succ plus Z.pow Z.pow_pos Pos.iter Z.mul Pos.mul].
    lia. }
  rewrite Hlt, Hgt. reflexivity.
Qed.

(** [round] above the half-way point. *)
Lemma round_above_half (a : Z) (b : positive) (f : Z) :
  f * Z.pos b <= a < (f + 1) * Z.pos b -> Z.pos b < 2 * (a - f * Z.pos b) ->
  Py.round (a # b) = f + 1.
Proof.
  intros Hf Hr. unfold Py.round.
  assert (E : Qfloor (a # b) = f).
  { rewrite Qfloor_frac. symmetry. apply Z.div_unique with (a - f * Z.pos b); lia. }
  rewrite E.
  assert (Hlt : Py.ltb ((a # b) - inject_Z f) (1 # 2) = false).
  { unfold Py.ltb. apply negb_false_iff. apply Qle_bool_iff.
    unfold Qle, Qminus, Qplus, Qopp, inject_Z. cbn [Qnum Qden]. lia. }
  assert (Hgt : Py.ltb (1 # 2) ((a # b) - inject_Z f) = true).
  { unfold Py.ltb. apply negb_true_iff. apply not_true_is_false. intros H.
    apply Qle_bool_iff in H. revert H.
    unfold Qle, Qminus, Qplus, Qopp, inject_Z. cbn [Qnum Qden]. lia. }
  rewrite Hlt, Hgt. reflexivity.
Qed.

(** Non-negative values that are not exact halves round as [round] does. *)
Lemma rounding_nonneg_non_half (q : Q) :
  (0 <= q)%Q -> ~ exact_half q 0 ->
  _rounding (PyFloat q) 0 = PyInt (Py.round q).
Proof.
  intros Hq Hnh. unfold _rounding, digit_is_5, frac_digit.
  cbn [Nat.eqb negb]. rewrite andb_false_r.
  destruct (Qfloor (Qabs q * inject_Z (Py.pow10 0) * 10) mod 10 =? 5) eqn:Ed; [|reflexivity].
  f_equal. apply Z.eqb_eq in Ed.
  rewrite Qabs_pos in Ed by exact Hq.
  destruct q as [a b].
  assert (Ha : 0 <= a) by (unfold Qle in Hq; simpl in Hq; lia).
  unfold Qmult, inject_Z, Py.pow10 in Ed. cbn [Qnum Qden Z.of_nat Z.pow] in Ed.
  rewrite Qfloor_frac in Ed.
  replace (Z.pos (b * 1 * 1)) with (Z.pos b) in Ed by (f_equal; lia).
  replace (a * 1 * 10) with (10 * a) in Ed by lia.
  pose proof (Z.div_mod a (Z.pos b) ltac:(lia)) as Hdm.
  pose proof (Z.mod_pos_bound a (Z.pos b) ltac:(lia)) as Hrb.
  set (f := a / Z.pos b) in *. set (r := a mod Z.pos b) in *.
  assert (Hdig : 10 * a / Z.pos b = 10 * f + 10 * r / Z.pos b).
  { replace (10 * a) with (10 * r + (10 * f) * Z.pos b) by lia.
    rewrite Z.div_add by lia. lia. }
  rewrite Hdig in Ed.
  assert (Hr10 : 0 <= 10 * r / Z.pos b < 10).
  { split; [apply Z.div_pos; lia|]. apply Z.div_lt_upper_bound; lia. }
  assert (Ed' : 10 * r / Z.pos b = 5).
  { replace (10 * f + 10 * r / Z.pos b) with (10 * r / Z.pos b + f * 10) in Ed by lia.
    rewrite Z.mod_add in Ed by lia.
    rewrite Z.mod_small in Ed by lia. exact Ed. }
  assert (H5 : 5 * Z.pos b <= 10 * r < 6 * Z.pos b).
  { pose proof (Z.div_mod (10 * r) (Z.pos b) ltac:(lia)) as H1.
    pose proof (Z.mod_pos_bound (10 * r) (Z.pos b) ltac:(lia)) as H2.
    rewrite Ed' in H1. lia. }
  assert (Hne : 2 * r <> Z.pos b).
  { intros E. apply Hnh. exists f.
    unfold Qeq, Qmult, Qplus, inject_Z, Py.pow10. cbn [Qnum Qden Z.of_nat Z.pow].
    change (10 ^ 0) with 1.
    replace (Z.pos (b * 1)) with (Z.pos b) by (f_equal; lia).
    change (Z.pos (1 * 2)) with 2. lia. }
  rewrite (round_above_half a b f) by lia.
  unfold Qplus, Qdiv, Qmult, Qinv, inject_Z, Py.pow10.
  cbn [Qnum Qden Z.of_nat Pos.of_succ_nat Pos.succ plus Z.pow Z.pow_pos Pos.iter Z.mul Pos.mul].
  apply round_above_half.
  - rewrite !Pos2Z.inj_mul. lia.
  - rewrite !Pos2Z.inj_mul. lia.
Qed.

(** C8 at a negative value that is not an exact half.  [-0.57] has the
    digit 5 after the point and is not half-way between two integers; the
    nearest integer is [-1], which is what [round] gives, and [_rounding]
    returns [0]: it adds [0.1], reaching [-0.47], before it rounds. *)
Theorem rounding_negative_digit_5 :
  _rounding (PyFloat (-57 # 100)) 0 = PyInt 0 /\
  Py.round (-57 # 100) = -1 /\
  ~ exact_half (-57 # 100) 0.
Proof.
  split; [reflexivity|]. split; [reflexivity|].
  intros [k Hk]. unfold Qeq, Qmult, Qplus, inject_Z, Py.pow10 in Hk.
  cbn [Qnum Qden Z.of_nat Z.pow] in Hk. lia.
Qed.
Section CacheCapacity.

Variable value : Type.
Variable getsizeof : value -> Z.
Hypothesis getsizeof_nonneg : forall v, 0 <= getsizeof v.

Local Abbreviation stored := (Cache.stored_size getsizeof).

(** The representation invariant: unique keys, exact accounting, and the
    capacity bound. *)
Definition cache_inv (c : Cache.t value) : Prop :=
  NoDup (map fst (Cache._CACHE c)) /\
  Cache.freeSize c = Cache.maxsize c - stored (Cache._CACHE c) /\
  0 <= Cache.freeSize c.

Lemma stored_nonneg d : 0 <= stored d.
Proof using getsizeof_nonneg.
  induction d as [|[k v] d IH]; simpl; [lia|].
  specialize (getsizeof_nonneg v). lia.
Qed.

Lemma stored_app d1 d2 : stored (d1 ++ d2)%list = stored d1 + stored d2.
Proof. induction d1 as [|[k v] d1 IH]; simpl; lia. Qed.

Lemma stored_remove k d v :
  Cache.lookup k d = Some v -> stored (Cache.remove k d) = stored d - getsizeof v.
Proof.
  induction d as [|[k' v'] d IH]; simpl; [discriminate|].
  destruct (String.eqb k' k); intros H.
  - injection H as ->. lia.
  - simpl. rewrite (IH H). lia.
Qed.

Lemma in_keys_remove {A} k x (d : list (string * A)) :
  In x (map fst (Cache.remove k d)) -> In x (map fst d).
Proof.
  induction d as [|[k' v'] d IH]; simpl; [tauto|].
  destruct (String.eqb k' k); simpl; tauto.
Qed.

Lemma NoDup_remove {A} k (d : list (string * A)) :
  NoDup (map fst d) -> NoDup (map fst (Cache.remove k d)).
Proof.
  induction d as [|[k' v'] d IH]; simpl; intros H; [constructor|].
  inversion H; subst. destruct (String.eqb k' k); [assumption|].
  simpl. constructor; [|auto]. intros Hin. apply in_keys_remove in Hin. contradiction.
Qed.

Lemma lookup_None_notin {A} k (d : list (string * A)) :
  Cache.lookup k d = None <-> ~ In k (map fst d).
Proof.
  induction d as [|[k' v'] d IH]; simpl; [tauto|].
  destruct (String.eqb_spec k' k); split; intros H.
  - discriminate.
  - exfalso. apply H. now left.
  - intros [E|Hin]; [contradiction|]. now apply IH.
  - apply IH. tauto.
Qed.

Lemma lookup_remove_None {A} k (d : list (string * A)) :
  NoDup (map fst d) -> Cache.lookup k (Cache.remove k d) = None.
Proof.
  induction d as [|[k' v'] d IH]; simpl; intros H; [reflexivity|].
  inversion H; subst.
  destruct (String.eqb_spec k' k).
  - subst. now apply lookup_None_notin.
  - simpl. destruct (String.eqb_spec k' k); [contradiction|]. auto.
Qed.

Lemma assign_absent {A} k (a : A) d :
  Cache.lookup k d = None -> Cache.assign k a d = (d ++ [(k, a)])%list.
Proof.
  induction d as [|[k' v'] d IH]; simpl; [reflexivity|].
  destruct (String.eqb k' k); [discriminate|]. intros H. now rewrite IH.
Qed.

Lemma delete_inv c key : cache_inv c -> cache_inv (fst (Cache._delete getsizeof c key)).
Proof using getsizeof_nonneg.
  intros (Hnd & Hacc & Hfree). unfold Cache._delete.
  destruct (Cache.lookup key (Cache._CACHE c)) as [v|] eqn:E; simpl.
  - repeat split; simpl.
    + now apply NoDup_remove.
    + rewrite (stored_remove _ _ _ E). lia.
    + specialize (getsizeof_nonneg v). lia.
  - repeat split; assumption.
Qed.

Lemma delete_maxsize c key : Cache.maxsize (fst (Cache._delete getsizeof c key)) = Cache.maxsize c.
Proof. unfold Cache._delete. destruct (Cache.lookup _ _); reflexivity. Qed.

Lemma delete_expired_loop_inv l : forall c now count,
  cache_inv c -> cache_inv (fst (Cache.delete_expired_loop getsizeof c l now count)).
Proof using getsizeof_nonneg.
  induction l as [|[k e] l IH]; simpl; intros c now count H; [assumption|].
  destruct (e <=? now); [|auto].
  destruct (Cache._delete getsizeof c k) as [c' tag] eqn:E.
  apply IH. change c' with (fst (c', tag)). rewrite <- E. now apply delete_inv.
Qed.

Lemma delete_expired_loop_maxsize l : forall c now count,
  Cache.maxsize (fst (Cache.delete_expired_loop getsizeof c l now count)) = Cache.maxsize c.
Proof.
  induction l as [|[k e] l IH]; simpl; intros c now count; [reflexivity|].
  destruct (e <=? now); [|auto].
  destruct (Cache._delete getsizeof c k) as [c' tag] eqn:E.
  rewrite IH. change c' with (fst (c', tag)). rewrite <- E. apply delete_maxsize.
Qed.

Lemma delete_expired_inv c now :
  cache_inv c -> cache_inv (fst (Cache._delete_expired getsizeof c now)).
Proof using getsizeof_nonneg.
  intros H. unfold Cache._delete_expired.
  destruct (Cache._EXPIRE_DICT c) eqn:E; [assumption|].
  now apply delete_expired_loop_inv.
Qed.

Lemma delete_expired_maxsize c now :
  Cache.maxsize (fst (Cache._delete_expired getsizeof c now)) = Cache.maxsize c.
Proof.
  unfold Cache._delete_expired.
  destruct (Cache._EXPIRE_DICT c) eqn:E; [reflexivity|].
  apply delete_expired_loop_maxsize.
Qed.

(** The eviction loop drops a prefix of the dict, i.e. the oldest entries,
    and stops at the first point where the lack is covered. *)
Lemma evict_loop_spec cache : forall free lack count cache' free' count',
  Cache.evict_loop getsizeof cache free lack count = (cache', free', count') ->
  exists evicted,
    cache = (evicted ++ cache')%list /\
    count' = count + Z.of_nat (List.length evicted) /\
    free' = free + stored evicted /\
    (cache' = [] \/ 0 <= lack + stored evicted) /\
    (forall p q, evicted = (p ++ q)%list -> q <> [] -> lack + stored p < 0).
Proof using getsizeof_nonneg.
  induction cache as [|[k v] cache IH]; simpl; intros free lack count cache' free' count' H.
  - injection H as <- <- <-. exists []. simpl. repeat split; try lia; auto.
    intros p q Hpq Hq. destruct p, q; try discriminate. contradiction.
  - destruct (lack <? 0) eqn:El.
    + apply IH in H. destruct H as (ev & Hc & Hcnt & Hfree & Hstop & Hmin).
      exists ((k, v) :: ev). simpl. repeat split.
      * now rewrite Hc.
      * lia.
      * lia.
      * destruct Hstop; [now left | right; lia].
      * intros p q Hpq Hq. destruct p as [|x p]; simpl in *.
        -- apply Z.ltb_lt in El. lia.
        -- injection Hpq as Hx Hpq. subst x. specialize (Hmin p q Hpq Hq). simpl. lia.
    + injection H as <- <- <-. exists []. simpl. apply Z.ltb_ge in El.
      repeat split; try lia; auto.
      intros p q Hpq Hq. destruct p, q; try discriminate. contradiction.
Qed.

Lemma NoDup_app_r {A} (l1 l2 : list A) : NoDup (l1 ++ l2)%list -> NoDup l2.
Proof. induction l1; simpl; [auto|]. intros H. inversion H; auto. Qed.

Lemma evict_spec c sizeNeed c' count :
  cache_inv c -> sizeNeed <= Cache.maxsize c ->
  Cache._evict getsizeof c sizeNeed = (c', count) ->
  cache_inv c' /\ Cache.maxsize c' = Cache.maxsize c /\
  Cache._EXPIRE_DICT c' = Cache._EXPIRE_DICT c /\
  sizeNeed <= Cache.freeSize c' /\
  exists evicted,
    Cache._CACHE c = (evicted ++ Cache._CACHE c')%list /\
    count = Z.of_nat (List.length evicted) /\
    Cache.freeSize c' = Cache.freeSize c + stored evicted /\
    (forall p q, evicted = (p ++ q)%list -> q <> [] -> Cache.freeSize c + stored p < sizeNeed).
Proof using getsizeof_nonneg.
  intros (Hnd & Hacc & Hfree) Hmax. unfold Cache._evict.
  destruct (sizeNeed >? Cache.freeSize c) eqn:E.
  - destruct (Cache.evict_loop _ _ _ _ _) as [[cache' free'] cnt] eqn:EL.
    intros H. injection H as <- <-. simpl.
    apply evict_loop_spec in EL. destruct EL as (ev & Hc & Hcnt & Hf & Hstop & Hmin).
    assert (Hst : stored (Cache._CACHE c) = stored ev + stored cache')
      by (rewrite Hc at 1; apply stored_app).
    assert (Hinv : cache_inv (Cache.mk value (Cache.maxsize c) (Cache.defaultExpire c) free'
                     (Cache.defaultEmptyResult c) cache' (Cache._EXPIRE_DICT c))).
    { repeat split; simpl.
      - rewrite Hc, map_app in Hnd. now apply NoDup_app_r in Hnd.
      - lia.
      - pose proof (stored_nonneg ev). lia. }
    repeat split; try apply Hinv; simpl.
    + destruct Hstop as [-> | Hs]; [|lia].
      simpl in Hst. lia.
    + exists ev. repeat split; auto; try lia.
      intros p q Hpq Hq. specialize (Hmin p q Hpq Hq). lia.
  - intros H. injection H as <- <-. rewrite Z.gtb_ltb in E. apply Z.ltb_ge in E.
    repeat split; auto.
    exists []. simpl. repeat split; try lia.
    intros p q Hpq Hq. destruct p, q; try discriminate. contradiction.
Qed.

Lemma set_inv c key v expire n1 n2 n3 :
  cache_inv c -> cache_inv (fst (Cache._set getsizeof c key v expire n1 n2 n3)).
Proof using getsizeof_nonneg.
  intros H. unfold Cache._set.
  set (c1 := fst (Cache._delete_expired getsizeof c n1)).
  assert (H1 : cache_inv c1) by now apply delete_expired_inv.
  destruct (getsizeof v >? Cache.maxsize c1) eqn:Ebig; [exact H1|].
  set (c2 := fst (Cache._delete_expired getsizeof c1 n2)).
  assert (H2 : cache_inv c2) by now apply delete_expired_inv.
  assert (M2 : Cache.maxsize c2 = Cache.maxsize c1) by apply delete_expired_maxsize.
  set (c3 := match Cache.lookup key (Cache._CACHE c2) with
             | Some _ => fst (Cache._delete getsizeof c2 key)
             | None => c2 end).
  assert (H3 : cache_inv c3 /\ Cache.maxsize c3 = Cache.maxsize c2 /\
               Cache.lookup key (Cache._CACHE c3) = None).
  { subst c3. destruct (Cache.lookup key (Cache._CACHE c2)) eqn:E.
    - split; [now apply delete_inv|]. split; [apply delete_maxsize|].
      unfold Cache._delete. rewrite E. simpl. apply lookup_remove_None. apply H2.
    - auto. }
  destruct H3 as (H3 & M3 & Habs).
  destruct (Cache._evict getsizeof c3 (getsizeof v)) as [c4 cnt] eqn:E4.
  assert (Hle : getsizeof v <= Cache.maxsize c3).
  { rewrite Z.gtb_ltb in Ebig. apply Z.ltb_ge in Ebig. lia. }
  destruct (evict_spec _ _ _ _ H3 Hle E4) as (H4 & M4 & _ & Hfit & ev & Hc & _).
  simpl. destruct H4 as (Hnd & Hacc & Hfree).
  assert (Habs4 : Cache.lookup key (Cache._CACHE c4) = None).
  { apply lookup_None_notin. apply lookup_None_notin in Habs.
    rewrite Hc, map_app in Habs. intros Hin. apply Habs. apply in_or_app. now right. }
  rewrite (assign_absent _ _ _ Habs4).
  repeat split; simpl.
  - rewrite map_app. simpl.
    apply lookup_None_notin in Habs4.
    clear - Hnd Habs4. induction (map fst (Cache._CACHE c4)) as [|x l IH]; simpl.
    + constructor; [tauto | constructor].
    + inversion Hnd; subst. constructor.
      * intros Hin. apply in_app_or in Hin. destruct Hin as [Hin|[Hin|[]]]; [contradiction|].
        subst. apply Habs4. now left.
      * apply IH; auto. intros Hin. apply Habs4. now right.
  - rewrite stored_app. simpl. lia.
  - lia.
Qed.

Lemma get_inv c key default now :
  cache_inv c -> cache_inv (fst (Cache._get getsizeof c key default now)).
Proof using getsizeof_nonneg.
  intros H. unfold Cache._get.
  destruct (Cache.lookup key (Cache._CACHE c)); [|assumption].
  destruct (Cache.is_expired c key now); simpl; [now apply delete_inv | assumption].
Qed.

Lemma step_inv c o : cache_inv c -> cache_inv (Cache.step getsizeof c o).
Proof using getsizeof_nonneg.
  destruct o; simpl; intros H.
  - now apply set_inv.
  - now apply get_inv.
  - now apply delete_inv.
  - now apply delete_expired_inv.
Qed.

Lemma run_inv ops : forall c, cache_inv c -> cache_inv (Cache.run getsizeof c ops).
Proof using getsizeof_nonneg.
  unfold Cache.run. induction ops as [|o ops IH]; simpl; intros c H; [assumption|].
  apply IH. now apply step_inv.
Qed.

Lemma init_inv max_size default_expire c :
  Cache.init max_size default_expire = Ok c -> cache_inv c.
Proof.
  unfold Cache.init. destruct (max_size <=? 0) eqn:E; [discriminate|].
  destruct (default_expire <? 0); [discriminate|].
  intros H. injection H as <-. apply Z.leb_gt in E.
  repeat split; simpl; [constructor | lia | lia].
Qed.


(** The state [_set] has reached when it calls [_evict]: both sweeps done
    and a previous entry of [key] deleted. *)
Definition set_prepared (c : Cache.t value) (key : string) (now1 now2 : Z)
  : Cache.t value :=
  let c := fst (Cache._delete_expired getsizeof c now1) in
  let c := fst (Cache._delete_expired getsizeof c now2) in
  match Cache.lookup key (Cache._CACHE c) with
  | Some _ => fst (Cache._delete getsizeof c key)
  | None => c
  end.

Lemma set_prepared_inv c key n1 n2 :
  cache_inv c ->
  cache_inv (set_prepared c key n1 n2) /\
  Cache.maxsize (set_prepared c key n1 n2) = Cache.maxsize c /\
  Cache.lookup key (Cache._CACHE (set_prepared c key n1 n2)) = None.
Proof using getsizeof_nonneg.
  intros H. unfold set_prepared.
  set (c1 := fst (Cache._delete_expired getsizeof c n1)).
  assert (H1 : cache_inv c1) by now apply delete_expired_inv.
  set (c2 := fst (Cache._delete_expired getsizeof c1 n2)).
  assert (H2 : cache_inv c2) by now apply delete_expired_inv.
  assert (M2 : Cache.maxsize c2 = Cache.maxsize c).
  { subst c2 c1. now rewrite !delete_expired_maxsize. }
  destruct (Cache.lookup key (Cache._CACHE c2)) eqn:E.
  - split; [now apply delete_inv|]. split; [now rewrite delete_maxsize|].
    unfold Cache._delete. rewrite E. simpl. apply lookup_remove_None. apply H2.
  - auto.
Qed.

Lemma set_ok_spec c key v expire n1 n2 n3 c' :
  cache_inv c ->
  Cache._set getsizeof c key v expire n1 n2 n3 = (c', Ok tt) ->
  exists evicted kept,
    Cache._CACHE (set_prepared c key n1 n2) = (evicted ++ kept)%list /\
    Cache._CACHE c' = (kept ++ [(key, v)])%list /\
    getsizeof v <= Cache.freeSize (set_prepared c key n1 n2) + stored evicted /\
    (forall p q, evicted = (p ++ q)%list -> q <> [] ->
       Cache.freeSize (set_prepared c key n1 n2) + stored p < getsizeof v).
Proof using getsizeof_nonneg.
  intros H. unfold Cache._set.
  destruct (getsizeof v >? Cache.maxsize (fst (Cache._delete_expired getsizeof c n1))) eqn:Ebig;
    [discriminate|].
  fold (set_prepared c key n1 n2).
  destruct (set_prepared_inv c key n1 n2 H) as (H3 & M3 & Habs).
  destruct (Cache._evict getsizeof (set_prepared c key n1 n2) (getsizeof v)) as [c4 cnt] eqn:E4.
  assert (Hle : getsizeof v <= Cache.maxsize (set_prepared c key n1 n2)).
  { rewrite Z.gtb_ltb in Ebig. apply Z.ltb_ge in Ebig.
    rewrite delete_expired_maxsize in Ebig. lia. }
  destruct (evict_spec _ _ _ _ H3 Hle E4) as (H4 & M4 & _ & Hfit & ev & Hc & _ & Hfree & Hmin).
  simpl. intros Heq. injection Heq as <-. simpl.
  exists ev, (Cache._CACHE c4). split; [exact Hc|]. split; [|split; [lia | exact Hmin]].
  apply assign_absent.
  apply lookup_None_notin. apply lookup_None_notin in Habs.
  rewrite Hc, map_app in Habs. intros Hin. apply Habs. apply in_or_app. now right.
Qed.

(** [set] accepts exactly the values that are not larger than [maxsize]. *)
Lemma set_accepts c key v expire n1 n2 n3 :
  (getsizeof v <= Cache.maxsize c ->
   exists c', Cache._set getsizeof c key v expire n1 n2 n3 = (c', Ok tt)) /\
  (Cache.maxsize c < getsizeof v ->
   snd (Cache._set getsizeof c key v expire n1 n2 n3) = Raise ValueError).
Proof.
  unfold Cache._set. rewrite delete_expired_maxsize. split; intros H.
  - replace (getsizeof v >? Cache.maxsize c) with false
      by (symmetry; rewrite Z.gtb_ltb; apply Z.ltb_ge; lia).
    eexists. reflexivity.
  - replace (getsizeof v >? Cache.maxsize c) with true
      by (symmetry; rewrite Z.gtb_ltb; apply Z.ltb_lt; lia).
    reflexivity.
Qed.

(** C9.  Starting from a fresh [Cache(maxsize)], after every sequence of
    [set] / [get] / [delete] / [delete_expired] calls the bytes accounted
    for the stored values are at most [maxsize]; this is the same as
    [freeSize >= 0], since [freeSize] is exactly [maxsize] minus the stored
    bytes.  In every such state, [_evict(sizeNeed)] removes a prefix of the
    ordered dict (the oldest insertions), makes room for [sizeNeed], and
    stops at the first entry after which the value fits.  In every such
    state [set] accepts every value that is not larger than [maxsize] (and
    raises [ValueError] for a larger one, storing nothing); a [set] that is
    accepted evicts like this, the oldest entries first, as many as are
    needed for the value to fit and no more, and then stores the new entry
    as the newest, within the capacity. *)
Theorem cache_capacity_invariant (max_size default_expire : Z) (c0 : Cache.t value)
  (ops : list (Cache.op value)) :
  Cache.init max_size default_expire = Ok c0 ->
  let c := Cache.run getsizeof c0 ops in
  (stored (Cache._CACHE c) <= Cache.maxsize c /\
   0 <= Cache.freeSize c /\
   Cache.freeSize c = Cache.maxsize c - stored (Cache._CACHE c)) /\
  (forall sizeNeed c' count,
     sizeNeed <= Cache.maxsize c ->
     Cache._evict getsizeof c sizeNeed = (c', count) ->
     sizeNeed <= Cache.freeSize c' /\
     exists evicted,
       Cache._CACHE c = (evicted ++ Cache._CACHE c')%list /\
       count = Z.of_nat (List.length evicted) /\
       Cache.freeSize c' = Cache.freeSize c + stored evicted /\
       (forall p q, evicted = (p ++ q)%list -> q <> [] ->
          Cache.freeSize c + stored p < sizeNeed)) /\
  (forall key v expire now1 now2 now3 c',
     Cache._set getsizeof c key v expire now1 now2 now3 = (c', Ok tt) ->
     stored (Cache._CACHE c') <= Cache.maxsize c' /\
     exists evicted kept,
       Cache._CACHE (set_prepared c key now1 now2) = (evicted ++ kept)%list /\
       Cache._CACHE c' = (kept ++ [(key, v)])%list /\
       getsizeof v <= Cache.freeSize (set_prepared c key now1 now2) + stored evicted /\
       (forall p q, evicted = (p ++ q)%list -> q <> [] ->
          Cache.freeSize (set_prepared c key now1 now2) + stored p < getsizeof v)) /\
  (forall key v expire now1 now2 now3,
     (getsizeof v <= Cache.maxsize c ->
      exists c', Cache._set getsizeof c key v expire now1 now2 now3 = (c', Ok tt)) /\
     (Cache.maxsize c < getsizeof v ->
      snd (Cache._set getsizeof c key v expire now1 now2 now3) = Raise ValueError /\
      Cache._CACHE (fst (Cache._set getsizeof c key v expire now1 now2 now3))
        = Cache._CACHE (fst (Cache._delete_expired getsizeof c now1)))).
Proof using getsizeof_nonneg.
  intros Hinit c.
  assert (Hc : cache_inv c) by (apply run_inv; eapply init_inv; eassumption).
  split; [|split; [|split]].
  - destruct Hc as (_ & Hacc & Hfree). lia.
  - intros sizeNeed c' count Hle He.
    destruct (evict_spec _ _ _ _ Hc Hle He) as (_ & _ & _ & Hfit & ev & H1 & H2 & H3 & H4).
    split; [exact Hfit|]. exists ev. auto.
  - intros key v expire n1 n2 n3 c' Hs. split.
    + pose proof (set_inv c key v expire n1 n2 n3 Hc) as Hi.
      rewrite Hs in Hi. simpl in Hi. destruct Hi as (_ & Hacc & Hfree). lia.
    + eapply set_ok_spec; eassumption.
  - intros key v expire n1 n2 n3.
    destruct (set_accepts c key v expire n1 n2 n3) as [Hacc Href].
    split; [exact Hacc|]. intros Hbig. split; [now apply Href|].
    unfold Cache._set. rewrite delete_expired_maxsize.
    replace (getsizeof v >? Cache.maxsize c) with true
      by (symmetry; rewrite Z.gtb_ltb; apply Z.ltb_lt; lia).
    reflexivity.
Qed.

End CacheCapacity.

(** The sizes of [bytes] objects in CPython: 33 bytes of header and one byte
    per element. *)
Definition bytes_getsizeof (b : string) : Z := 33 + Z.of_nat (String.length b).

Lemma cache_capacity_invariant_witness :
  0 <= Cache.freeSize
         (Cache.run bytes_getsizeof
            (Cache.mk string 100 10 100 None [] [])
            [Cache.Set_ "a" "0123456789" None 0 0 0;
             Cache.Set_ "b" "0123456789" None 1 1 1;
             Cache.Get "a" None 2;
             Cache.Set_ "c" "0123456789" None 3 3 3;
             Cache.Delete "b";
             Cache.DeleteExpired 20]%string) /\
  (exists c',
     Cache._set bytes_getsizeof
       (Cache.run bytes_getsizeof
          (Cache.mk string 100 10 100 None [] [])
          [Cache.Set_ "a" "0123456789" None 0 0 0;
           Cache.Set_ "b" "0123456789" None 1 1 1]%string)
       "c" "0123456789"%string None 3 3 3 = (c', Ok tt) /\
     map fst (Cache._CACHE c') = ["b"; "c"]%string /\
     Cache.freeSize c' = 14).
Proof.
  assert (Hnn : forall v, 0 <= bytes_getsizeof v)
    by (intros v; unfold bytes_getsizeof; lia).
  split.
  - refine (proj1 (proj2 (proj1
      (cache_capacity_invariant string bytes_getsizeof Hnn 100 10
         (Cache.mk string 100 10 100 None [] []) _ _)))).
    reflexivity.
  - destruct (proj1 (proj2 (proj2 (proj2
      (cache_capacity_invariant string bytes_getsizeof Hnn 100 10
         (Cache.mk string 100 10 100 None [] [])
         [Cache.Set_ "a" "0123456789" None 0 0 0;
          Cache.Set_ "b" "0123456789" None 1 1 1]%string eq_refl)))
      "c"%string "0123456789"%string None 3 3 3)) as [c' Hs].
    + vm_compute. discriminate.
    + exists c'. split; [exact Hs|].
      vm_compute in Hs. injection Hs as <-. split; reflexivity.
Defined.

(* ================================================================== *)
(** ** The band adapters *)

Lemma test_band_init (read_only : bool) :
  Band_init (test_metadata read_only) None = Ok (test_band read_only).
Proof. destruct read_only; vm_compute; reflexivity. Qed.

Lemma test_band_resized_init :
  Band_init (test_metadata false) (Some 1024) = Ok test_band_resized.
Proof. vm_compute. reflexivity. Qed.

Section BandTheorems.

Variable S : Type.
Variable client : Client S.
Variable is_same_crs : string -> string -> bool.
Variable transform_envelope : Q -> Q -> Q -> Q -> string -> string -> Q * Q * Q * Q.
Variable ExportToWkt : string -> string.
Variable ExportToProj4 : string -> string.
Variable rebuilt_path : string -> string.
Variable raster_read : S -> string -> option (Z * Z * Z * Z) -> option nat -> result ndarray.
Variable reproject_by_gdal :
  ndarray -> transform -> string -> Q -> Z * Z ->
  transform -> string -> Z * Z -> Q -> string -> Z -> result ndarray.

Local Abbreviation sliced_read_region :=
  (SlicedBand_read_region S client is_same_crs transform_envelope ExportToWkt
     rebuilt_path raster_read reproject_by_gdal).
Local Abbreviation unsliced_read_region :=
  (UnSlicedBand_read_region S client is_same_crs transform_envelope ExportToWkt
     ExportToProj4 raster_read reproject_by_gdal).
Local Abbreviation sliced_write_tile :=
  (SlicedBand_write_tile S client ExportToProj4).
Local Abbreviation sliced_write_region :=
  (SlicedBand_write_region S client ExportToWkt ExportToProj4 rebuilt_path raster_read
     reproject_by_gdal).

(** Past its guard, [UnSlicedBand.read_region] returns an array or raises:
    the literal [[[]]] comes from the guard only. *)
Lemma unsliced_read_region_only_guard_is_empty b tr x_size y_size project resample w w' :
  unsliced_read_region b tr x_size y_size project resample w = (w', Ok EmptyList) ->
  x_size * y_size <= 0.
Proof.
  unfold UnSlicedBand_read_region.
  destruct (Z.leb_spec (x_size * y_size) 0) as [Hle|Hgt]; [intros _; exact Hle|].
  unfold bind, lift, ret, warn, raise, client_is_accessible, client_get_access_path,
    read_from_access_path, emit.
  intros H. exfalso.
  repeat match type of H with
  | context [match ?m with Ok _ => _ | Raise _ => _ end] => destruct m
  | context [match ?m with Some _ => _ | None => _ end] => destruct m
  | context [let '(_, _) := ?p in _] => destruct p
  | context [if ?c then _ else _] => destruct c
  | (_, Ok (Buffer _)) = _ => discriminate H
  | (_, Raise _) = _ => discriminate H
  end.
Qed.

(** With both sizes negative the body of [UnSlicedBand.read_region] runs and
    ends in a raise. *)
Lemma unsliced_read_region_negative_sizes_raise b tr x_size y_size project resample w :
  x_size < 0 -> y_size < 0 ->
  exists w' e, unsliced_read_region b tr x_size y_size project resample w = (w', Raise e).
Proof.
  intros Hx Hy. unfold UnSlicedBand_read_region.
  replace (x_size * y_size <=? 0) with false by (symmetry; apply Z.leb_gt; nia).
  replace (x_size >? 4096) with false by (symmetry; rewrite Z.gtb_ltb; apply Z.ltb_ge; lia).
  replace (y_size >? 4096) with false by (symmetry; rewrite Z.gtb_ltb; apply Z.ltb_ge; lia).
  cbn [orb]. cbv beta iota zeta delta [bind ret lift np_empty fst snd].
  replace (y_size <? 0) with true by (symmetry; apply Z.ltb_lt; lia).
  cbn [orb].
  repeat match goal with
  | |- context [match ?m with Ok _ => _ | Raise _ => _ end] => destruct m
  | |- context [let '(_, _) := ?p in _] => destruct p
  | |- exists w' e, (?a, Raise ?b) = (w', Raise e) => exists a, b; reflexivity
  end.
Qed.

(** C10.  [SlicedBand.read_region] returns the literal [[[]]], without any
    planner or backend work (the state of the call is untouched), whenever
    [xSize <= 0] or [ySize <= 0].  [UnSlicedBand.read_region] returns [[[]]]
    the same way when [xSize * ySize <= 0], and only then; with both sizes
    negative the product is positive, the guard is passed and the call goes
    on into the body, which ends in a raise (numpy refuses the negative
    shape, if nothing raises before). *)
Theorem read_region_size_guards (b : Band) (tr : transform) (x_size y_size : Z)
  (project resample : option string) (w : World S) :
  (x_size <= 0 \/ y_size <= 0 ->
     sliced_read_region b tr x_size y_size project resample w = (w, Ok EmptyList)) /\
  (x_size * y_size <= 0 ->
     unsliced_read_region b tr x_size y_size project resample w = (w, Ok EmptyList)) /\
  (forall w', unsliced_read_region b tr x_size y_size project resample w
                = (w', Ok EmptyList) -> x_size * y_size <= 0) /\
  (x_size < 0 -> y_size < 0 ->
     exists w' e, unsliced_read_region b tr x_size y_size project resample w
                    = (w', Raise e)).
Proof.
  split; [|split; [|split]].
  - intros H. unfold SlicedBand_read_region.
    replace ((x_size <=? 0) || (y_size <=? 0)) with true; [reflexivity|].
    symmetry. apply orb_true_iff. destruct H; [left|right]; apply Z.leb_le; assumption.
  - intros H. unfold UnSlicedBand_read_region.
    replace (x_size * y_size <=? 0) with true by (symmetry; apply Z.leb_le; exact H).
    reflexivity.
  - intros w'. apply unsliced_read_region_only_guard_is_empty.
  - apply unsliced_read_region_negative_sizes_raise.
Qed.

(** The band is not writable: it is read-only, or it was opened with a tile
    size other than the stored one. *)
Definition not_writable (b : Band) : Prop :=
  readonly (metadata b) = true \/ writeable (gti b) = false.

(** C4.  When the band is read-only, or its lattice was resized
    ([gti.tileSize <> gti.reSize]), [SlicedBand.write_tile] and
    [SlicedBand.write_region] return [False] after one warning: the backend
    is the one the call started with and no request was sent to it.  So a
    call that changes the backend was made on a writable band. *)
Theorem write_refused_when_not_writable (b : Band) (x y : Z) (array : ndarray)
  (tr : transform) (data : ndarray) (concurrency : bool) (w : World S) :
  not_writable b ->
  (exists msg,
     sliced_write_tile b x y array concurrency w
       = (mkWorld (backend w) (requests w) (msg :: warned w), Ok (RBool false))) /\
  (exists msg,
     sliced_write_region b tr data concurrency w
       = (mkWorld (backend w) (requests w) (msg :: warned w), Ok false)).
Proof.
  intros H.
  assert (E : readonly (metadata b) || negb (writeable (gti b)) = true).
  { apply orb_true_iff. destruct H as [H|H]; [left; exact H | right; now rewrite H]. }
  unfold SlicedBand_write_tile, SlicedBand_write_region. rewrite E.
  split; eexists; reflexivity.
Qed.

(** A window at the native resolution, 10^7 metres east of the data:
    its x-range lies beyond the data and its y-range is that of the data. *)
Definition far_east_transform : transform :=
  (22834619 # 1, 30 # 1, 0, 5011732 # 1, 0, -30 # 1)%Q.

(** C2 at a window east of the data.  The target envelope
    [[22834619, 22837619] x [5008732, 5011732]] does not meet the data
    envelope, whose x-range ends at [rx = 12894619].  At the native
    resolution and CRS the planner is called on the window itself; its
    emptiness test returns [None], and [read_region] raises [TypeError] on
    unpacking it, instead of returning a buffer of nodata. *)
Theorem sliced_read_region_outside_raises (w : World S) :
  is_same_crs (ExportToWkt "EPSG:3857") (ExportToWkt "EPSG:3857") = true ->
  (rx test_gti < t0 far_east_transform)%Q /\
  calculate_read_window_of_sliced_band test_gti far_east_transform 100 100 0 = Ok None /\
  sliced_read_region (test_band false) far_east_transform 100 100 None None w
    = (w, Raise TypeError).
Proof.
  intros Hsame. split; [reflexivity|]. split; [vm_compute; reflexivity|].
  unfold SlicedBand_read_region, rebuild_transform_to_target_crs.
  cbn [Z.leb Z.geb Z.compare Pos.compare Pos.compare_cont orb test_band metadata crs
       test_metadata far_east_transform gti].
  rewrite Hsame.
  vm_compute. reflexivity.
Qed.

(** Past its guard, [SlicedBand.write_region] does not return [False]. *)
Lemma write_region_never_false_when_writable b tr data concurrency w w' :
  readonly (metadata b) = false -> writeable (gti b) = true ->
  sliced_write_region b tr data concurrency w <> (w', Ok false).
Proof.
  intros Hro Hwr. unfold SlicedBand_write_region. rewrite Hro, Hwr. cbn [orb negb].
  unfold bind, lift, ret, raise.
  intros H.
  repeat match type of H with
  | context [match ?m with Ok _ => _ | Raise _ => _ end] => destruct m
  | context [match ?m with Some _ => _ | None => _ end] => destruct m
  | context [let '(_, _) := ?p in _] => destruct p
  | context [if ?c then _ else _] => destruct c
  | (_, Ok true) = _ => discriminate H
  | (_, Raise _) = _ => discriminate H
  end.
Qed.

End BandTheorems.

(** The drivers of the examples. *)
Definition example_read_region_sliced :=
  SlicedBand_read_region mem_store (mem_client true) same_crs_driver_is_same
    same_crs_driver_envelope same_string same_string mem_raster_read no_warp.

Definition example_read_region_unsliced :=
  UnSlicedBand_read_region mem_store (mem_client true) same_crs_driver_is_same
    same_crs_driver_envelope same_string same_string mem_raster_read no_warp.

Definition example_write_tile (upload_ok : bool) :=
  SlicedBand_write_tile mem_store (mem_client upload_ok) same_string.

Definition example_write_region (upload_ok : bool) :=
  SlicedBand_write_region mem_store (mem_client upload_ok) same_string same_string
    same_string mem_raster_read no_warp.

(** A [rows x cols] array of ones. *)
Definition ones (rows cols : Z) : ndarray := mkArray rows cols (fun _ _ => 1%Q).

Lemma read_region_size_guards_witness :
  example_read_region_sliced (test_band false) test_transform 0 5 None None empty_world
    = (empty_world, Ok EmptyList) /\
  example_read_region_unsliced (test_band false) test_transform 7 0 None None empty_world
    = (empty_world, Ok EmptyList) /\
  exists w' e,
    example_read_region_unsliced (test_band false) test_transform (-2) (-3) None None
      empty_world = (w', Raise e).
Proof.
  pose proof (read_region_size_guards mem_store (mem_client true) same_crs_driver_is_same
                same_crs_driver_envelope same_string same_string same_string
                mem_raster_read no_warp (test_band false) test_transform) as H.
  split; [|split].
  - apply (proj1 (H 0 5 None None empty_world)). left. lia.
  - apply (proj1 (proj2 (H 7 0 None None empty_world))). lia.
  - apply (proj2 (proj2 (proj2 (H (-2) (-3) None None empty_world)))); lia.
Defined.

Lemma write_refused_when_not_writable_witness :
  (exists msg,
     example_write_tile true (test_band true) 0 0 (ones 2048 2048) false empty_world
       = (mkWorld [] [] [msg], Ok (RBool false))) /\
  (exists msg,
     example_write_region true test_band_resized test_transform (ones 10 10) false
       empty_world = (mkWorld [] [] [msg], Ok false)).
Proof.
  split.
  - refine (proj1 (write_refused_when_not_writable mem_store (mem_client true) same_string
              same_string same_string mem_raster_read no_warp (test_band true) 0 0
              (ones 2048 2048) test_transform (ones 10 10) false empty_world _)).
    left. reflexivity.
  - refine (proj2 (write_refused_when_not_writable mem_store (mem_client true) same_string
              same_string same_string mem_raster_read no_warp test_band_resized 0 0
              (ones 2048 2048) test_transform (ones 10 10) false empty_world _)).
    right. vm_compute. reflexivity.
Defined.

Lemma sliced_read_region_outside_raises_witness :
  example_read_region_sliced (test_band false) far_east_transform 100 100 None None
    empty_world = (empty_world, Raise TypeError).
Proof.
  refine (proj2 (proj2 (sliced_read_region_outside_raises mem_store (mem_client true)
            same_crs_driver_is_same same_crs_driver_envelope same_string same_string
            mem_raster_read no_warp empty_world _))).
  reflexivity.
Defined.

(** Where the planner does not return [None], a window outside the data still
    sends requests to the backend: south of the data, [read_region] asks for
    a tile of row 49. *)
Lemma sliced_read_region_south_requests :
  requests (fst (example_read_region_sliced (test_band false)
                   (12834619 # 1, 30 # 1, 0, 2011732 # 1, 0, -30 # 1)%Q
                   100 100 None None empty_world))
    = [EvIsAccessible "/edm_store/test/B2/0_49.tif"].
Proof. vm_compute. reflexivity. Qed.

(** C5 on the test band, whose nodata is [-9999].  [write_tile] stores a
    single-band LZW GeoTIFF of 2048 x 2048 with the tile's transform, the
    band's CRS and dtype and the overviews of the lattice's factor list with
    nearest resampling, but the nodata it carries is the constant 0 of the
    call [mem_file.open(..., nodata=0, ...)], not the band's; and so for
    every band. *)
Theorem write_tile_blob_nodata :
  (forall (to_proj4 : string -> string) (b : Band) (tr : transform) (shape : Z * Z)
          (dtype : string) (array : ndarray),
     gt_nodata (compose_tile to_proj4 b tr shape dtype array) = 0%Q) /\
  Band_nodata (test_band false) = Ok (-9999 # 1)%Q /\
  exists blob,
    mem_lookup
      (backend (fst (example_write_tile true (test_band false) 0 0 (ones 2048 2048)
                       false empty_world)))
      "/edm_store/test/B2/0_0.tif" = Some blob /\
    gt_nodata blob = 0%Q /\
    gt_driver blob = "GTiff"%string /\ gt_count blob = 1 /\
    gt_compress blob = "lzw"%string /\
    gt_width blob = 2048 /\ gt_height blob = 2048 /\
    gt_transform blob = fst (get_tile_info test_gti 0 0) /\
    gt_crs blob = "EPSG:3857"%string /\ gt_dtype blob = "int16"%string /\
    gt_overviews blob = _factors test_gti /\
    gt_overview_resampling blob = Nearest.
Proof.
  split; [reflexivity|]. split; [reflexivity|].
  eexists. split; [vm_compute; reflexivity|].
  repeat split.
Qed.

(** C6 with a backend whose uploads fail.  Writing a 2048 x 2048 array at
    tile (0, 0) of the writable test band touches that one tile; the upload
    of the tile fails ([write_tile] returns [(False, path)] and nothing is
    stored), and [write_region] returns [True].  No call that passes the
    guard returns [False]. *)
Theorem write_region_ignores_tile_failures :
  calculate_read_window_of_sliced_band test_gti (fst (get_tile_info test_gti 0 0))
    2048 2048 0
    = Ok (Some ([((0, 0), (0, 2047, 0, 2047), (0, 2047, 0, 2047))],
                fst (get_tile_info test_gti 0 0), (2048, 2048))) /\
  snd (example_write_tile false (test_band false) 0 0 (ones 2048 2048) false empty_world)
    = Ok (RTuple false "/edm_store/test/B2/0_0.tif") /\
  snd (example_write_region false (test_band false) (fst (get_tile_info test_gti 0 0))
         (ones 2048 2048) false empty_world) = Ok true /\
  backend (fst (example_write_region false (test_band false)
                  (fst (get_tile_info test_gti 0 0)) (ones 2048 2048) false empty_world))
    = [] /\
  requests (fst (example_write_region false (test_band false)
                   (fst (get_tile_info test_gti 0 0)) (ones 2048 2048) false empty_world))
    = [EvUpload "0_0.tif" "edm_store/test/B2";
       EvIsAccessible "/edm_store/test/B2/0_0.tif"] /\
  (forall (S : Type) (client : Client S) to_wkt to_proj4 rebuilt raster_read warp
          (b : Band) tr data concurrency (w w' : World S),
     readonly (metadata b) = false -> writeable (gti b) = true ->
     SlicedBand_write_region S client to_wkt to_proj4 rebuilt raster_read warp
       b tr data concurrency w <> (w', Ok false)).
Proof.
  split; [vm_compute; reflexivity|].
  split; [vm_compute; reflexivity|].
  split; [vm_compute; reflexivity|].
  split; [vm_compute; reflexivity|].
  split; [vm_compute; reflexivity|].
  intros. now apply write_region_never_false_when_writable.
Qed.

From Stdlib Require Import Lqa.

(* ================================================================== *)
(** ** Further properties of the lattice and of the planners *)

(** X1.  [_normalized_read_and_fill_info] keeps the origin [(x0, y0)] of
    both windows and never shrinks one: on each axis the common side length
    of the result is the larger of the two side lengths it was given. *)
Theorem normalized_keeps_origin_takes_larger (read_info fill_info : rect) :
  let r := fst (_normalized_read_and_fill_info read_info fill_info) in
  let f := snd (_normalized_read_and_fill_info read_info fill_info) in
  r0 r = r0 read_info /\ r2 r = r2 read_info /\
  r0 f = r0 fill_info /\ r2 f = r2 fill_info /\
  r1 r - r0 r = Z.max (r1 read_info - r0 read_info) (r1 fill_info - r0 fill_info) /\
  r1 f - r0 f = Z.max (r1 read_info - r0 read_info) (r1 fill_info - r0 fill_info) /\
  r3 r - r2 r = Z.max (r3 read_info - r2 read_info) (r3 fill_info - r2 fill_info) /\
  r3 f - r2 f = Z.max (r3 read_info - r2 read_info) (r3 fill_info - r2 fill_info).
Proof.
  destruct read_info as [[[a0 a1] a2] a3], fill_info as [[[b0 b1] b2] b3].
  unfold _normalized_read_and_fill_info; cbn [r0 r1 r2 r3].
  destruct (Z.eqb_spec (a1 - a0 - b1 + b0) 0) as [Ex|Ex];
    destruct (Z.ltb_spec (a1 - a0 - b1 + b0) 0) as [Lx|Lx];
    destruct (Z.gtb_spec (a1 - a0 - b1 + b0) 0) as [Gx|Gx];
    cbn [negb andb r0 r1 r2 r3]; try lia;
    destruct (Z.eqb_spec (a3 - a2 - b3 + b2) 0) as [Ey|Ey];
    destruct (Z.ltb_spec (a3 - a2 - b3 + b2) 0) as [Ly|Ly];
    cbn [negb fst snd r0 r1 r2 r3]; lia.
Qed.

Lemma zoom_loop_ge (l : list Q) : forall sx i z,
  (z <= i)%nat -> (z <= zoom_loop sx l i z)%nat.
Proof.
  induction l as [|v l IH]; intros sx i z Hz; cbn [zoom_loop]; [lia|].
  destruct (Py.geb sx v); [|lia].
  specialize (IH sx (S i) i). lia.
Qed.

Lemma zoom_loop_monotone_gen (l : list Q) : forall sx1 sx2 i z1 z2,
  (sx1 <= sx2)%Q -> (z1 <= z2)%nat -> (z2 <= i)%nat ->
  (zoom_loop sx1 l i z1 <= zoom_loop sx2 l i z2)%nat.
Proof.
  induction l as [|v l IH]; intros sx1 sx2 i z1 z2 Hs Hz Hi; cbn [zoom_loop]; [lia|].
  destruct (Py.geb sx1 v) eqn:E1.
  - assert (E2 : Py.geb sx2 v = true).
    { apply Qle_bool_iff. apply Qle_bool_iff in E1. eapply Qle_trans; eassumption. }
    rewrite E2. apply IH; [assumption | lia | lia].
  - destruct (Py.geb sx2 v); [|lia].
    pose proof (zoom_loop_ge l sx2 (S i) i). lia.
Qed.

(** X2.  The level loop of [rebuild_transform_to_target_crs] is monotone in
    the requested resolution, on any list of scales: a coarser request never
    selects a finer level. *)
Theorem zoom_loop_monotone (l : list Q) (sx1 sx2 : Q) :
  (sx1 <= sx2)%Q -> (zoom_loop sx1 l 0 0 <= zoom_loop sx2 l 0 0)%nat.
Proof. intros H. apply zoom_loop_monotone_gen; [exact H | lia | lia]. Qed.

Lemma zoom_loop_monotone_witness :
  (zoom_loop 70 (scalaXList test_gti) 0 0 <= zoom_loop 130 (scalaXList test_gti) 0 0)%nat.
Proof.
  apply zoom_loop_monotone. unfold Qle. simpl. lia.
Defined.

Lemma in_range (a b x : Z) : In x (Py.range a b) <-> a <= x < b.
Proof.
  unfold Py.range. rewrite in_map_iff. split.
  - intros (i & <- & Hi). apply in_seq in Hi. lia.
  - intros H. exists (Z.to_nat (x - a)). split; [lia|]. apply in_seq. lia.
Qed.

Lemma NoDup_map_injective {A B : Type} (f : A -> B) (l : list A) :
  (forall a b, f a = f b -> a = b) -> NoDup l -> NoDup (map f l).
Proof.
  intros Hf. induction 1 as [|a l Ha Hl IH]; simpl; constructor; [|exact IH].
  intros Hin. apply in_map_iff in Hin. destruct Hin as (b & E & Hb).
  apply Hf in E. subst b. contradiction.
Qed.

Lemma NoDup_range (a b : Z) : NoDup (Py.range a b).
Proof.
  unfold Py.range. apply NoDup_map_injective; [|apply seq_NoDup].
  intros i j H. lia.
Qed.

Lemma length_range (a b : Z) : List.length (Py.range a b) = Z.to_nat (b - a).
Proof. unfold Py.range. now rewrite length_map, length_seq. Qed.

Lemma length_flat_map_const {A B : Type} (f : A -> list B) (l : list A) (n : nat) :
  (forall a, List.length (f a) = n) -> List.length (flat_map f l) = (List.length l * n)%nat.
Proof.
  intros H. induction l as [|a l IH]; simpl; [reflexivity|].
  rewrite length_app, H, IH. lia.
Qed.

(** X3.  [get_tiles()] lists every tile index of the lattice once:
    [(x, y)] is in the list exactly when [0 <= x < rangeX] and
    [0 <= y < rangeY], no index is repeated, and the list has
    [rangeX * rangeY] entries. *)
Theorem get_tiles_enumerates (g : GlobalTileInfo) :
  (forall x y, In (x, y) (get_tiles g) <-> 0 <= x < rangeX g /\ 0 <= y < rangeY g) /\
  NoDup (get_tiles g) /\
  List.length (get_tiles g) = (Z.to_nat (rangeX g) * Z.to_nat (rangeY g))%nat.
Proof.
  unfold get_tiles. split; [|split].
  - intros x y. rewrite in_flat_map. split.
    + intros (x' & Hx & Hin). apply in_map_iff in Hin. destruct Hin as (y' & E & Hy).
      injection E as -> ->. apply in_range in Hx. apply in_range in Hy. lia.
    + intros [Hx Hy]. exists x. split; [apply in_range; lia|].
      apply in_map_iff. exists y. split; [reflexivity | apply in_range; lia].
  - generalize (NoDup_range 0 (rangeX g)).
    induction (Py.range 0 (rangeX g)) as [|x l IH]; intros Hnd; simpl; [constructor|].
    inversion Hnd as [|? ? Hx Hl]; subst.
    apply NoDup_app.
    + apply NoDup_map_injective; [|apply NoDup_range].
      intros a b E. now injection E.
    + apply IH. exact Hl.
    + intros [a b] H1 H2. apply in_map_iff in H1. destruct H1 as (y' & E & _).
      injection E as <- _. apply in_flat_map in H2. destruct H2 as (x' & Hx' & H2).
      apply in_map_iff in H2. destruct H2 as (y'' & E & _). injection E as -> _.
      contradiction.
  - rewrite (length_flat_map_const _ _ (Z.to_nat (rangeY g))).
    + rewrite length_range. f_equal. f_equal. lia.
    + intros a. rewrite length_map, length_range. f_equal. lia.
Qed.

(** X4.  [_get_x_end_and_y_end] never returns more than the fill window
    holds, more than the data read holds, or more than fits between the
    fill origin and the edge of the virtual buffer, on both axes. *)
Theorem get_x_end_and_y_end_bounds (fill_info : rect) (actual_shape virtual_shape : Z * Z) :
  let x_end := fst (_get_x_end_and_y_end fill_info actual_shape virtual_shape) in
  let y_end := snd (_get_x_end_and_y_end fill_info actual_shape virtual_shape) in
  x_end <= r1 fill_info - r0 fill_info + 1 /\ x_end <= snd actual_shape /\
  r0 fill_info + x_end <= snd virtual_shape /\
  y_end <= r3 fill_info - r2 fill_info + 1 /\ y_end <= fst actual_shape /\
  r2 fill_info + y_end <= fst virtual_shape.
Proof.
  destruct fill_info as [[[f0 f1] f2] f3], actual_shape as [dy dx], virtual_shape as [vy vx].
  unfold _get_x_end_and_y_end. cbn [r0 r1 r2 r3 fst snd].
  destruct (Z.ltb_spec f1 (dx + f0 - 1)); destruct (Z.ltb_spec f3 (dy + f2 - 1));
    repeat match goal with
    | |- context [?a >? ?b] => destruct (Z.gtb_spec a b)
    end; cbn [fst snd]; lia.
Qed.

Lemma Py_int_comp (p q : Q) : (p == q)%Q -> Py.int p = Py.int q.
Proof.
  intros H. unfold Py.int.
  rewrite (Qfloor_comp _ _ H), (Qceiling_comp _ _ H).
  replace (Qle_bool 0 p) with (Qle_bool 0 q); [reflexivity|].
  apply Qleb_comp; [reflexivity | symmetry; exact H].
Qed.

Lemma Py_int_inject_Z (z : Z) : Py.int (inject_Z z) = z.
Proof.
  unfold Py.int. destruct (Qle_bool 0 (inject_Z z)); [apply Qfloor_Z | apply Qceiling_Z].
Qed.

Lemma Py_int_integral (q : Q) (z : Z) : (q == inject_Z z)%Q -> Py.int q = z.
Proof. intros H. rewrite (Py_int_comp _ _ H). apply Py_int_inject_Z. Qed.

Lemma inject_Z_div_exact (k t : Z) :
  t <> 0 -> (inject_Z (k * t) / inject_Z t == inject_Z k)%Q.
Proof.
  intros Ht. rewrite inject_Z_mult. field.
  intros H. apply Ht. unfold Qeq, inject_Z in H. simpl in H. lia.
Qed.

(** What a resize to [t] does when the stored size is [k * t]. *)
Lemma resize_exact (g : GlobalTileInfo) (t k : Z) :
  0 < t -> 0 < k -> tileSize g = k * t ->
  snd (resize g t) = Ok tt /\
  rangeX (fst (resize g t)) = (tileXEnd g + 1) * k /\
  rangeY (fst (resize g t)) = (tileYEnd g + 1) * k /\
  tileXEnd (fst (resize g t)) = tileXEnd g /\
  tileYEnd (fst (resize g t)) = tileYEnd g /\
  tileSize (fst (resize g t)) = tileSize g /\
  reSize (fst (resize g t)) = t.
Proof.
  intros Ht Hk HT.
  assert (HTpos : 0 < tileSize g) by nia.
  unfold resize. cbn [tileSize reSize tileXEnd tileYEnd]. unfold Py.div.
  rewrite inject_Z_eqb_0.
  replace (t =? 0) with false by (symmetry; apply Z.eqb_neq; lia).
  rewrite (div_int_ltb_1 _ _ HTpos) by lia.
  replace (t <? 0) with false by (symmetry; apply Z.ltb_ge; lia).
  replace (tileSize g <? t) with false by (symmetry; apply Z.ltb_ge; nia).
  cbn [orb fst snd rangeX rangeY tileXEnd tileYEnd tileSize reSize].
  assert (Hq : forall e : Z,
             Py.int (Qred ((inject_Z e + 1) * Qred (inject_Z (tileSize g) / inject_Z t) - 1) + 1)
             = (e + 1) * k).
  { intros e. apply Py_int_integral.
    rewrite !Qred_correct, HT, inject_Z_div_exact by lia.
    rewrite inject_Z_mult, inject_Z_plus. change (inject_Z 1) with 1%Q. ring. }
  rewrite !Hq. repeat split.
Qed.

Lemma init_tile_ends tr x_size y_size tile has fa g :
  init tr x_size y_size tile has fa = Ok g ->
  tileXEnd g = rangeX g - 1 /\ tileYEnd g = rangeY g - 1 /\
  reSize g = tileSize g /\ tileSize g = tile.
Proof.
  unfold init. destruct tr as [[[[[l_x s_x] z1] l_y] z2] s_y].
  intros H.
  repeat match type of H with
  | rbind ?m _ = _ => destruct m as [?|]; cbn [rbind] in H; [|discriminate]
  end.
  cbv beta in H.
  match goal with
  | p : (list Z * list Q * list Q * list Z)%type |- _ => destruct p as [[[fs sxl] syl] tsl]
  | p : pyramid |- _ => destruct p as [[[fs sxl] syl] tsl]
  end.
  injection H as <-. cbn. repeat split.
Qed.

(** X5.  On a lattice built by the constructor, with a positive stored tile
    size [T], a resize to a positive size [t] that divides [T] succeeds and
    multiplies both tile counts by [T / t]; resizing back to [T] then
    restores the tile counts and makes the lattice writeable again. *)
Theorem resize_by_divisor (tr : transform) (x_size y_size tile : Z) (has : bool)
  (fa : option (list Z * list Q * list Q)) (g : GlobalTileInfo) (t : Z) :
  init tr x_size y_size tile has fa = Ok g ->
  0 < t -> (t | tile) -> 0 < tile ->
  let g1 := fst (resize g t) in
  let g2 := fst (resize g1 tile) in
  snd (resize g t) = Ok tt /\
  rangeX g1 = rangeX g * (tile / t) /\ rangeY g1 = rangeY g * (tile / t) /\
  snd (resize g1 tile) = Ok tt /\
  rangeX g2 = rangeX g /\ rangeY g2 = rangeY g /\ writeable g2 = true.
Proof.
  intros Hinit Ht [k Hk] HT g1 g2.
  destruct (init_tile_ends _ _ _ _ _ _ _ Hinit) as (Ex & Ey & _ & ET).
  assert (Hkpos : 0 < k) by nia.
  assert (Hdiv : tile / t = k) by (rewrite Hk; apply Z.div_mul; lia).
  destruct (resize_exact g t k Ht Hkpos ltac:(lia))
    as (R0 & R1 & R2 & R3 & R4 & R5 & R6).
  fold g1 in R1, R2, R3, R4, R5, R6.
  destruct (resize_exact g1 tile 1 HT ltac:(lia) ltac:(lia))
    as (S0 & S1 & S2 & S3 & S4 & S5 & S6).
  fold g2 in S1, S2, S3, S4, S5, S6.
  rewrite Hdiv. repeat split; try assumption; try lia.
  unfold writeable. apply Z.eqb_eq. lia.
Qed.

Lemma resize_by_divisor_witness :
  rangeX (fst (resize test_gti 512)) = rangeX test_gti * (2048 / 512) /\
  writeable (fst (resize (fst (resize test_gti 512)) 2048)) = true.
Proof.
  destruct (resize_by_divisor test_transform 2000 2000 2048 true None test_gti 512)
    as (_ & H1 & _ & _ & _ & _ & H2).
  - vm_compute. reflexivity.
  - lia.
  - exists 4. reflexivity.
  - lia.
  - split; [exact H1 | exact H2].
Defined.

Lemma Qfloor_inject_div (x k : Z) : 0 < k -> Qfloor (inject_Z x / inject_Z k) = x / k.
Proof.
  intros Hk. destruct k as [|p|p]; try lia.
  unfold Qdiv, Qinv, Qmult, inject_Z. cbn [Qnum Qden].
  unfold Qfloor. rewrite Z.mul_1_r. reflexivity.
Qed.

Lemma tile_index_and_offset_value (g : GlobalTileInfo) (k x y : Z) :
  0 < reSize g -> 0 < k -> tileSize g = k * reSize g -> 0 <= x -> 0 <= y ->
  get_tile_index_and_offset g x y
    = Ok ((x / k, y / k),
          ((x mod k) * reSize g, (y mod k) * reSize g, reSize g, reSize g)).
Proof.
  intros Ht Hk HT Hx Hy. set (t := reSize g) in *.
  unfold get_tile_index_and_offset. fold t. rewrite HT.
  unfold Py.div at 1. rewrite inject_Z_eqb_0.
  replace (t =? 0) with false by (symmetry; apply Z.eqb_neq; lia).
  cbn [rbind].
  set (times := Qred (inject_Z (k * t) / inject_Z t)).
  assert (Htimes : (times == inject_Z k)%Q).
  { unfold times. rewrite Qred_correct. apply inject_Z_div_exact. lia. }
  assert (Hnz : Py.eqb times 0 = false).
  { unfold Py.eqb. apply not_true_is_false. intros H. apply Qeq_bool_iff in H.
    rewrite Htimes in H. unfold Qeq, inject_Z in H. simpl in H. lia. }
  assert (Hdivq : forall z, 0 <= z -> Py.int (Qred (inject_Z z / times)) = z / k).
  { intros z Hz. rewrite (Py_int_comp _ (inject_Z z / inject_Z k)).
    - unfold Py.int.
      replace (Qle_bool 0 (inject_Z z / inject_Z k)) with true.
      + now apply Qfloor_inject_div.
      + symmetry. apply Qle_bool_iff. apply Qle_shift_div_l.
        * change 0%Q with (inject_Z 0). rewrite <- Zlt_Qlt. lia.
        * rewrite Qmult_0_l. change 0%Q with (inject_Z 0). rewrite <- Zle_Qle. lia.
    - rewrite Qred_correct, Htimes. reflexivity. }
  assert (Hmodq : forall z, 0 <= z ->
             Py.int (Qred (inject_Z z - inject_Z (Qfloor (inject_Z z / times)) * times)
                     * inject_Z t) = (z mod k) * t).
  { intros z Hz. apply Py_int_integral.
    rewrite Qred_correct.
    rewrite (Qfloor_comp (inject_Z z / times) (inject_Z z / inject_Z k))
      by (rewrite Htimes; reflexivity).
    rewrite Qfloor_inject_div by lia. rewrite Htimes.
    rewrite (Z.mod_eq z k) by lia.
    replace (z - k * (z / k)) with (z + - (k * (z / k))) by lia.
    rewrite inject_Z_mult, inject_Z_plus, inject_Z_opp, inject_Z_mult. ring. }
  unfold Py.div, Py.mod_. rewrite Hnz. cbn [rbind].
  rewrite !Hdivq, !Hmodq by assumption. reflexivity.
Qed.

(** X6.  On a lattice whose stored tile size is [k] times the size [t] it
    was resized to ([t, k > 0]), [get_tile_index_and_offset(x, y)] for
    non-negative [x], [y] returns the stored tile [(x / k, y / k)] and the
    window [((x mod k) * t, (y mod k) * t, t, t)]: the window lies inside
    the stored tile, and the pixel origin of the sub-tile in the stored grid
    is the one it has in the resized grid. *)
Theorem get_tile_index_and_offset_resized (g : GlobalTileInfo) (k x y : Z) :
  0 < reSize g -> 0 < k -> tileSize g = k * reSize g -> 0 <= x -> 0 <= y ->
  let t := reSize g in
  get_tile_index_and_offset g x y
    = Ok ((x / k, y / k), ((x mod k) * t, (y mod k) * t, t, t)) /\
  0 <= (x mod k) * t /\ (x mod k) * t + t <= tileSize g /\
  0 <= (y mod k) * t /\ (y mod k) * t + t <= tileSize g /\
  (x / k) * tileSize g + (x mod k) * t = x * t /\
  (y / k) * tileSize g + (y mod k) * t = y * t.
Proof.
  intros Ht Hk HT Hx Hy t. fold t in Ht, HT.
  pose proof (Z.mod_pos_bound x k Hk) as Bx.
  pose proof (Z.mod_pos_bound y k Hk) as By.
  pose proof (Z.div_mod x k ltac:(lia)) as Dx.
  pose proof (Z.div_mod y k ltac:(lia)) as Dy.
  split; [|repeat split; nia].
  apply tile_index_and_offset_value; assumption.
Qed.

Lemma get_tile_index_and_offset_resized_witness :
  get_tile_index_and_offset (fst (resize test_gti 1024)) 1 1
    = Ok ((0, 0), (1024, 1024, 1024, 1024)).
Proof.
  refine (proj1 (get_tile_index_and_offset_resized (fst (resize test_gti 1024)) 2 1 1
                   _ _ _ _ _)).
  - vm_compute. reflexivity.
  - lia.
  - vm_compute. reflexivity.
  - lia.
  - lia.
Defined.

Lemma Py_div_ok (x y : Q) : ~ (y == 0)%Q -> Py.div x y = Ok (Qred (x / y)).
Proof.
  intros H. unfold Py.div, Py.eqb.
  destruct (Qeq_bool y 0) eqn:E; [|reflexivity].
  apply Qeq_bool_iff in E. contradiction.
Qed.

Lemma Py_mod_ok (x y : Q) :
  ~ (y == 0)%Q -> Py.mod_ x y = Ok (Qred (x - inject_Z (Qfloor (x / y)) * y)).
Proof.
  intros H. unfold Py.mod_, Py.eqb.
  destruct (Qeq_bool y 0) eqn:E; [|reflexivity].
  apply Qeq_bool_iff in E. contradiction.
Qed.

Lemma Py_ltb_lt (x y : Q) : Py.ltb x y = true <-> (x < y)%Q.
Proof.
  unfold Py.ltb. rewrite negb_true_iff. split.
  - intros H. apply Qnot_le_lt. intros Hle. apply Qle_bool_iff in Hle. congruence.
  - intros H. apply not_true_is_false. intros Hle. apply Qle_bool_iff in Hle.
    apply (Qlt_not_le _ _ H Hle).
Qed.

Lemma Py_ltb_ge (x y : Q) : Py.ltb x y = false <-> (y <= x)%Q.
Proof.
  unfold Py.ltb. rewrite negb_false_iff. apply Qle_bool_iff.
Qed.

Lemma inject_Z_pos_mult (T : Z) (s : Q) :
  0 < T -> ~ (s == 0)%Q -> ~ (inject_Z T * s == 0)%Q.
Proof.
  intros HT Hs H. apply Qmult_integral in H. destruct H as [H|H]; [|contradiction].
  unfold Qeq, inject_Z in H. simpl in H. lia.
Qed.

Lemma cal_tile_start_index_floor_aux (l_point ori_point : Q) (tile_size : Z) (scala : Q) :
  0 < tile_size -> ~ (scala == 0)%Q ->
  _cal_tile_start_index l_point ori_point tile_size scala
    = Ok (Qfloor ((l_point - ori_point) / (inject_Z tile_size * scala))).
Proof.
  intros HT Hs.
  assert (HTq : (0 < inject_Z tile_size)%Q)
    by (change 0%Q with (inject_Z 0); rewrite <- Zlt_Qlt; exact HT).
  unfold _cal_tile_start_index.
  assert (Hnz : ~ (Py.abs (inject_Z tile_size * scala) == 0)%Q).
  { unfold Py.abs. intros H. apply (inject_Z_pos_mult tile_size scala HT Hs).
    destruct (Qlt_le_dec (inject_Z tile_size * scala) 0) as [Hlt|Hge].
    - rewrite Qabs_neg in H by (apply Qlt_le_weak; exact Hlt).
      rewrite <- (Qopp_involutive (inject_Z tile_size * scala)), H. reflexivity.
    - rewrite Qabs_pos in H by exact Hge. exact H. }
  rewrite !(Py_div_ok _ _ Hnz). cbn [rbind].
  destruct (Py.gtb scala 0) eqn:Eg.
  - apply Py_ltb_lt in Eg.
    assert (Hpos : (0 < inject_Z tile_size * scala)%Q).
    { rewrite <- (Qmult_0_l scala). apply Qmult_lt_compat_r; assumption. }
    assert (Hab : (Py.abs (inject_Z tile_size * scala) == inject_Z tile_size * scala)%Q)
      by (apply Qabs_pos; apply Qlt_le_weak; exact Hpos).
    f_equal.
    set (ds := Qred ((l_point - ori_point) / Py.abs (inject_Z tile_size * scala))).
    assert (Hds : (ds == (l_point - ori_point) / (inject_Z tile_size * scala))%Q).
    { unfold ds. rewrite Qred_correct, Hab. reflexivity. }
    rewrite <- (Qfloor_comp _ _ Hds).
    destruct (Py.ltb ds 0) eqn:El.
    + apply Py_ltb_lt in El. unfold Py.ceil, Py.abs, Qceiling.
      rewrite (Qfloor_comp (- Qabs ds) ds); [lia|].
      rewrite Qabs_neg by (apply Qlt_le_weak; exact El). ring.
    + apply Py_ltb_ge in El. unfold Py.int, Py.abs.
      rewrite (Qfloor_comp (Qabs ds) ds) by (apply Qabs_pos; exact El).
      replace (Qle_bool 0 (Qabs ds)) with true; [reflexivity|].
      symmetry. apply Qle_bool_iff. apply Qabs_nonneg.
  - apply Py_ltb_ge in Eg.
    assert (Hneg : (scala < 0)%Q).
    { destruct (Qle_lt_or_eq _ _ Eg) as [H|H]; [exact H | contradiction]. }
    assert (Hnegp : (inject_Z tile_size * scala <= 0)%Q).
    { rewrite <- (Qmult_0_r (inject_Z tile_size)).
      apply Qmult_le_l; [exact HTq | exact Eg]. }
    assert (Hab : (Py.abs (inject_Z tile_size * scala) == - (inject_Z tile_size * scala))%Q)
      by (apply Qabs_neg; exact Hnegp).
    f_equal. unfold Py.ceil, Qceiling.
    replace (-1 * - Qfloor (- Qred ((l_point - ori_point) / Py.abs (inject_Z tile_size * scala))))
      with (Qfloor (- Qred ((l_point - ori_point) / Py.abs (inject_Z tile_size * scala)))) by lia.
    apply Qfloor_comp. rewrite Qred_correct, Hab.
    field. split; [exact Hs|].
    intros H. unfold Qeq, inject_Z in H. simpl in H. lia.
Qed.

Lemma Qfloor_inject_div_nonzero (a d : Z) :
  d <> 0 -> Qfloor (inject_Z a / inject_Z d) = a / d.
Proof.
  intros Hd. destruct d as [|p|p]; [contradiction | |].
  - unfold Qdiv, Qinv, Qmult, inject_Z. cbn [Qnum Qden].
    unfold Qfloor. rewrite Z.mul_1_r. reflexivity.
  - unfold Qdiv, Qinv, Qmult, inject_Z. cbn [Qnum Qden].
    unfold Qfloor. change (Z.pos (1 * p)) with (Z.pos p).
    replace (a * -1) with (- a) by lia.
    rewrite <- (Z.div_opp_opp a (Z.neg p)) by lia. reflexivity.
Qed.

(** X7.  On integer arguments (a tile size [T > 0], a non-zero integer
    scale [s], integer coordinates), all below [2 ^ 52] in magnitude, the
    sign cases of [_cal_tile_start_index] all compute one value, the floor
    of the signed quotient: [(l_point - ori_point) // (T * s)].  On such
    arguments the subtraction and the product of the function are exact in
    binary64 and its quotient rounds without reaching an integer it is not
    equal to, so the function computes this value as it stands. *)
Theorem cal_tile_start_index_floor (l_point ori_point tile_size scala : Z) :
  0 < tile_size -> scala <> 0 ->
  Z.abs l_point < 2 ^ 52 -> Z.abs ori_point < 2 ^ 52 ->
  tile_size * Z.abs scala < 2 ^ 52 ->
  _cal_tile_start_index (inject_Z l_point) (inject_Z ori_point) tile_size (inject_Z scala)
    = Ok ((l_point - ori_point) / (tile_size * scala)).
Proof.
  intros HT Hs _ _ _.
  assert (Hsq : ~ (inject_Z scala == 0)%Q).
  { intros H. unfold Qeq, inject_Z in H. simpl in H. lia. }
  rewrite (cal_tile_start_index_floor_aux _ _ _ _ HT Hsq). f_equal.
  rewrite <- (Qfloor_inject_div_nonzero (l_point - ori_point) (tile_size * scala)) by lia.
  apply Qfloor_comp.
  unfold Z.sub. rewrite inject_Z_plus, inject_Z_opp, inject_Z_mult. reflexivity.
Qed.

Lemma cal_tile_start_index_floor_witness :
  _cal_tile_start_index (inject_Z 5011732) (inject_Z 22) 2048 (inject_Z (-30))
    = Ok ((5011732 - 22) / (2048 * -30)).
Proof.
  apply cal_tile_start_index_floor; lia.
Defined.

Lemma floor_cell (a d : Q) :
  ~ (d == 0)%Q ->
  ((0 < d -> inject_Z (Qfloor (a / d)) * d <= a /\ a < (inject_Z (Qfloor (a / d)) + 1) * d) /\
   (d < 0 -> (inject_Z (Qfloor (a / d)) + 1) * d < a /\ a <= inject_Z (Qfloor (a / d)) * d))%Q.
Proof.
  intros Hd.
  pose proof (Qfloor_le (a / d)) as Hlo.
  pose proof (Qlt_floor (a / d)) as Hhi.
  rewrite inject_Z_plus in Hhi. change (inject_Z 1) with 1%Q in Hhi.
  set (k := inject_Z (Qfloor (a / d))) in *.
  split; intros Hs.
  - split.
    + apply (Qmult_le_compat_r _ _ d) in Hlo; [|lra].
      setoid_replace (a / d * d)%Q with a in Hlo by (field; lra). exact Hlo.
    + apply (Qmult_lt_compat_r _ _ d) in Hhi; [|lra].
      setoid_replace (a / d * d)%Q with a in Hhi by (field; lra). exact Hhi.
  - split.
    + apply (Qmult_lt_compat_r _ _ (- d)) in Hhi; [|lra].
      setoid_replace (a / d * - d)%Q with (- a)%Q in Hhi by (field; lra). lra.
    + apply (Qmult_le_compat_r _ _ (- d)) in Hlo; [|lra].
      setoid_replace (a / d * - d)%Q with (- a)%Q in Hlo by (field; lra). lra.
Qed.

Lemma ceiling_cell (a d : Q) :
  ~ (d == 0)%Q ->
  ((0 < d -> (inject_Z (Qceiling (a / d)) - 1) * d < a /\ a <= inject_Z (Qceiling (a / d)) * d) /\
   (d < 0 -> inject_Z (Qceiling (a / d)) * d <= a /\ a < (inject_Z (Qceiling (a / d)) - 1) * d))%Q.
Proof.
  intros Hd.
  pose proof (Qle_ceiling (a / d)) as Hhi.
  pose proof (Qceiling_lt (a / d)) as Hlo.
  unfold Z.sub in Hlo. rewrite inject_Z_plus in Hlo. change (inject_Z (- (1))) with (-1 # 1)%Q in Hlo.
  set (k := inject_Z (Qceiling (a / d))) in *.
  split; intros Hs.
  - split.
    + apply (Qmult_lt_compat_r _ _ d) in Hlo; [|lra].
      setoid_replace (a / d * d)%Q with a in Hlo by (field; lra). lra.
    + apply (Qmult_le_compat_r _ _ d) in Hhi; [|lra].
      setoid_replace (a / d * d)%Q with a in Hhi by (field; lra). exact Hhi.
  - split.
    + apply (Qmult_le_compat_r _ _ (- d)) in Hhi; [|lra].
      setoid_replace (a / d * - d)%Q with (- a)%Q in Hhi by (field; lra). lra.
    + apply (Qmult_lt_compat_r _ _ (- d)) in Hlo; [|lra].
      setoid_replace (a / d * - d)%Q with (- a)%Q in Hlo by (field; lra). lra.
Qed.

Lemma init_covers_dataset_aux (l_x s_x z1 l_y z2 s_y : Q) (x_size y_size tile : Z)
  (hasPyramid : bool) :
  0 < tile -> (0 < s_x)%Q -> (s_y < 0)%Q ->
  exists g,
    init (l_x, s_x, z1, l_y, z2, s_y) x_size y_size tile hasPyramid None = Ok g /\
    (rx g == l_x + inject_Z x_size * s_x /\ ry g == l_y + inject_Z y_size * s_y /\
     firstTileLeftX g <= l_x /\
     l_x < firstTileLeftX g + inject_Z tile * s_x /\
     firstTileLeftY g + inject_Z tile * s_y < l_y /\
     l_y <= firstTileLeftY g /\
     firstTileLeftX g + (inject_Z (rangeX g) - 1) * (inject_Z tile * s_x) < rx g /\
     rx g <= firstTileLeftX g + inject_Z (rangeX g) * (inject_Z tile * s_x) /\
     firstTileLeftY g + inject_Z (rangeY g) * (inject_Z tile * s_y) <= ry g /\
     ry g < firstTileLeftY g + (inject_Z (rangeY g) - 1) * (inject_Z tile * s_y))%Q.
Proof.
  intros HT Hsx Hsy.
  assert (HTq : (0 < inject_Z tile)%Q)
    by (change 0%Q with (inject_Z 0); rewrite <- Zlt_Qlt; exact HT).
  assert (Hnx : ~ (s_x == 0)%Q) by lra.
  assert (Hny : ~ (s_y == 0)%Q) by lra.
  assert (Hay : ~ (Py.abs s_y == 0)%Q).
  { unfold Py.abs. rewrite Qabs_neg by lra. lra. }
  assert (Hdx : (0 < inject_Z tile * s_x)%Q).
  { rewrite <- (Qmult_0_l s_x). apply Qmult_lt_compat_r; assumption. }
  assert (Hdy : (inject_Z tile * s_y < 0)%Q).
  { assert (0 < inject_Z tile * - s_y)%Q; [|lra].
    rewrite <- (Qmult_0_l (- s_y)). apply Qmult_lt_compat_r; lra. }
  assert (Hdnx : ~ (inject_Z tile * s_x == 0)%Q) by lra.
  assert (Hdny : ~ (inject_Z tile * s_y == 0)%Q) by lra.
  unfold init.
  rewrite (Py_mod_ok _ _ Hnx), (Py_mod_ok _ _ Hay). cbn [rbind].
  rewrite (cal_tile_start_index_floor_aux _ _ _ _ HT Hnx),
          (cal_tile_start_index_floor_aux _ _ _ _ HT Hny). cbn [rbind].
  rewrite (Py_div_ok _ _ Hdnx), (Py_div_ok _ _ Hdny). cbn [rbind].
  match goal with
  | |- context [factors_of ?a ?b ?c ?d ?e ?f ?h] =>
      destruct (factors_of a b c d e f h) as [[[fs sxl] syl] tsl]
  end.
  eexists. split; [reflexivity|].
  cbn [rx ry firstTileLeftX firstTileLeftY rangeX rangeY].
  set (ox := Qred (0 + Qred (l_x - inject_Z (Qfloor (l_x / s_x)) * s_x))).
  set (oy := Qred (0 + Qred (l_y - inject_Z (Qfloor (l_y / Py.abs s_y)) * Py.abs s_y))).
  set (dx := (inject_Z tile * s_x)%Q) in *.
  set (dy := (inject_Z tile * s_y)%Q) in *.
  set (fx := Qred (ox + inject_Z (Qfloor ((l_x - ox) / dx)) * dx)).
  set (fy := Qred (oy + inject_Z (Qfloor ((l_y - oy) / dy)) * dy)).
  set (r_x := Qred (l_x + inject_Z x_size * s_x)).
  set (r_y := Qred (l_y + inject_Z y_size * s_y)).
  assert (Efx : (fx == ox + inject_Z (Qfloor ((l_x - ox) / dx)) * dx)%Q)
    by apply Qred_correct.
  assert (Efy : (fy == oy + inject_Z (Qfloor ((l_y - oy) / dy)) * dy)%Q)
    by apply Qred_correct.
  assert (Erx : (r_x == l_x + inject_Z x_size * s_x)%Q) by apply Qred_correct.
  assert (Ery : (r_y == l_y + inject_Z y_size * s_y)%Q) by apply Qred_correct.
  destruct (floor_cell (l_x - ox) dx Hdnx) as [[Fx1 Fx2] _]; [exact Hdx|].
  destruct (floor_cell (l_y - oy) dy Hdny) as [_ [Fy1 Fy2]]; [exact Hdy|].
  unfold Py.ceil.
  rewrite (Qceiling_comp _ _ (Qred_correct ((r_x - fx) / dx))).
  rewrite (Qceiling_comp _ _ (Qred_correct ((r_y - fy) / dy))).
  destruct (ceiling_cell (r_x - fx) dx Hdnx) as [[Cx1 Cx2] _]; [exact Hdx|].
  destruct (ceiling_cell (r_y - fy) dy Hdny) as [_ [Cy1 Cy2]]; [exact Hdy|].
  repeat split; try assumption; lra.
Qed.

(** X8.  For a north-up transform with an integer origin and integer pixel
    sizes (positive in x, negative in y), a positive tile size [T] and
    magnitudes below [2 ^ 52], the constructor succeeds, and the lattice it
    builds covers the dataset exactly: the first tile's cell contains the
    dataset's upper-left corner, and the last tile column and row are the
    first ones that reach the lower-right corner.  On such a transform every
    intermediate value of the constructor is an integer that binary64 holds
    exactly, and its quotients round without reaching an integer they are
    not equal to, so the lattice of the code is this one. *)
Theorem init_covers_dataset (l_x s_x l_y s_y : Z) (z1 z2 : Q) (x_size y_size tile : Z)
  (hasPyramid : bool) :
  0 < tile -> 0 < s_x -> s_y < 0 ->
  Z.abs l_x + (Z.abs x_size + 2 * tile) * s_x < 2 ^ 52 ->
  Z.abs l_y + (Z.abs y_size + 2 * tile) * - s_y < 2 ^ 52 ->
  exists g,
    init (inject_Z l_x, inject_Z s_x, z1, inject_Z l_y, z2, inject_Z s_y)
      x_size y_size tile hasPyramid None = Ok g /\
    (rx g == inject_Z (l_x + x_size * s_x) /\ ry g == inject_Z (l_y + y_size * s_y) /\
     firstTileLeftX g <= inject_Z l_x /\
     inject_Z l_x < firstTileLeftX g + inject_Z (tile * s_x) /\
     firstTileLeftY g + inject_Z (tile * s_y) < inject_Z l_y /\
     inject_Z l_y <= firstTileLeftY g /\
     firstTileLeftX g + inject_Z ((rangeX g - 1) * (tile * s_x)) < rx g /\
     rx g <= firstTileLeftX g + inject_Z (rangeX g * (tile * s_x)) /\
     firstTileLeftY g + inject_Z (rangeY g * (tile * s_y)) <= ry g /\
     ry g < firstTileLeftY g + inject_Z ((rangeY g - 1) * (tile * s_y)))%Q.
Proof.
  intros HT Hsx Hsy _ _.
  assert (Hsxq : (0 < inject_Z s_x)%Q)
    by (change 0%Q with (inject_Z 0); rewrite <- Zlt_Qlt; exact Hsx).
  assert (Hsyq : (inject_Z s_y < 0)%Q)
    by (change 0%Q with (inject_Z 0); rewrite <- Zlt_Qlt; exact Hsy).
  destruct (init_covers_dataset_aux (inject_Z l_x) (inject_Z s_x) z1 (inject_Z l_y) z2
              (inject_Z s_y) x_size y_size tile hasPyramid HT Hsxq Hsyq)
    as (g & Hg & H1 & H2 & H3 & H4 & H5 & H6 & H7 & H8 & H9 & H10).
  exists g. split; [exact Hg|].
  unfold Z.sub. rewrite !inject_Z_plus, !inject_Z_mult, !inject_Z_plus.
  change (inject_Z (- (1))) with (- (1))%Q.
  repeat split; try assumption.
Qed.

Lemma init_covers_dataset_witness :
  exists g,
    init test_transform 2000 2000 2048 true None = Ok g /\
    (rx g == inject_Z (12834619 + 2000 * 30) /\
     ry g == inject_Z (5011732 + 2000 * -30) /\
     firstTileLeftX g <= inject_Z 12834619 /\
     inject_Z 12834619 < firstTileLeftX g + inject_Z (2048 * 30) /\
     firstTileLeftY g + inject_Z (2048 * -30) < inject_Z 5011732 /\
     inject_Z 5011732 <= firstTileLeftY g /\
     firstTileLeftX g + inject_Z ((rangeX g - 1) * (2048 * 30)) < rx g /\
     rx g <= firstTileLeftX g + inject_Z (rangeX g * (2048 * 30)) /\
     firstTileLeftY g + inject_Z (rangeY g * (2048 * -30)) <= ry g /\
     ry g < firstTileLeftY g + inject_Z ((rangeY g - 1) * (2048 * -30)))%Q.
Proof.
  apply (init_covers_dataset 12834619 30 5011732 (-30) 0 0 2000 2000 2048 true); lia.
Defined.

(* ================================================================== *)
(** ** Further properties of the cache *)

Section CacheBehaviour.

Variable value : Type.
Variable getsizeof : value -> Z.
Hypothesis getsizeof_nonneg : forall v, 0 <= getsizeof v.

Lemma lookup_assign_same {A} k (a : A) d : Cache.lookup k (Cache.assign k a d) = Some a.
Proof.
  induction d as [|[k' a'] d IH]; simpl.
  - now rewrite String.eqb_refl.
  - destruct (String.eqb k' k) eqn:E; simpl; now rewrite E.
Qed.

Lemma lookup_remove_other {A} k k' (d : list (string * A)) :
  k <> k' -> Cache.lookup k (Cache.remove k' d) = Cache.lookup k d.
Proof.
  intros Hne. induction d as [|[k0 a0] d IH]; simpl; [reflexivity|].
  destruct (String.eqb_spec k0 k').
  - subst. destruct (String.eqb_spec k' k); [congruence | reflexivity].
  - simpl. now rewrite IH.
Qed.

Lemma delete_settings (c : Cache.t value) key :
  Cache.defaultExpire (fst (Cache._delete getsizeof c key)) = Cache.defaultExpire c /\
  Cache.defaultEmptyResult (fst (Cache._delete getsizeof c key)) = Cache.defaultEmptyResult c /\
  Cache.maxsize (fst (Cache._delete getsizeof c key)) = Cache.maxsize c.
Proof.
  unfold Cache._delete. destruct (Cache.lookup key (Cache._CACHE c)); simpl; auto.
Qed.

Lemma delete_expired_loop_settings l : forall (c : Cache.t value) now count,
  Cache.defaultExpire (fst (Cache.delete_expired_loop getsizeof c l now count))
    = Cache.defaultExpire c /\
  Cache.defaultEmptyResult (fst (Cache.delete_expired_loop getsizeof c l now count))
    = Cache.defaultEmptyResult c /\
  Cache.maxsize (fst (Cache.delete_expired_loop getsizeof c l now count))
    = Cache.maxsize c.
Proof.
  induction l as [|[k e] l IH]; intros c now count; simpl; [auto|].
  destruct (e <=? now); [|apply IH].
  destruct (Cache._delete getsizeof c k) as [c1 tag] eqn:E.
  destruct (IH c1 now (count + tag)) as (H1 & H2 & H3).
  destruct (delete_settings c k) as (D1 & D2 & D3).
  rewrite E in D1, D2, D3. simpl in D1, D2, D3.
  rewrite H1, H2, H3. auto.
Qed.

Lemma delete_expired_settings (c : Cache.t value) now :
  Cache.defaultExpire (fst (Cache._delete_expired getsizeof c now)) = Cache.defaultExpire c /\
  Cache.defaultEmptyResult (fst (Cache._delete_expired getsizeof c now))
    = Cache.defaultEmptyResult c /\
  Cache.maxsize (fst (Cache._delete_expired getsizeof c now)) = Cache.maxsize c.
Proof.
  unfold Cache._delete_expired.
  destruct (Cache._EXPIRE_DICT c) as [|p l] eqn:E; [auto|].
  apply delete_expired_loop_settings.
Qed.

Lemma evict_settings (c : Cache.t value) n :
  Cache.defaultExpire (fst (Cache._evict getsizeof c n)) = Cache.defaultExpire c /\
  Cache.defaultEmptyResult (fst (Cache._evict getsizeof c n)) = Cache.defaultEmptyResult c /\
  Cache.maxsize (fst (Cache._evict getsizeof c n)) = Cache.maxsize c.
Proof.
  unfold Cache._evict. destruct (n >? Cache.freeSize c); [|auto].
  destruct (Cache.evict_loop getsizeof (Cache._CACHE c) (Cache.freeSize c)
              (Cache.freeSize c - n) 0) as [[a b] d]. simpl. auto.
Qed.

(** X9.  Round trip of [set] and [get].  A value no larger than [maxsize]
    is always accepted; until its deadline (the clock at the store plus the
    expiry, the cache's default when none is given) [get] returns it and
    leaves the cache as it is; from the deadline on [get] returns the
    fallback and removes the key. *)
Theorem set_then_get (c : Cache.t value) (key : string) (v : value)
  (expire : option Z) (n1 n2 n3 now : Z) (default : option value) :
  cache_inv value getsizeof c ->
  getsizeof v <= Cache.maxsize c ->
  let c' := fst (Cache._set getsizeof c key v expire n1 n2 n3) in
  let deadline := n3 + match expire with Some e => e | None => Cache.defaultExpire c end in
  let fallback := match default with
                  | None => Cache.defaultEmptyResult c
                  | Some d => Some d
                  end in
  snd (Cache._set getsizeof c key v expire n1 n2 n3) = Ok tt /\
  (now < deadline -> Cache._get getsizeof c' key default now = (c', Some v)) /\
  (deadline <= now ->
   snd (Cache._get getsizeof c' key default now) = fallback /\
   Cache.lookup key (Cache._CACHE (fst (Cache._get getsizeof c' key default now))) = None).
Proof using getsizeof_nonneg.
  intros Hinv Hsize c' deadline fallback.
  pose proof (set_inv value getsizeof getsizeof_nonneg c key v expire n1 n2 n3 Hinv) as Hinv'.
  fold c' in Hinv'.
  assert (Hc' : snd (Cache._set getsizeof c key v expire n1 n2 n3) = Ok tt /\
                Cache.lookup key (Cache._CACHE c') = Some v /\
                Cache.lookup key (Cache._EXPIRE_DICT c') = Some deadline /\
                Cache.defaultEmptyResult c' = Cache.defaultEmptyResult c).
  { subst c' deadline. unfold Cache._set.
    destruct (delete_expired_settings c n1) as (A1 & A2 & A3).
    rewrite A3.
    replace (getsizeof v >? Cache.maxsize c) with false by (symmetry; rewrite Z.gtb_ltb; apply Z.ltb_ge; lia).
    cbn [fst snd Cache._CACHE Cache._EXPIRE_DICT Cache.defaultEmptyResult].
    rewrite !lookup_assign_same.
    repeat split.
    match goal with
    | |- Cache.defaultEmptyResult (fst (Cache._evict _ ?x _)) = _ =>
        destruct (evict_settings x (getsizeof v)) as (_ & E2 & _); rewrite E2
    end.
    destruct (delete_expired_settings (fst (Cache._delete_expired getsizeof c n1)) n2)
      as (_ & B2 & _).
    destruct (Cache.lookup key _).
    - destruct (delete_settings
                  (fst (Cache._delete_expired getsizeof
                          (fst (Cache._delete_expired getsizeof c n1)) n2)) key)
        as (_ & C2 & _).
      rewrite C2, B2, A2. reflexivity.
    - rewrite B2, A2. reflexivity. }
  destruct Hc' as (Hok & Hv & He & Hd).
  split; [exact Hok|]. unfold Cache._get, Cache.is_expired. rewrite Hv, He, Hd.
  split; intros Hnow.
  - replace (deadline <=? now) with false by (symmetry; apply Z.leb_gt; lia). reflexivity.
  - replace (deadline <=? now) with true by (symmetry; apply Z.leb_le; lia).
    cbn [fst snd]. split; [reflexivity|].
    unfold Cache._delete. rewrite Hv. cbn [fst Cache._CACHE].
    apply lookup_remove_None. apply Hinv'.
Qed.

Lemma remove_absent {A} k (d : list (string * A)) :
  Cache.lookup k d = None -> Cache.remove k d = d.
Proof.
  induction d as [|[k' a'] d IH]; simpl; [reflexivity|].
  destruct (String.eqb k' k); [discriminate|]. intros H. now rewrite IH.
Qed.

(** X10.  [_delete(key)] is local and idempotent: it returns 1 exactly when
    the key was cached and then gives its bytes back, the key is absent
    afterwards from both dictionaries, every other key keeps its value and
    its expiry, and a second [_delete] of the same key returns 0 and changes
    nothing. *)
Theorem delete_local_and_idempotent (c : Cache.t value) (key : string) :
  NoDup (map fst (Cache._CACHE c)) ->
  NoDup (map fst (Cache._EXPIRE_DICT c)) ->
  let c' := fst (Cache._delete getsizeof c key) in
  (snd (Cache._delete getsizeof c key) = 1 <-> Cache.lookup key (Cache._CACHE c) <> None) /\
  Cache.freeSize c' = Cache.freeSize c +
                      match Cache.lookup key (Cache._CACHE c) with
                      | Some v => getsizeof v
                      | None => 0
                      end /\
  Cache.lookup key (Cache._CACHE c') = None /\
  Cache.lookup key (Cache._EXPIRE_DICT c') = None /\
  (forall k, k <> key ->
     Cache.lookup k (Cache._CACHE c') = Cache.lookup k (Cache._CACHE c) /\
     Cache.lookup k (Cache._EXPIRE_DICT c') = Cache.lookup k (Cache._EXPIRE_DICT c)) /\
  Cache._delete getsizeof c' key = (c', 0).
Proof.
  intros Hc He c'.
  assert (Hk : Cache.lookup key (Cache._CACHE c') = None /\
               Cache.lookup key (Cache._EXPIRE_DICT c') = None).
  { subst c'. unfold Cache._delete.
    destruct (Cache.lookup key (Cache._CACHE c)) eqn:E;
      cbn [fst Cache._CACHE Cache._EXPIRE_DICT]; split.
    - now apply lookup_remove_None.
    - now apply lookup_remove_None.
    - exact E.
    - now apply lookup_remove_None. }
  destruct Hk as (Hk1 & Hk2).
  repeat split.
  - unfold Cache._delete. destruct (Cache.lookup key (Cache._CACHE c)); simpl;
      intros; [discriminate | lia].
  - unfold Cache._delete. destruct (Cache.lookup key (Cache._CACHE c)); simpl;
      intros H; [reflexivity | congruence].
  - subst c'. unfold Cache._delete.
    destruct (Cache.lookup key (Cache._CACHE c)); simpl; lia.
  - exact Hk1.
  - exact Hk2.
  - subst c'. unfold Cache._delete.
    destruct (Cache.lookup key (Cache._CACHE c)); cbn [fst Cache._CACHE];
      [now apply lookup_remove_other | reflexivity].
  - subst c'. unfold Cache._delete.
    destruct (Cache.lookup key (Cache._CACHE c)); cbn [fst Cache._EXPIRE_DICT];
      now apply lookup_remove_other.
  - unfold Cache._delete at 1. rewrite Hk1.
    rewrite (remove_absent _ _ Hk2). destruct c'; reflexivity.
Qed.

(** The keys of [expire_cp] that the sweep deletes. *)
Definition swept (l : list (string * Z)) (now : Z) (k : string) : bool :=
  existsb (fun p => String.eqb (fst p) k && (snd p <=? now)) l.

Lemma delete_lookup (c : Cache.t value) key k :
  NoDup (map fst (Cache._CACHE c)) ->
  NoDup (map fst (Cache._EXPIRE_DICT c)) ->
  Cache.lookup k (Cache._CACHE (fst (Cache._delete getsizeof c key)))
    = (if String.eqb key k then None else Cache.lookup k (Cache._CACHE c)) /\
  Cache.lookup k (Cache._EXPIRE_DICT (fst (Cache._delete getsizeof c key)))
    = (if String.eqb key k then None else Cache.lookup k (Cache._EXPIRE_DICT c)).
Proof.
  intros Hc He. unfold Cache._delete.
  destruct (String.eqb_spec key k) as [->|Hne].
  - destruct (Cache.lookup k (Cache._CACHE c)) eqn:E;
      cbn [fst Cache._CACHE Cache._EXPIRE_DICT]; split.
    + now apply lookup_remove_None.
    + now apply lookup_remove_None.
    + exact E.
    + now apply lookup_remove_None.
  - destruct (Cache.lookup key (Cache._CACHE c)) eqn:E;
      cbn [fst Cache._CACHE Cache._EXPIRE_DICT]; split;
      try reflexivity; apply lookup_remove_other; congruence.
Qed.

Lemma delete_NoDup (c : Cache.t value) key :
  NoDup (map fst (Cache._CACHE c)) ->
  NoDup (map fst (Cache._EXPIRE_DICT c)) ->
  NoDup (map fst (Cache._CACHE (fst (Cache._delete getsizeof c key)))) /\
  NoDup (map fst (Cache._EXPIRE_DICT (fst (Cache._delete getsizeof c key)))).
Proof.
  intros Hc He. unfold Cache._delete.
  destruct (Cache.lookup key (Cache._CACHE c));
    cbn [fst Cache._CACHE Cache._EXPIRE_DICT]; split;
    try assumption; now apply NoDup_remove.
Qed.

Lemma delete_expired_loop_lookup l : forall (c : Cache.t value) now count,
  NoDup (map fst (Cache._CACHE c)) ->
  NoDup (map fst (Cache._EXPIRE_DICT c)) ->
  forall k,
    Cache.lookup k (Cache._CACHE (fst (Cache.delete_expired_loop getsizeof c l now count)))
      = (if swept l now k then None else Cache.lookup k (Cache._CACHE c)) /\
    Cache.lookup k (Cache._EXPIRE_DICT (fst (Cache.delete_expired_loop getsizeof c l now count)))
      = (if swept l now k then None else Cache.lookup k (Cache._EXPIRE_DICT c)).
Proof.
  induction l as [|[k0 e0] l IH]; intros c now count Hc He k; [simpl; auto|].
  cbn [Cache.delete_expired_loop swept existsb fst snd].
  destruct (e0 <=? now) eqn:E.
  - destruct (Cache._delete getsizeof c k0) as [c1 tag] eqn:D.
    destruct (delete_NoDup c k0 Hc He) as (Hc1 & He1).
    destruct (delete_lookup c k0 k Hc He) as (L1 & L2).
    rewrite D in Hc1, He1, L1, L2. cbn [fst] in Hc1, He1, L1, L2.
    destruct (IH c1 now (count + tag) Hc1 He1 k) as (I1 & I2).
    fold (swept l now k). rewrite I1, I2, L1, L2.
    rewrite andb_true_r.
    destruct (String.eqb k0 k); cbn [orb]; destruct (swept l now k); auto.
  - rewrite andb_false_r. cbn [orb]. apply IH; assumption.
Qed.

Lemma swept_lookup (l : list (string * Z)) now k :
  NoDup (map fst l) ->
  swept l now k = match Cache.lookup k l with Some e => e <=? now | None => false end.
Proof.
  induction l as [|[k0 e0] l IH]; intros Hnd; [reflexivity|].
  inversion Hnd as [|? ? Hnotin Hnd']; subst.
  cbn [swept existsb fst snd Cache.lookup]. fold (swept l now k).
  destruct (String.eqb_spec k0 k) as [->|Hne]; cbn [andb orb]; [|now apply IH].
  assert (Hs : swept l now k = false).
  { rewrite (IH Hnd'). cbn [map fst] in Hnotin.
    apply lookup_None_notin in Hnotin. now rewrite Hnotin. }
  rewrite Hs. now rewrite orb_false_r.
Qed.

Lemma delete_expired_loop_NoDup l : forall (c : Cache.t value) now count,
  NoDup (map fst (Cache._CACHE c)) ->
  NoDup (map fst (Cache._EXPIRE_DICT c)) ->
  NoDup (map fst (Cache._CACHE (fst (Cache.delete_expired_loop getsizeof c l now count)))) /\
  NoDup (map fst (Cache._EXPIRE_DICT
                    (fst (Cache.delete_expired_loop getsizeof c l now count)))).
Proof.
  induction l as [|[k0 e0] l IH]; intros c now count Hc He; cbn [Cache.delete_expired_loop].
  - split; assumption.
  - destruct (e0 <=? now); [|now apply IH].
    destruct (Cache._delete getsizeof c k0) as [c1 tag] eqn:D.
    destruct (delete_NoDup c k0 Hc He) as (Hc1 & He1).
    rewrite D in Hc1, He1. now apply IH.
Qed.

Lemma delete_expired_NoDup (c : Cache.t value) now :
  NoDup (map fst (Cache._CACHE c)) ->
  NoDup (map fst (Cache._EXPIRE_DICT c)) ->
  NoDup (map fst (Cache._CACHE (fst (Cache._delete_expired getsizeof c now)))) /\
  NoDup (map fst (Cache._EXPIRE_DICT (fst (Cache._delete_expired getsizeof c now)))).
Proof.
  intros Hc He. unfold Cache._delete_expired.
  destruct (Cache._EXPIRE_DICT c) as [|p l] eqn:E.
  - cbn [fst]. rewrite E. split; [assumption | constructor].
  - rewrite <- E in *. now apply delete_expired_loop_NoDup.
Qed.

Lemma delete_expired_lookup (c : Cache.t value) (now : Z) (k : string) :
  NoDup (map fst (Cache._CACHE c)) ->
  NoDup (map fst (Cache._EXPIRE_DICT c)) ->
  Cache.lookup k (Cache._CACHE (fst (Cache._delete_expired getsizeof c now)))
    = match Cache.lookup k (Cache._EXPIRE_DICT c) with
      | Some e => if e <=? now then None else Cache.lookup k (Cache._CACHE c)
      | None => Cache.lookup k (Cache._CACHE c)
      end /\
  Cache.lookup k (Cache._EXPIRE_DICT (fst (Cache._delete_expired getsizeof c now)))
    = match Cache.lookup k (Cache._EXPIRE_DICT c) with
      | Some e => if e <=? now then None else Some e
      | None => None
      end.
Proof.
  intros Hc He.
  assert (H : Cache.lookup k (Cache._CACHE (fst (Cache._delete_expired getsizeof c now)))
              = (if swept (Cache._EXPIRE_DICT c) now k then None
                 else Cache.lookup k (Cache._CACHE c)) /\
              Cache.lookup k (Cache._EXPIRE_DICT (fst (Cache._delete_expired getsizeof c now)))
              = (if swept (Cache._EXPIRE_DICT c) now k then None
                 else Cache.lookup k (Cache._EXPIRE_DICT c))).
  { unfold Cache._delete_expired.
    destruct (Cache._EXPIRE_DICT c) as [|p l] eqn:E; [simpl; rewrite E; auto|].
    rewrite <- E in *. apply delete_expired_loop_lookup; assumption. }
  destruct H as (H1 & H2).
  rewrite (swept_lookup _ now k He) in H1, H2. rewrite H1, H2.
  destruct (Cache.lookup k (Cache._EXPIRE_DICT c)) as [e|]; [|auto].
  destruct (e <=? now); auto.
Qed.

(** X11.  [_delete_expired] removes exactly the entries whose expiry is not
    after the clock reading: such a key is absent afterwards from the cache
    and from the expiry table, every other key keeps its value and its
    expiry, and no key is expired right after the sweep. *)
Theorem delete_expired_exact (c : Cache.t value) (now : Z) :
  NoDup (map fst (Cache._CACHE c)) ->
  NoDup (map fst (Cache._EXPIRE_DICT c)) ->
  let c' := fst (Cache._delete_expired getsizeof c now) in
  forall k,
    Cache.lookup k (Cache._CACHE c')
      = match Cache.lookup k (Cache._EXPIRE_DICT c) with
        | Some e => if e <=? now then None else Cache.lookup k (Cache._CACHE c)
        | None => Cache.lookup k (Cache._CACHE c)
        end /\
    Cache.lookup k (Cache._EXPIRE_DICT c')
      = match Cache.lookup k (Cache._EXPIRE_DICT c) with
        | Some e => if e <=? now then None else Some e
        | None => None
        end /\
    Cache.is_expired c' k now = false.
Proof.
  intros Hc He c' k.
  destruct (delete_expired_lookup c now k Hc He) as (H1 & H2). fold c' in H1, H2.
  split; [exact H1|]. split; [exact H2|].
  unfold Cache.is_expired. rewrite H2.
  destruct (Cache.lookup k (Cache._EXPIRE_DICT c)) as [e|]; [|reflexivity].
  destruct (e <=? now) eqn:E; [reflexivity | exact E].
Qed.

(** X12.  [configure] with a positive new [maxsize] never evicts: the
    entries and the bytes in use stay as they are, so [full()] answers true
    exactly when the new capacity does not exceed the bytes in use, and the
    free size is negative exactly when it is smaller than them.  The only
    error left is a negative [defaultExpire], raised after the new capacity
    is stored. *)
Theorem configure_never_evicts (c : Cache.t value) (m : Z) (default_expire : option Z)
  (default_empty : option value) :
  0 < m ->
  let c' := fst (Cache.configure c (Some m) default_expire default_empty) in
  Cache.maxsize c' = m /\
  Cache._CACHE c' = Cache._CACHE c /\
  Cache._EXPIRE_DICT c' = Cache._EXPIRE_DICT c /\
  Cache.__len__ c' = Cache.__len__ c /\
  (Cache.full c' = true <-> m <= Cache.__len__ c) /\
  (Cache.freeSize c' < 0 <-> m < Cache.__len__ c) /\
  (snd (Cache.configure c (Some m) default_expire default_empty) = Raise ValueError
   <-> exists d, default_expire = Some d /\ d < 0).
Proof.
  intros Hm c'. subst c'. unfold Cache.configure.
  replace (m <=? 0) with false by (symmetry; apply Z.leb_gt; lia).
  destruct default_expire as [d|].
  - destruct (d <? 0) eqn:Ed.
    + apply Z.ltb_lt in Ed.
      cbn [fst snd Cache.maxsize Cache._CACHE Cache._EXPIRE_DICT Cache.freeSize].
      unfold Cache.full, Cache.__len__.
      cbn [Cache.maxsize Cache.freeSize].
      replace (m <=? 0) with false by (symmetry; apply Z.leb_gt; lia).
      rewrite Z.leb_le.
      repeat split; try lia; eauto.
    + apply Z.ltb_ge in Ed.
      destruct default_empty as [r|];
        cbn [fst snd Cache.maxsize Cache._CACHE Cache._EXPIRE_DICT Cache.freeSize];
        unfold Cache.full, Cache.__len__;
        cbn [Cache.maxsize Cache.freeSize];
        replace (m <=? 0) with false by (symmetry; apply Z.leb_gt; lia);
        rewrite Z.leb_le;
        repeat split; try lia; try discriminate;
        intros (d' & Hd' & Hneg); injection Hd' as <-; lia.
  - destruct default_empty as [r|];
      cbn [fst snd Cache.maxsize Cache._CACHE Cache._EXPIRE_DICT Cache.freeSize];
      unfold Cache.full, Cache.__len__;
      cbn [Cache.maxsize Cache.freeSize];
      replace (m <=? 0) with false by (symmetry; apply Z.leb_gt; lia);
      rewrite Z.leb_le;
      repeat split; try lia; try discriminate;
      intros (d' & Hd' & Hneg); discriminate.
Qed.

(** X13.  [_has(key)] answers true exactly for a key that is cached and
    whose expiry, when it has one, is after both clock readings of the two
    sweeps the call makes. *)
Theorem has_iff_cached_and_live (c : Cache.t value) (key : string) (n1 n2 : Z) :
  NoDup (map fst (Cache._CACHE c)) ->
  NoDup (map fst (Cache._EXPIRE_DICT c)) ->
  (snd (Cache._has getsizeof c key n1 n2) = true <->
   Cache.lookup key (Cache._CACHE c) <> None /\
   (forall e, Cache.lookup key (Cache._EXPIRE_DICT c) = Some e -> n1 < e /\ n2 < e)).
Proof.
  intros Hc He. unfold Cache._has. cbn [snd].
  set (c1 := fst (Cache._delete_expired getsizeof c n1)).
  destruct (delete_expired_NoDup c n1 Hc He) as (Hc1 & He1). fold c1 in Hc1, He1.
  destruct (delete_expired_lookup c n1 key Hc He) as (A1 & A2). fold c1 in A1, A2.
  destruct (delete_expired_lookup c1 n2 key Hc1 He1) as (B1 & _).
  rewrite B1, A2, A1.
  destruct (Cache.lookup key (Cache._EXPIRE_DICT c)) as [e|].
  - destruct (Z.leb_spec e n1) as [L1|L1].
    + split; [discriminate|]. intros [_ H]. destruct (H e eq_refl). lia.
    + destruct (Z.leb_spec e n2) as [L2|L2].
      * split; [discriminate|]. intros [_ H]. destruct (H e eq_refl). lia.
      * destruct (Cache.lookup key (Cache._CACHE c)).
        -- split; [|reflexivity]. intros _. split; [discriminate|].
           intros e' He'. injection He' as <-. lia.
        -- split; [discriminate|]. intros [H _]. congruence.
  - destruct (Cache.lookup key (Cache._CACHE c)).
    + split; [|reflexivity]. intros _. split; [discriminate | discriminate].
    + split; [discriminate|]. intros [H _]. congruence.
Qed.

End CacheBehaviour.

(** Three small caches of [bytes] values: empty, one entry, two entries. *)
Definition cache_empty : Cache.t string := Cache.mk string 100 10 100 None [] [].

Definition cache_one : Cache.t string :=
  Cache.mk string 100 10 57 None [("a", "0123456789")]%string [("a", 10)]%string.

Definition cache_two : Cache.t string :=
  Cache.mk string 100 10 14 None
    [("a", "0123456789"); ("b", "0123456789")]%string [("a", 10); ("b", 30)]%string.

Lemma set_then_get_witness :
  Cache._get bytes_getsizeof
    (fst (Cache._set bytes_getsizeof cache_empty "a" "0123456789"%string None 0 0 0)) "a" None 5
  = (fst (Cache._set bytes_getsizeof cache_empty "a" "0123456789"%string None 0 0 0),
     Some "0123456789"%string).
Proof.
  refine (proj1 (proj2
    (set_then_get string bytes_getsizeof _ cache_empty
       "a"%string "0123456789"%string None 0 0 0 5 None _ _)) _).
  - intros v. unfold bytes_getsizeof. lia.
  - repeat split; simpl; [constructor | lia].
  - vm_compute. discriminate.
  - vm_compute. reflexivity.
Defined.

Lemma delete_local_and_idempotent_witness :
  Cache.lookup "a" (Cache._CACHE (fst (Cache._delete bytes_getsizeof cache_one "a"))) = None.
Proof.
  refine (proj1 (proj2 (proj2
    (delete_local_and_idempotent string bytes_getsizeof cache_one "a"%string _ _)))).
  - simpl. repeat constructor. simpl. tauto.
  - simpl. repeat constructor. simpl. tauto.
Defined.

Lemma delete_expired_exact_witness :
  Cache.is_expired (fst (Cache._delete_expired bytes_getsizeof cache_two 20)) "a" 20 = false.
Proof.
  refine (proj2 (proj2
    (delete_expired_exact string bytes_getsizeof cache_two 20 _ _ "a"%string))).
  - simpl. repeat constructor; simpl; [intros [H|[]]; discriminate | tauto].
  - simpl. repeat constructor; simpl; [intros [H|[]]; discriminate | tauto].
Defined.

Lemma configure_never_evicts_witness :
  Cache.__len__ (fst (Cache.configure cache_two (Some 50) None None))
  = Cache.__len__ cache_two.
Proof.
  refine (proj1 (proj2 (proj2 (proj2
    (configure_never_evicts string cache_two 50 None None _))))).
  lia.
Defined.

Lemma has_iff_cached_and_live_witness :
  snd (Cache._has bytes_getsizeof cache_two "b" 20 20) = true.
Proof.
  apply (has_iff_cached_and_live string bytes_getsizeof cache_two "b"%string 20 20).
  - simpl. repeat constructor; simpl; [intros [H|[]]; discriminate | tauto].
  - simpl. repeat constructor; simpl; [intros [H|[]]; discriminate | tauto].
  - split; [discriminate|]. intros e He. vm_compute in He. injection He as <-. lia.
Defined.

(* ================================================================== *)
(** ** Further properties of the band adapters *)

(** The requests that only read the store. *)
Definition read_event (e : event) : bool :=
  match e with
  | EvUpload _ _ | EvSubmitUpload _ _ _ => false
  | _ => true
  end.

Section BandReads.

Variable S : Type.
Variable client : Client S.
Variable is_same_crs : string -> string -> bool.
Variable transform_envelope : Q -> Q -> Q -> Q -> string -> string -> Q * Q * Q * Q.
Variable ExportToWkt : string -> string.
Variable ExportToProj4 : string -> string.
Variable rebuilt_path : string -> string.
Variable raster_read : S -> string -> option (Z * Z * Z * Z) -> option nat -> result ndarray.
Variable reproject_by_gdal :
  ndarray -> transform -> string -> Q -> Z * Z ->
  transform -> string -> Z * Z -> Q -> string -> Z -> result ndarray.

(** A client whose [get_access_path] leaves the backend as it is, as the
    filesystem client's does; the object-store client's does not. *)
Definition lookup_only_access : Prop :=
  forall s path, fst (get_access_path client s path) = s.

(** A computation that adds only reading requests, in front of those already
    made, and that leaves the backend as it is when [get_access_path]
    does. *)
Definition reads_only {A : Type} (m : M S A) : Prop :=
  forall w,
    (exists evs,
       requests (fst (m w)) = (evs ++ requests w)%list /\
       forallb read_event evs = true) /\
    (lookup_only_access -> backend (fst (m w)) = backend w).

Lemma reads_only_ret {A} (a : A) : reads_only (ret S a).
Proof. intros w. split; [exists []; auto | reflexivity]. Qed.

Lemma reads_only_lift {A} (r : result A) : reads_only (lift S r).
Proof. intros w. split; [exists []; auto | reflexivity]. Qed.

Lemma reads_only_raise {A} (e : exn) : reads_only (@raise S A e).
Proof. intros w. split; [exists []; auto | reflexivity]. Qed.

Lemma reads_only_warn msg : reads_only (warn S msg).
Proof. intros w. split; [exists []; auto | reflexivity]. Qed.

Lemma reads_only_bind {A B} (m : M S A) (k : A -> M S B) :
  reads_only m -> (forall a, reads_only (k a)) -> reads_only (bind S m k).
Proof.
  intros Hm Hk w. unfold bind. destruct (Hm w) as ((evs & Hr & Hf) & Hb).
  destruct (m w) as [w1 [a|e]]; cbn [fst] in *.
  - destruct (Hk a w1) as ((evs' & Hr' & Hf') & Hb'). split.
    + exists (evs' ++ evs)%list. rewrite Hr', Hr, app_assoc. split; [reflexivity|].
      rewrite forallb_app, Hf, Hf'. reflexivity.
    + intros Hp. rewrite (Hb' Hp). exact (Hb Hp).
  - split; [exists evs; auto | exact Hb].
Qed.

Lemma reads_only_swallow {A} (m : M S A) (d : A) :
  reads_only m -> reads_only (swallow S m d).
Proof.
  intros Hm w. unfold swallow. specialize (Hm w).
  destruct (m w) as [w1 [a|e]]; exact Hm.
Qed.

Lemma reads_only_is_accessible path : reads_only (client_is_accessible S client path).
Proof.
  intros w. split; [exists [EvIsAccessible path]; auto | reflexivity].
Qed.

Lemma reads_only_get_access_path path : reads_only (client_get_access_path S client path).
Proof.
  intros w. unfold client_get_access_path, bind, emit. cbn [backend].
  pose proof (fun H : lookup_only_access => H (backend w) path) as Hp.
  destruct (get_access_path client (backend w) path) as [s' r]. cbn [fst backend requests].
  split; [exists [EvGetAccessPath path]; auto | exact Hp].
Qed.

Lemma reads_only_read_from_access_path access_path window zoom cache :
  reads_only (read_from_access_path S raster_read access_path window zoom cache).
Proof.
  intros w. unfold read_from_access_path, bind, emit.
  destruct access_path as [p|]; [|destruct window as [[[a b] c] d]];
    (split; [eexists [_]; cbn; split; reflexivity | reflexivity]).
Qed.

Ltac reads_only_step :=
  first
    [ apply reads_only_ret | apply reads_only_lift | apply reads_only_raise
    | apply reads_only_warn | apply reads_only_is_accessible
    | apply reads_only_get_access_path | apply reads_only_read_from_access_path
    | apply reads_only_swallow
    | apply reads_only_bind; [|intros ?; cbv beta]
    | match goal with
      | |- reads_only (match ?m with _ => _ end) => destruct m
      end ].

Lemma reads_only_read_tile b x y :
  reads_only (SlicedBand_read_tile S client rebuilt_path raster_read b x y).
Proof. unfold SlicedBand_read_tile. repeat reads_only_step. Qed.

Lemma reads_only_threading b zoom actual_shape base_array info :
  reads_only (threading_read_from_info S client rebuilt_path raster_read b zoom
                actual_shape base_array info).
Proof. unfold threading_read_from_info. repeat reads_only_step. Qed.

Lemma reads_only_pool_map_reads b zoom actual_shape infos : forall base_array,
  reads_only (pool_map_reads S client rebuilt_path raster_read b zoom actual_shape
                infos base_array).
Proof.
  induction infos as [|info tl IH]; intros base_array; cbn [pool_map_reads].
  - apply reads_only_ret.
  - apply reads_only_bind; [|intros a; apply IH].
    apply reads_only_swallow, reads_only_threading.
Qed.

Lemma reads_only_sliced_read_region b tr x_size y_size project resample :
  reads_only (SlicedBand_read_region S client is_same_crs transform_envelope ExportToWkt
                rebuilt_path raster_read reproject_by_gdal b tr x_size y_size
                project resample).
Proof.
  unfold SlicedBand_read_region.
  repeat first [apply reads_only_pool_map_reads | reads_only_step].
Qed.

Lemma reads_only_unsliced_read_region b tr x_size y_size project resample :
  reads_only (UnSlicedBand_read_region S client is_same_crs transform_envelope ExportToWkt
                ExportToProj4 raster_read reproject_by_gdal b tr x_size y_size
                project resample).
Proof. unfold UnSlicedBand_read_region. repeat reads_only_step. Qed.

(** X14.  Reading makes no upload: whatever the band, the arguments, the
    backend, the client and the outcome (a result or a raise), [read_tile]
    and [read_region] of both adapters add only reading requests
    ([is_accessible], [get_access_path], windowed reads) to those made
    before.  With a client whose [get_access_path] leaves the backend as it
    is, as the filesystem client's does, they leave the backend as it was;
    the object-store client's [get_access_path] sets the ACL of the stored
    key, which is the only change a read can make there. *)
Theorem reads_never_write (b : Band) (tr : transform) (x y x_size y_size : Z)
  (project resample : option string) :
  reads_only (SlicedBand_read_tile S client rebuilt_path raster_read b x y) /\
  reads_only (SlicedBand_read_region S client is_same_crs transform_envelope ExportToWkt
                rebuilt_path raster_read reproject_by_gdal b tr x_size y_size
                project resample) /\
  reads_only (UnSlicedBand_read_tile S client is_same_crs transform_envelope ExportToWkt
                ExportToProj4 raster_read reproject_by_gdal b x y) /\
  reads_only (UnSlicedBand_read_region S client is_same_crs transform_envelope ExportToWkt
                ExportToProj4 raster_read reproject_by_gdal b tr x_size y_size
                project resample).
Proof.
  split; [apply reads_only_read_tile|].
  split; [apply reads_only_sliced_read_region|].
  split; [|apply reads_only_unsliced_read_region].
  unfold UnSlicedBand_read_tile. destruct (get_tile_info (gti b) x y) as [t s].
  apply reads_only_unsliced_read_region.
Qed.

End BandReads.

(** A backend that holds the tile [(0, 0)] of the test band. *)
Definition stored_tile : GTiff :=
  {| gt_driver := "GTiff"; gt_count := 1; gt_width := 2048; gt_height := 2048;
     gt_dtype := "int16"; gt_nodata := 0%Q; gt_transform := test_transform;
     gt_crs := "EPSG:3857"; gt_compress := "lzw";
     gt_band1 := mkArray 2048 2048 (fun _ _ => 1%Q);
     gt_overviews := [1]; gt_overview_resampling := Nearest |}.

Definition one_tile_world : World mem_store :=
  mkWorld [("/edm_store/test/B2/0_0.tif"%string, stored_tile)] [] [].

Lemma reads_never_write_witness :
  backend (fst (SlicedBand_read_tile mem_store (mem_client true) same_string
                  mem_raster_read (test_band false) 0 0 one_tile_world))
  = backend one_tile_world /\
  requests (fst (SlicedBand_read_tile mem_store (mem_client true) same_string
                   mem_raster_read (test_band false) 0 0 one_tile_world))
  = [EvRead (Some "/edm_store/test/B2/0_0.tif"%string) (0, 0, 2048, 2048) None;
     EvGetAccessPath "/edm_store/test/B2/0_0.tif";
     EvIsAccessible "/edm_store/test/B2/0_0.tif"].
Proof.
  destruct (proj1 (reads_never_write mem_store (mem_client true) same_crs_driver_is_same
                     same_crs_driver_envelope same_string same_string same_string
                     mem_raster_read no_warp (test_band false) test_transform 0 0 1 1
                     None None) one_tile_world) as [_ Hb].
  split.
  - apply Hb. intros s path. reflexivity.
  - vm_compute. reflexivity.
Defined.

(* ================================================================== *)
(** ** The fill windows of a sliced plan *)

(** The entry that the double loop of
    [calculate_read_window_of_sliced_band] builds for the tile [(x, y)]. *)
Definition sliced_entry (tile_size start_index_x end_index_x start_index_y end_index_y
  start_offset_x end_offset_x start_offset_y end_offset_y x y : Z) : plan_entry :=
  let read_x0 := 0 in
  let read_x1 := tile_size - 1 in
  let fill_x0 := 0 + (x - start_index_x) * tile_size - start_offset_x in
  let fill_x1 := fill_x0 + tile_size - 1 in
  let read_x0 := if x =? start_index_x then start_offset_x else read_x0 in
  let fill_x0 := if x =? start_index_x then 0 else fill_x0 in
  let read_x1 := if x =? end_index_x then end_offset_x - 1 else read_x1 in
  let fill_x1 := if x =? end_index_x then fill_x0 + read_x1 - read_x0 else fill_x1 in
  let read_y0 := 0 in
  let read_y1 := tile_size - 1 in
  let fill_y0 := 0 + (y - start_index_y) * tile_size - start_offset_y in
  let fill_y1 := fill_y0 + tile_size - 1 in
  let read_y0 := if y =? start_index_y then start_offset_y else read_y0 in
  let fill_y0 := if y =? start_index_y then 0 else fill_y0 in
  let read_y1 := if y =? end_index_y then end_offset_y - 1 else read_y1 in
  let fill_y1 := if y =? end_index_y then fill_y0 + read_y1 - read_y0 else fill_y1 in
  let '(read_info, fill_info) :=
    _normalized_read_and_fill_info
      (_rounding0 (PyInt read_x0), _rounding0 (PyInt read_x1),
       _rounding0 (PyInt read_y0), _rounding0 (PyInt read_y1))
      (_rounding0 (PyInt fill_x0), _rounding0 (PyInt fill_x1),
       _rounding0 (PyInt fill_y0), _rounding0 (PyInt fill_y1)) in
  ((x, y), read_info, fill_info).

Lemma sliced_plan_entries g tr x_size y_size zoom plan actual_transform actual_shape :
  calculate_read_window_of_sliced_band g tr x_size y_size zoom
    = Ok (Some (plan, actual_transform, actual_shape)) ->
  exists T sx ex sy ey sox eox soy eoy,
    actual_shape = ((ey - sy) * T - soy + eoy, (ex - sx) * T - sox + eox) /\
    plan = flat_map (fun x => map (sliced_entry T sx ex sy ey sox eox soy eoy x)
                                  (Py.range sy (ey + 1)))
                    (Py.range sx (ex + 1)).
Proof.
  intros H. unfold calculate_read_window_of_sliced_band in H.
  repeat match type of H with
  | rbind ?m _ = _ => destruct m; cbn [rbind] in H; [|discriminate]
  | (if ?c then _ else _) = _ => destruct c; [discriminate|]
  end.
  injection H as <- _ <-.
  do 9 eexists. split; reflexivity.
Qed.

Lemma rounding0_int (z : Z) : _rounding0 (PyInt z) = z.
Proof. reflexivity. Qed.

Lemma normalized_same (read_info fill_info : rect) :
  r1 read_info - r0 read_info = r1 fill_info - r0 fill_info ->
  r3 read_info - r2 read_info = r3 fill_info - r2 fill_info ->
  _normalized_read_and_fill_info read_info fill_info = (read_info, fill_info).
Proof.
  intros Hx Hy. unfold _normalized_read_and_fill_info.
  replace (r1 read_info - r0 read_info - r1 fill_info + r0 fill_info) with 0 by lia.
  cbn [Z.eqb negb andb].
  replace (r3 read_info - r2 read_info - r3 fill_info + r2 fill_info) with 0 by lia.
  reflexivity.
Qed.

(** The fill window of an entry, axis by axis. *)
Definition fill_lo (tile_size start_index start_offset i : Z) : Z :=
  if i =? start_index then 0 else (i - start_index) * tile_size - start_offset.

Definition fill_hi (tile_size start_index end_index start_offset end_offset i : Z) : Z :=
  if i =? end_index
  then (end_index - start_index) * tile_size - start_offset + end_offset - 1
  else (i - start_index) * tile_size - start_offset + tile_size - 1.

Lemma sliced_entry_fill T sx ex sy ey sox eox soy eoy x y :
  fst (fst (sliced_entry T sx ex sy ey sox eox soy eoy x y)) = (x, y) /\
  entry_fill (sliced_entry T sx ex sy ey sox eox soy eoy x y)
    = (fill_lo T sx sox x, fill_hi T sx ex sox eox x,
       fill_lo T sy soy y, fill_hi T sy ey soy eoy y).
Proof.
  unfold sliced_entry, fill_lo, fill_hi. rewrite !rounding0_int.
  cbv zeta.
  destruct (Z.eqb_spec x sx) as [Hxs|Hxs]; destruct (Z.eqb_spec x ex) as [Hxe|Hxe];
    destruct (Z.eqb_spec y sy) as [Hys|Hys]; destruct (Z.eqb_spec y ey) as [Hye|Hye];
    (rewrite normalized_same by (cbn [r0 r1 r2 r3]; lia));
    unfold entry_fill; cbn [fst snd]; (split; [reflexivity|]);
    subst; (apply f_equal2; [apply f_equal2; [apply f_equal2|]|]); lia.
Qed.

(** X15.  The fill windows of a sliced plan tile the output buffer: on each
    axis the window of a tile starts one cell after the window of the tile
    before it ends, the first tile's window starts at 0, and the last tile's
    window ends at the last cell of [actual_shape]. *)
Theorem sliced_plan_fill_windows_tile (g : GlobalTileInfo) (tr : transform)
  (x_size y_size : Z) (zoom : nat) (plan : list plan_entry)
  (actual_transform : transform) (height width : Z) :
  calculate_read_window_of_sliced_band g tr x_size y_size zoom
    = Ok (Some (plan, actual_transform, (height, width))) ->
  forall e, In e plan ->
    (forall e', In e' plan ->
       (fst (fst (fst e')) = fst (fst (fst e)) + 1 ->
        r0 (entry_fill e') = r1 (entry_fill e) + 1) /\
       (snd (fst (fst e')) = snd (fst (fst e)) + 1 ->
        r2 (entry_fill e') = r3 (entry_fill e) + 1)) /\
    ((forall e', In e' plan -> fst (fst (fst e)) <= fst (fst (fst e'))) ->
     r0 (entry_fill e) = 0) /\
    ((forall e', In e' plan -> fst (fst (fst e')) <= fst (fst (fst e))) ->
     r1 (entry_fill e) = width - 1) /\
    ((forall e', In e' plan -> snd (fst (fst e)) <= snd (fst (fst e'))) ->
     r2 (entry_fill e) = 0) /\
    ((forall e', In e' plan -> snd (fst (fst e')) <= snd (fst (fst e))) ->
     r3 (entry_fill e) = height - 1).
Proof.
  intros H e He.
  destruct (sliced_plan_entries _ _ _ _ _ _ _ _ H)
    as (T & sx & ex & sy & ey & sox & eox & soy & eoy & Hshape & Hplan).
  injection Hshape as Hh Hw.
  assert (Hin : forall e0, In e0 plan <->
            exists x y, (sx <= x < ex + 1) /\ (sy <= y < ey + 1) /\
                        e0 = sliced_entry T sx ex sy ey sox eox soy eoy x y).
  { intros e0. rewrite Hplan, in_flat_map. split.
    - intros (x & Hx & He0). apply in_map_iff in He0. destruct He0 as (y & <- & Hy).
      apply in_range in Hx. apply in_range in Hy. eauto.
    - intros (x & y & Hx & Hy & ->). exists x. split; [now apply in_range|].
      apply in_map. now apply in_range. }
  apply Hin in He. destruct He as (x & y & Hx & Hy & ->).
  destruct (sliced_entry_fill T sx ex sy ey sox eox soy eoy x y) as (Hxy & Hfill).
  rewrite Hxy, Hfill. cbn [fst snd r0 r1 r2 r3].
  assert (Hget : forall x' y', sx <= x' < ex + 1 -> sy <= y' < ey + 1 ->
            In (sliced_entry T sx ex sy ey sox eox soy eoy x' y') plan).
  { intros x' y' Hx' Hy'. apply Hin. eauto. }
  split; [|split; [|split; [|split]]].
  - intros e' He'. apply Hin in He'. destruct He' as (x' & y' & Hx' & Hy' & ->).
    destruct (sliced_entry_fill T sx ex sy ey sox eox soy eoy x' y') as (Hxy' & Hfill').
    rewrite Hxy', Hfill'. cbn [fst snd r0 r1 r2 r3]. unfold fill_lo, fill_hi.
    split; intros ->.
    + destruct (Z.eqb_spec (x + 1) sx); [lia|].
      destruct (Z.eqb_spec x ex); lia.
    + destruct (Z.eqb_spec (y + 1) sy); [lia|].
      destruct (Z.eqb_spec y ey); lia.
  - intros Hmin. specialize (Hmin _ (Hget sx y ltac:(lia) Hy)).
    destruct (sliced_entry_fill T sx ex sy ey sox eox soy eoy sx y) as (Hxy' & _).
    rewrite Hxy' in Hmin. cbn [fst] in Hmin.
    unfold fill_lo. destruct (Z.eqb_spec x sx); lia.
  - intros Hmax. specialize (Hmax _ (Hget ex y ltac:(lia) Hy)).
    destruct (sliced_entry_fill T sx ex sy ey sox eox soy eoy ex y) as (Hxy' & _).
    rewrite Hxy' in Hmax. cbn [fst] in Hmax.
    unfold fill_hi. destruct (Z.eqb_spec x ex); lia.
  - intros Hmin. specialize (Hmin _ (Hget x sy Hx ltac:(lia))).
    destruct (sliced_entry_fill T sx ex sy ey sox eox soy eoy x sy) as (Hxy' & _).
    rewrite Hxy' in Hmin. cbn [fst snd] in Hmin.
    unfold fill_lo. destruct (Z.eqb_spec y sy); lia.
  - intros Hmax. specialize (Hmax _ (Hget x ey Hx ltac:(lia))).
    destruct (sliced_entry_fill T sx ex sy ey sox eox soy eoy x ey) as (Hxy' & _).
    rewrite Hxy' in Hmax. cbn [fst snd] in Hmax.
    unfold fill_hi. destruct (Z.eqb_spec y ey); lia.
Qed.

(** The plan of the whole test dataset at level 0. *)
Definition example_plan : list plan_entry :=
  [((0, 0), (1836, 2047, 879, 2047), (0, 211, 0, 1168));
   ((0, 1), (1836, 2047, 0, 830), (0, 211, 1169, 1999));
   ((1, 0), (0, 1787, 879, 2047), (212, 1999, 0, 1168));
   ((1, 1), (0, 1787, 0, 830), (212, 1999, 1169, 1999))].

Lemma sliced_plan_fill_windows_tile_witness :
  r1 (entry_fill ((1, 1), (0, 1787, 0, 830), (212, 1999, 1169, 1999))) = 2000 - 1.
Proof.
  refine (proj1 (proj2 (proj2
    (sliced_plan_fill_windows_tile test_gti test_transform 2000 2000 0
       example_plan _ 2000 2000 _ _ _))) _).
  - vm_compute. reflexivity.
  - unfold example_plan. right. right. right. left. reflexivity.
  - intros e' He'. unfold example_plan in He'. cbn [In] in He'.
    destruct He' as [<-|[<-|[<-|[<-|[]]]]]; cbn [fst snd]; lia.
Defined.

Section BandBuffers.

Variable S : Type.
Variable client : Client S.
Variable rebuilt_path : string -> string.
Variable raster_read : S -> string -> option (Z * Z * Z * Z) -> option nat -> result ndarray.

Lemma set_slice_shape a y0 y1 x0 x1 src a' :
  set_slice a y0 y1 x0 x1 src = Ok a' -> shape_of a' = shape_of a.
Proof.
  unfold set_slice.
  destruct (slice_bounds (nrows a) y0 y1) as [rs re].
  destruct (slice_bounds (ncols a) x0 x1) as [cs ce].
  destruct (_ && _); [|discriminate].
  intros H. injection H as <-. reflexivity.
Qed.

Lemma threading_read_shape b zoom actual_shape base_array info w w' arr :
  threading_read_from_info S client rebuilt_path raster_read b zoom actual_shape
    base_array info w = (w', Ok arr) ->
  shape_of arr = shape_of base_array.
Proof.
  unfold threading_read_from_info.
  destruct info as [[tiles read_info] fill_info].
  unfold bind, client_is_accessible, client_get_access_path, read_from_access_path,
    emit, ret, lift.
  cbn [fst snd]. intros H.
  repeat match type of H with
  | context [if ?c then _ else _] => destruct c
  | context [match ?m with Some _ => _ | None => _ end] => destruct m
  | context [match ?m with Ok _ => _ | Raise _ => _ end] => destruct m
  | context [let '(_, _) := ?p in _] => destruct p
  | (_, Raise _) = _ => discriminate H
  end;
  injection H as _ H;
  first [ exact (set_slice_shape _ _ _ _ _ _ _ H)
        | inversion H; reflexivity ].
Qed.

(** X16.  The tile reads of [SlicedBand.read_region] cannot fail the call,
    and they keep the buffer's shape: whatever the tiles, the backend and
    the outcome of each read, the pool map ends with an array of the shape of
    the buffer it was given. *)
Theorem pool_map_reads_total (b : Band) (zoom : nat) (actual_shape : Z * Z)
  (infos : list plan_entry) (base_array : ndarray) (w : World S) :
  exists arr,
    snd (pool_map_reads S client rebuilt_path raster_read b zoom actual_shape
           infos base_array w) = Ok arr /\
    shape_of arr = shape_of base_array.
Proof.
  revert base_array w.
  induction infos as [|info tl IH]; intros base_array w; cbn [pool_map_reads].
  - exists base_array. split; reflexivity.
  - unfold bind, swallow.
    destruct (threading_read_from_info S client rebuilt_path raster_read b zoom
                actual_shape base_array info w) as [w1 [a|e]] eqn:E.
    + destruct (IH a w1) as (arr & Hr & Hs). exists arr. split; [exact Hr|].
      rewrite Hs. exact (threading_read_shape _ _ _ _ _ _ _ _ E).
    + apply IH.
Qed.

(** X17.  A tile that the backend does not hold reads as nodata.  On a
    lattice resized to [t] with stored tiles of [k * t], [read_tile(x, y)]
    asks the backend once, whether the stored tile [(x / k, y / k)] is
    accessible, and when it is not returns a [t x t] array filled with the
    band's nodata value; nothing is read and the backend is unchanged. *)
Theorem read_tile_missing_is_nodata (b : Band) (k x y : Z) (nd : Q) (w : World S) :
  0 < reSize (gti b) -> 0 < k -> tileSize (gti b) = k * reSize (gti b) ->
  0 <= x -> 0 <= y ->
  Band_nodata b = Ok nd ->
  is_accessible client (backend w)
    (tile_object_path rebuilt_path (backend_path (metadata b)) (x / k) (y / k)) = false ->
  SlicedBand_read_tile S client rebuilt_path raster_read b x y w
    = (mkWorld (backend w)
         (EvIsAccessible
            (tile_object_path rebuilt_path (backend_path (metadata b)) (x / k) (y / k))
          :: requests w)
         (warned w),
       Ok (mkArray (reSize (gti b)) (reSize (gti b)) (fun _ _ => nd))).
Proof.
  intros Ht Hk HT Hx Hy Hnd Hacc.
  unfold SlicedBand_read_tile.
  rewrite (tile_index_and_offset_value (gti b) k x y Ht Hk HT Hx Hy).
  cbv beta iota zeta delta [bind lift client_is_accessible emit ret fst snd].
  cbn [backend]. rewrite Hacc, Hnd. unfold np_empty. cbn [fst snd].
  replace (reSize (gti b) <? 0) with false by (symmetry; apply Z.ltb_ge; lia).
  reflexivity.
Qed.

End BandBuffers.

Lemma read_tile_missing_is_nodata_witness :
  SlicedBand_read_tile mem_store (mem_client true) same_string mem_raster_read
    test_band_resized 1 1 empty_world
  = (mkWorld [] [EvIsAccessible "/edm_store/test/B2/0_0.tif"] [],
     Ok (mkArray 1024 1024 (fun _ _ => (-9999 # 1)%Q))).
Proof.
  apply (read_tile_missing_is_nodata mem_store (mem_client true) same_string
           mem_raster_read test_band_resized 2 1 1 (-9999 # 1)%Q empty_world).
  - vm_compute. reflexivity.
  - lia.
  - vm_compute. reflexivity.
  - lia.
  - lia.
  - reflexivity.
  - vm_compute. reflexivity.
Defined.

(* ================================================================== *)
(** ** The resampling names *)

Lemma index_of_spec (s : string) (l : list string) : forall i0 i,
  NoDup l ->
  (index_of s l i0 = Some i <->
   i0 <= i /\ nth_error l (Z.to_nat (i - i0)) = Some s).
Proof.
  induction l as [|x tl IH]; intros i0 i Hnd; cbn [index_of].
  - split; [discriminate|]. intros [_ H]. destruct (Z.to_nat (i - i0)); discriminate.
  - inversion Hnd as [|? ? Hnotin Hnd']; subst.
    destruct (String.eqb_spec x s) as [->|Hne].
    + split.
      * intros H. injection H as <-. rewrite Z.sub_diag. split; [lia | reflexivity].
      * intros [Hle H]. destruct (Z.to_nat (i - i0)) as [|n] eqn:E.
        -- f_equal. lia.
        -- cbn [nth_error] in H. apply nth_error_In in H. contradiction.
    + rewrite (IH (i0 + 1) i Hnd'). split.
      * intros [Hle H]. split; [lia|].
        replace (Z.to_nat (i - i0)) with (S (Z.to_nat (i - (i0 + 1)))) by lia.
        exact H.
      * intros [Hle H]. destruct (Z.to_nat (i - i0)) as [|n] eqn:E.
        -- cbn [nth_error] in H. congruence.
        -- cbn [nth_error] in H. split; [lia|].
           replace (Z.to_nat (i - (i0 + 1))) with n by lia. exact H.
Qed.

Lemma index_of_None (s : string) (l : list string) : forall i0,
  index_of s l i0 = None <-> ~ In s l.
Proof.
  induction l as [|x tl IH]; intros i0; cbn [index_of In]; [tauto|].
  destruct (String.eqb_spec x s) as [->|Hne].
  - split; [discriminate | tauto].
  - rewrite IH. tauto.
Qed.

Lemma resample_items_NoDup : NoDup resample_items.
Proof.
  unfold resample_items.
  repeat (constructor; [cbn [In]; intuition discriminate|]).
  constructor.
Qed.

Lemma lower_ascii_idempotent (c : ascii) : lower_ascii (lower_ascii c) = lower_ascii c.
Proof.
  destruct c as [[] [] [] [] [] [] [] []]; reflexivity.
Qed.

Lemma lower_idempotent (s : string) : lower (lower s) = lower s.
Proof.
  induction s as [|c s IH]; cbn [lower]; [reflexivity|].
  now rewrite lower_ascii_idempotent, IH.
Qed.

(** X18.  [get_resample_method] inverts the table of resampling names,
    whatever the case of the letters: it returns [i] exactly when the
    lowered name is entry [i] of [resample_items] (so [0 <= i < 15]), it
    raises [KeyError] exactly when the lowered name is not in the table, it
    gives a name and its lowered form the same answer, and no name means
    ["nearest"], which is 0. *)
Theorem get_resample_method_inverts_table (name : string) :
  (forall i, get_resample_method (Some name) = Ok i <->
             0 <= i < 15 /\ nth_error resample_items (Z.to_nat i) = Some (lower name)) /\
  (get_resample_method (Some name) = Raise KeyError <-> ~ In (lower name) resample_items) /\
  get_resample_method (Some (lower name)) = get_resample_method (Some name) /\
  get_resample_method None = Ok 0.
Proof.
  split; [|split; [|split]].
  - intros i. unfold get_resample_method.
    pose proof (index_of_spec (lower name) resample_items 0 i resample_items_NoDup) as H.
    rewrite Z.sub_0_r in H.
    destruct (index_of (lower name) resample_items 0) as [j|] eqn:E.
    + split.
      * intros Hj. injection Hj as ->. destruct (proj1 H eq_refl) as [Hle Hn].
        split; [|exact Hn]. split; [exact Hle|].
        assert (Hlt : (Z.to_nat i < List.length resample_items)%nat)
          by (apply nth_error_Some; congruence).
        cbn in Hlt. lia.
      * intros [[Hle _] Hn]. f_equal.
        assert (Hi : Some j = Some i) by (apply H; auto). congruence.
    + split; [discriminate|]. intros [[Hle _] Hn].
      assert (Hi : None = Some i) by (apply H; auto). discriminate.
  - unfold get_resample_method.
    destruct (index_of (lower name) resample_items 0) as [j|] eqn:E.
    + split; [discriminate|]. intros Hn. apply (index_of_None _ _ 0) in Hn. congruence.
    + split; [|reflexivity]. intros _. now apply (index_of_None _ _ 0).
  - unfold get_resample_method. now rewrite lower_idempotent.
  - reflexivity.
Qed.

(* ================================================================== *)
(** ** The levels of the pyramid *)

Lemma Py_int_quot (a b : Z) : 0 < b -> Py.int (inject_Z a / inject_Z b) = Z.quot a b.
Proof.
  intros Hb.
  assert (Hbq : (0 < inject_Z b)%Q)
    by (change 0%Q with (inject_Z 0); rewrite <- Zlt_Qlt; exact Hb).
  unfold Py.int. destruct (Qle_bool 0 (inject_Z a / inject_Z b)) eqn:E.
  - apply Qle_bool_iff in E.
    assert (Ha : 0 <= a).
    { apply (Qmult_le_compat_r _ _ (inject_Z b)) in E; [|lra].
      setoid_replace (inject_Z a / inject_Z b * inject_Z b)%Q with (inject_Z a) in E
        by (field; lra).
      rewrite Qmult_0_l in E. change 0%Q with (inject_Z 0) in E.
      now rewrite <- Zle_Qle in E. }
    rewrite Qfloor_inject_div by exact Hb. symmetry. apply Z.quot_div_nonneg; lia.
  - assert (Ha : a < 0).
    { destruct (Z.lt_ge_cases a 0) as [H|H]; [exact H|]. exfalso.
      assert (Hq : (0 <= inject_Z a / inject_Z b)%Q).
      { apply Qle_shift_div_l; [exact Hbq|]. rewrite Qmult_0_l.
        change 0%Q with (inject_Z 0). now rewrite <- Zle_Qle. }
      apply Qle_bool_iff in Hq. congruence. }
    unfold Qceiling.
    rewrite (Qfloor_comp (- (inject_Z a / inject_Z b)) (inject_Z (- a) / inject_Z b)).
    + rewrite Qfloor_inject_div by exact Hb.
      rewrite <- (Z.quot_div_nonneg (- a) b) by lia.
      rewrite Z.quot_opp_l by lia. lia.
    + rewrite inject_Z_opp. field. lra.
Qed.

Lemma pow2_succ_Q (j : nat) :
  (inject_Z (2 ^ Z.of_nat (S j)) == 2 * inject_Z (2 ^ Z.of_nat j))%Q.
Proof.
  rewrite Nat2Z.inj_succ, Z.pow_succ_r by lia. rewrite inject_Z_mult. reflexivity.
Qed.

Lemma pow2_pos_Q (j : nat) : (0 < inject_Z (2 ^ Z.of_nat j))%Q.
Proof.
  change 0%Q with (inject_Z 0). rewrite <- Zlt_Qlt. apply Z.pow_pos_nonneg; lia.
Qed.

Ltac halve := unfold Qdiv in *; change (/ 2)%Q with (1 # 2)%Q in *; lra.

(** What the loop of [factors] appends: with [n] levels present and
    [cur = 2 ^ n], it adds the levels [n + j] for exactly the [j] with
    [256 * 2 ^ j < base]. *)
Lemma factors_loop_levels fuel : forall tile sX sY base cur fs xs ys ts (n : nat),
  List.length fs = n -> List.length xs = n -> List.length ys = n -> List.length ts = n ->
  cur = 2 ^ Z.of_nat n ->
  (base <= 256 * inject_Z (2 ^ Z.of_nat fuel))%Q ->
  exists fs' xs' ys' ts' (m : nat),
    factors_loop fuel tile sX sY base cur (fs, xs, ys, ts) = (fs', xs', ys', ts') /\
    List.length fs' = (n + m)%nat /\ List.length xs' = (n + m)%nat /\
    List.length ys' = (n + m)%nat /\ List.length ts' = (n + m)%nat /\
    (forall k, (k < n)%nat ->
       nth_error fs' k = nth_error fs k /\ nth_error ts' k = nth_error ts k) /\
    (forall j, (j < m)%nat ->
       nth_error fs' (n + j) = Some (2 ^ Z.of_nat (n + j)) /\
       nth_error ts' (n + j) = Some (Z.quot tile (2 ^ Z.of_nat (n + j))) /\
       (256 * inject_Z (2 ^ Z.of_nat j) < base)%Q) /\
    (base <= 256 * inject_Z (2 ^ Z.of_nat m))%Q.
Proof.
  induction fuel as [|fuel IH];
    intros tile sX sY base cur fs xs ys ts n Hfs Hxs Hys Hts Hcur Hfuel.
  - exists fs, xs, ys, ts, O. cbn [factors_loop]. rewrite Nat.add_0_r.
    repeat split; auto; intros; lia.
  - cbn [factors_loop]. destruct (Py.gtb base 256) eqn:Eg.
    + apply Py_ltb_lt in Eg.
      assert (Hcur' : cur * 2 = 2 ^ Z.of_nat (S n)).
      { rewrite Nat2Z.inj_succ, Z.pow_succ_r by lia. lia. }
      assert (Hfuel' : (Qred (base / 2) <= 256 * inject_Z (2 ^ Z.of_nat fuel))%Q).
      { rewrite Qred_correct. rewrite pow2_succ_Q in Hfuel. halve. }
      destruct (IH tile sX sY (Qred (base / 2)) (cur * 2)
                  (fs ++ [cur])%list (xs ++ [Qred (sX * inject_Z cur)])%list
                  (ys ++ [Qred (sY * inject_Z cur)])%list
                  (ts ++ [Py.int (inject_Z tile / inject_Z cur)])%list (S n))
        as (fs' & xs' & ys' & ts' & m & Hrun & L1 & L2 & L3 & L4 & Hpre & Hnew & Hstop);
        try (rewrite length_app; cbn [List.length]; lia); try assumption.
      exists fs', xs', ys', ts', (S m). rewrite Hrun.
      split; [reflexivity|].
      split; [lia|]. split; [lia|]. split; [lia|]. split; [lia|].
      split; [|split].
      * intros k Hk. destruct (Hpre k ltac:(lia)) as [P1 P2]. rewrite P1, P2.
        split; apply nth_error_app1; lia.
      * intros j Hj. destruct j as [|j].
        -- rewrite Nat.add_0_r. destruct (Hpre n ltac:(lia)) as [P1 P2]. rewrite P1, P2.
           rewrite !nth_error_app2 by lia. rewrite Hfs, Hts, Nat.sub_diag. cbn [nth_error].
           split; [now rewrite Hcur|]. split.
           ++ f_equal. rewrite Hcur. apply Py_int_quot. apply Z.pow_pos_nonneg; lia.
           ++ change (inject_Z (2 ^ Z.of_nat 0)) with 1%Q. lra.
        -- replace (n + S j)%nat with (S n + j)%nat by lia.
           destruct (Hnew j ltac:(lia)) as (N1 & N2 & Hlt).
           split; [exact N1|]. split; [exact N2|].
           rewrite Qred_correct in Hlt. rewrite pow2_succ_Q. halve.
      * rewrite Qred_correct in Hstop. rewrite pow2_succ_Q. halve.
    + apply Py_ltb_ge in Eg.
      exists fs, xs, ys, ts, O. rewrite Nat.add_0_r.
      repeat split; auto; try (intros; lia);
        try (change (inject_Z (2 ^ Z.of_nat 0)) with 1%Q; lra).
Qed.

Lemma factors_fuel_bound (M : Z) :
  (inject_Z M / 2 <= 256 * inject_Z (2 ^ Z.of_nat (Z.to_nat (Z.log2_up M))))%Q.
Proof.
  rewrite Z2Nat.id by apply Z.log2_up_nonneg.
  assert (H : M <= 2 ^ Z.log2_up M).
  { destruct (Z.lt_ge_cases 1 M) as [H1|H1].
    - apply Z.log2_up_spec. exact H1.
    - pose proof (Z.pow_pos_nonneg 2 (Z.log2_up M) ltac:(lia) (Z.log2_up_nonneg M)). lia. }
  assert (Hp : 0 < 2 ^ Z.log2_up M) by (apply Z.pow_pos_nonneg; [lia | apply Z.log2_up_nonneg]).
  rewrite Zle_Qle in H. rewrite Zlt_Qlt in Hp. change (inject_Z 0) with 0%Q in Hp.
  halve.
Qed.

Lemma half_gt (M c : Z) : (256 * inject_Z c < inject_Z M / 2)%Q <-> 256 * (2 * c) < M.
Proof.
  unfold Qlt, Qdiv, Qmult, Qinv, inject_Z. cbn [Qnum Qden]. lia.
Qed.

Lemma half_le (M c : Z) : (inject_Z M / 2 <= 256 * inject_Z c)%Q <-> M <= 256 * (2 * c).
Proof.
  unfold Qle, Qdiv, Qmult, Qinv, inject_Z. cbn [Qnum Qden]. lia.
Qed.

(** X19.  The levels [factors] builds.  The four lists have one entry per
    level; level [k] has the factor [2 ^ k] and the tile size
    [tileSize / 2 ^ k], truncated; level 0 is always there, and a level
    [k >= 1] exists exactly when a pyramid is asked for and the longer side
    of the lattice, [reSize * max(rangeX, rangeY)] pixels, exceeds
    [256 * 2 ^ k]. *)
Theorem factors_levels (g : GlobalTileInfo) (has : bool) :
  let '(fs, xs, ys, ts) := factors g has in
  let longer := Z.max (reSize g * rangeX g) (reSize g * rangeY g) in
  List.length xs = List.length fs /\
  List.length ys = List.length fs /\
  List.length ts = List.length fs /\
  (forall k, (k < List.length fs)%nat <->
             k = O \/ (has = true /\ 256 * 2 ^ Z.of_nat k < longer)) /\
  (forall k, (k < List.length fs)%nat ->
             nth_error fs k = Some (2 ^ Z.of_nat k) /\
             nth_error ts k = Some (Z.quot (tileSize g) (2 ^ Z.of_nat k))).
Proof.
  unfold factors, factors_of.
  set (M := Z.max (reSize g * rangeX g) (reSize g * rangeY g)).
  destruct has.
  - destruct (factors_loop_levels (factors_fuel (reSize g * rangeX g) (reSize g * rangeY g))
                (tileSize g) (scalaX g) (scalaY g) (inject_Z M / 2) 2
                [1] [scalaX g] [scalaY g] [tileSize g] 1
                eq_refl eq_refl eq_refl eq_refl eq_refl (factors_fuel_bound M))
      as (fs & xs & ys & ts & m & Hrun & L1 & L2 & L3 & L4 & Hpre & Hnew & Hstop).
    fold M. rewrite Hrun. cbv zeta.
    split; [lia|]. split; [lia|]. split; [lia|]. split.
    + intros k. rewrite L1. split.
      * intros Hk. destruct k as [|j]; [now left|]. right. split; [reflexivity|].
        destruct (Hnew j ltac:(lia)) as (_ & _ & Hlt).
        apply half_gt in Hlt.
        rewrite Nat2Z.inj_succ, Z.pow_succ_r by lia. exact Hlt.
      * intros [->|[_ Hlt]]; [lia|].
        destruct (Nat.lt_ge_cases k (1 + m)) as [H|H]; [exact H|]. exfalso.
        apply half_le in Hstop.
        assert (Hmono : 2 ^ Z.of_nat (S m) <= 2 ^ Z.of_nat k)
          by (apply Z.pow_le_mono_r; lia).
        rewrite Nat2Z.inj_succ, Z.pow_succ_r in Hmono by lia. lia.
    + intros k Hk. rewrite L1 in Hk. destruct k as [|j].
      * destruct (Hpre O ltac:(lia)) as [P1 P2]. rewrite P1, P2. cbn [nth_error].
        change (2 ^ Z.of_nat 0) with 1. now rewrite Z.quot_1_r.
      * destruct (Hnew j ltac:(lia)) as (N1 & N2 & _). exact (conj N1 N2).
  - cbv zeta. cbn [List.length]. repeat split; try reflexivity.
    + intros Hk. left. lia.
    + intros [->|[H _]]; [lia | discriminate].
    + destruct k; [reflexivity | lia].
    + destruct k; [|lia]. cbn [nth_error]. change (2 ^ Z.of_nat 0) with 1.
      now rewrite Z.quot_1_r.
Qed.

(* ================================================================== *)
(** ** [_rounding] on non-negative numbers *)

Lemma Qfloor_unique (x : Q) (z : Z) :
  (inject_Z z <= x)%Q -> (x < inject_Z z + 1)%Q -> Qfloor x = z.
Proof.
  intros Hlo Hhi.
  pose proof (Qfloor_le x) as F1. pose proof (Qlt_floor x) as F2.
  rewrite inject_Z_plus in F2. change (inject_Z 1) with 1%Q in F2.
  assert (A : (inject_Z z < inject_Z (Qfloor x) + 1)%Q) by lra.
  assert (B : (inject_Z (Qfloor x) < inject_Z z + 1)%Q) by lra.
  change 1%Q with (inject_Z 1) in A, B. rewrite <- inject_Z_plus in A, B.
  rewrite <- Zlt_Qlt in A, B. lia.
Qed.

Lemma Py_ltb_comp (p q r s : Q) : (p == q)%Q -> (r == s)%Q -> Py.ltb p r = Py.ltb q s.
Proof.
  intros H1 H2. unfold Py.ltb. f_equal. apply Qleb_comp; assumption.
Qed.

Lemma Py_round_comp (p q : Q) : (p == q)%Q -> Py.round p = Py.round q.
Proof.
  intros H. unfold Py.round. rewrite (Qfloor_comp _ _ H).
  assert (Hd : (p - inject_Z (Qfloor q) == q - inject_Z (Qfloor q))%Q) by (rewrite H; reflexivity).
  rewrite (Py_ltb_comp _ _ _ _ Hd (Qeq_refl (1 # 2))).
  rewrite (Py_ltb_comp _ _ _ _ (Qeq_refl (1 # 2)) Hd). reflexivity.
Qed.

Lemma digit_is_5_comp (p q : Q) (n : nat) : (p == q)%Q -> digit_is_5 p n = digit_is_5 q n.
Proof.
  intros H. unfold digit_is_5, frac_digit.
  assert (Hs : (Qabs p * inject_Z (Py.pow10 n) == Qabs q * inject_Z (Py.pow10 n))%Q)
    by (rewrite H; reflexivity).
  rewrite (Qfloor_comp _ _ Hs).
  assert (Hs10 : (Qabs p * inject_Z (Py.pow10 n) * 10 == Qabs q * inject_Z (Py.pow10 n) * 10)%Q)
    by (rewrite Hs; reflexivity).
  rewrite (Qfloor_comp _ _ Hs10).
  replace (Qeq_bool (Qabs p * inject_Z (Py.pow10 n))
             (inject_Z (Qfloor (Qabs q * inject_Z (Py.pow10 n)))))
    with (Qeq_bool (Qabs q * inject_Z (Py.pow10 n))
             (inject_Z (Qfloor (Qabs q * inject_Z (Py.pow10 n))))); [reflexivity|].
  apply Qeqb_comp; [symmetry; exact Hs | reflexivity].
Qed.

Lemma rounding0_comp (p q : Q) :
  (p == q)%Q -> _rounding0 (PyFloat p) = _rounding0 (PyFloat q).
Proof.
  intros H. unfold _rounding0, _rounding. rewrite (digit_is_5_comp p q 0 H).
  destruct (digit_is_5 q 0); apply Py_round_comp; rewrite H; reflexivity.
Qed.

Lemma round_not_half (q : Q) : ~ exact_half q 0 -> Py.round q = Qfloor (q + (1 # 2)).
Proof.
  intros Hnh. unfold Py.round.
  pose proof (Qfloor_le q) as F1. pose proof (Qlt_floor q) as F2.
  rewrite inject_Z_plus in F2. change (inject_Z 1) with 1%Q in F2.
  set (f := Qfloor q) in *.
  destruct (Py.ltb (q - inject_Z f) (1 # 2)) eqn:E1.
  - apply Py_ltb_lt in E1. symmetry. apply Qfloor_unique; lra.
  - apply Py_ltb_ge in E1.
    destruct (Py.ltb (1 # 2) (q - inject_Z f)) eqn:E2.
    + apply Py_ltb_lt in E2. symmetry. apply Qfloor_unique.
      * rewrite inject_Z_plus. change (inject_Z 1) with 1%Q. lra.
      * rewrite inject_Z_plus. change (inject_Z 1) with 1%Q. lra.
    + apply Py_ltb_ge in E2. exfalso. apply Hnh. exists f.
      unfold Py.pow10. change (inject_Z (10 ^ Z.of_nat 0)) with 1%Q. lra.
Qed.

Lemma rounding0_nonneg (q : Q) :
  (0 <= q)%Q -> _rounding0 (PyFloat q) = Qfloor (q + (1 # 2)).
Proof.
  intros Hq.
  destruct (Qeq_dec (q - inject_Z (Qfloor q)) (1 # 2)) as [Hh|Hh].
  - assert (E : (q == inject_Z (Qfloor q) + (1 # 2))%Q) by lra.
    rewrite (rounding0_comp _ _ E). unfold _rounding0. rewrite rounding_half_up.
    symmetry. apply Qfloor_unique.
    + rewrite inject_Z_plus. change (inject_Z 1) with 1%Q. lra.
    + rewrite inject_Z_plus. change (inject_Z 1) with 1%Q. lra.
  - assert (Hnh : ~ exact_half q 0).
    { intros [k Hk]. unfold Py.pow10 in Hk.
      change (inject_Z (10 ^ Z.of_nat 0)) with 1%Q in Hk.
      assert (Hf : Qfloor q = k) by (apply Qfloor_unique; lra).
      apply Hh. rewrite Hf. lra. }
    unfold _rounding0. rewrite (rounding_nonneg_non_half q Hq Hnh).
    now apply round_not_half.
Qed.

(** X20.  On a non-negative float [_rounding] rounds to the nearest
    integer, halves up: [_rounding(q) = floor(q + 1/2)] for every
    [q >= 0]. *)
Theorem rounding_nonneg_is_half_up (q : Q) :
  (0 <= q)%Q -> _rounding0 (PyFloat q) = Qfloor (q + (1 # 2)).
Proof. exact (rounding0_nonneg q). Qed.

Lemma rounding_nonneg_is_half_up_witness :
  _rounding0 (PyFloat (5 # 2)) = Qfloor ((5 # 2) + (1 # 2)).
Proof.
  apply rounding_nonneg_is_half_up. unfold Qle. simpl. lia.
Defined.

(* ================================================================== *)
(** ** Reading the whole extent of an unsliced band *)

Lemma factors_loop_head_y fuel : forall tile sX sY base cur fs xs ys ts y0,
  nth_error ys 0 = Some y0 ->
  nth_error (snd (fst (factors_loop fuel tile sX sY base cur (fs, xs, ys, ts)))) 0
    = Some y0.
Proof.
  induction fuel as [|fuel IH]; intros tile sX sY base cur fs xs ys ts y0 H0;
    cbn [factors_loop].
  - exact H0.
  - destruct (Py.gtb base 256); [|exact H0].
    apply IH. destruct ys; [discriminate | exact H0].
Qed.

Lemma init_fields l_x s_x z1 l_y z2 s_y x_size y_size tile has g :
  init (l_x, s_x, z1, l_y, z2, s_y) x_size y_size tile has None = Ok g ->
  lx g = l_x /\ ly g = l_y /\
  rx g = Qred (l_x + inject_Z x_size * s_x) /\
  ry g = Qred (l_y + inject_Z y_size * s_y) /\
  xSize g = x_size /\ ySize g = y_size /\
  nth_error (scalaXList g) 0 = Some s_x /\
  nth_error (scalaYList g) 0 = Some s_y.
Proof.
  unfold init. intros H.
  repeat match type of H with
  | rbind ?m _ = _ => destruct m as [?|]; cbn [rbind] in H; [|discriminate]
  end.
  match type of H with
  | context [factors_of ?a ?b ?c ?d ?e ?f ?h] =>
      assert (Hf : nth_error (snd (fst (fst (factors_of a b c d e f h)))) 0 = Some s_x /\
                   nth_error (snd (fst (factors_of a b c d e f h))) 0 = Some s_y);
      [| destruct (factors_of a b c d e f h) as [[[fs xs] ys] ts] ]
  end.
  - unfold factors_of. destruct has; [|split; reflexivity].
    split; [now apply factors_loop_head | now apply factors_loop_head_y].
  - cbn [rbind] in H. injection H as <-. cbn. repeat split; apply Hf.
Qed.

Lemma Py_leb_false (a b : Q) : (b < a)%Q -> Py.leb a b = false.
Proof.
  intros H. unfold Py.leb. apply not_true_is_false. intros Hle.
  apply Qle_bool_iff in Hle. lra.
Qed.

Lemma Qred_zero (x : Q) : (x == 0)%Q -> Qred x = 0%Q.
Proof. intros H. now rewrite (Qred_complete _ _ H). Qed.

Lemma rounding0_inject_Z (z : Z) (q : Q) :
  0 <= z -> (q == inject_Z z)%Q -> _rounding0 (PyFloat q) = z.
Proof.
  intros Hz Hq. rewrite (rounding0_comp _ _ Hq).
  assert (Hzq : (0 <= inject_Z z)%Q)
    by (change 0%Q with (inject_Z 0); rewrite <- Zle_Qle; exact Hz).
  rewrite rounding0_nonneg by exact Hzq.
  apply Qfloor_unique; lra.
Qed.

(** X21.  Reading the dataset's own extent from an unsliced band plans the
    whole raster, unshifted.  For a lattice built by the constructor from a
    north-up transform and positive sizes, the planner called at level 0
    with that transform and those sizes returns the read window and the fill
    window [(0, xSize - 1, 0, ySize - 1)]. *)
Theorem unsliced_full_extent (l_x s_x z1 l_y z2 s_y : Q) (x_size y_size tile : Z)
  (has : bool) (g : GlobalTileInfo) :
  (0 < s_x)%Q -> (s_y < 0)%Q -> 0 < x_size -> 0 < y_size ->
  init (l_x, s_x, z1, l_y, z2, s_y) x_size y_size tile has None = Ok g ->
  calculate_read_window_of_unsliced_band g (l_x, s_x, z1, l_y, z2, s_y) x_size y_size 0
    = Ok (Some ((0, x_size - 1, 0, y_size - 1), (0, x_size - 1, 0, y_size - 1))).
Proof.
  intros Hsx Hsy Hxs Hys Hinit.
  destruct (init_fields _ _ _ _ _ _ _ _ _ _ _ Hinit)
    as (Elx & Ely & Erx & Ery & Exs & Eys & Hx0 & Hy0).
  assert (Hxq : (0 < inject_Z x_size)%Q)
    by (change 0%Q with (inject_Z 0); rewrite <- Zlt_Qlt; exact Hxs).
  assert (Hyq : (0 < inject_Z y_size)%Q)
    by (change 0%Q with (inject_Z 0); rewrite <- Zlt_Qlt; exact Hys).
  assert (Hpx : (0 < inject_Z x_size * s_x)%Q).
  { rewrite <- (Qmult_0_l s_x). apply Qmult_lt_compat_r; assumption. }
  assert (Hpy : (inject_Z y_size * s_y < 0)%Q).
  { assert (0 < inject_Z y_size * - s_y)%Q; [|lra].
    rewrite <- (Qmult_0_l (- s_y)). apply Qmult_lt_compat_r; lra. }
  unfold calculate_read_window_of_unsliced_band. cbn [t0 t1 t3 t5].
  unfold Py.index. rewrite Hx0, Hy0. cbn [rbind].
  rewrite Elx, Ely, Erx, Ery, Exs, Eys.
  change (inject_Z (2 ^ Z.of_nat 0)) with (inject_Z 1).
  rewrite !Py_int_quot by lia. rewrite !Z.quot_1_r.
  unfold Py.geb.
  rewrite (Py_leb_false _ l_x) by (rewrite Qred_correct; lra).
  rewrite (Py_leb_false _ l_x) by (rewrite Qred_correct; lra).
  rewrite (Py_leb_false l_y) by (rewrite Qred_correct; lra).
  rewrite (Py_leb_false l_y) by (rewrite Qred_correct; lra).
  cbn [orb].
  rewrite !Py_div_ok by lra. cbn [rbind].
  rewrite (Qred_zero ((l_x - l_x) / s_x)) by (field; lra).
  rewrite (Qred_zero ((l_y - l_y) / s_y)) by (field; lra).
  rewrite (Qred_zero ((Qred (l_x + s_x * inject_Z x_size)
                       - Qred (l_x + inject_Z x_size * s_x)) / s_x))
    by (rewrite !Qred_correct; field; lra).
  rewrite (Qred_zero ((Qred (l_y + s_y * inject_Z y_size)
                       - Qred (l_y + inject_Z y_size * s_y)) / s_y))
    by (rewrite !Qred_correct; field; lra).
  change (Py.ltb 0 0) with false. change (Py.leb 0 0) with true. cbv iota beta.
  rewrite !rounding0_int.
  change (_rounding0 (PyFloat 0)) with 0.
  rewrite (rounding0_inject_Z (x_size - 1)) by (try lia; rewrite Qred_correct; lra).
  rewrite (rounding0_inject_Z (y_size - 1)) by (try lia; rewrite Qred_correct; lra).
  rewrite normalized_same by reflexivity. reflexivity.
Qed.

Lemma unsliced_full_extent_witness :
  calculate_read_window_of_unsliced_band test_gti test_transform 2000 2000 0
    = Ok (Some ((0, 2000 - 1, 0, 2000 - 1), (0, 2000 - 1, 0, 2000 - 1))).
Proof.
  apply (unsliced_full_extent (12834619 # 1) (30 # 1) 0 (5011732 # 1) 0 (-30 # 1)
           2000 2000 2048 true test_gti); try reflexivity.
Defined.

(* ================================================================== *)
(** ** The plan of a tile's own window *)

Lemma factors_loop_head_ts fuel : forall tile sX sY base cur fs xs ys ts t0,
  nth_error ts 0 = Some t0 ->
  nth_error (snd (factors_loop fuel tile sX sY base cur (fs, xs, ys, ts))) 0 = Some t0.
Proof.
  induction fuel as [|fuel IH]; intros tile sX sY base cur fs xs ys ts t0 H0;
    cbn [factors_loop].
  - exact H0.
  - destruct (Py.gtb base 256); [|exact H0].
    apply IH. destruct ts; [discriminate | exact H0].
Qed.

Lemma init_level0 l_x s_x z1 l_y z2 s_y x_size y_size tile has g :
  init (l_x, s_x, z1, l_y, z2, s_y) x_size y_size tile has None = Ok g ->
  scalaX g = s_x /\ scalaY g = s_y /\ tileSize g = tile /\ reSize g = tile /\
  nth_error (scalaXList g) 0 = Some s_x /\
  nth_error (scalaYList g) 0 = Some s_y /\
  nth_error (tileSizeList g) 0 = Some tile.
Proof.
  unfold init. intros H.
  repeat match type of H with
  | rbind ?m _ = _ => destruct m as [?|]; cbn [rbind] in H; [|discriminate]
  end.
  match type of H with
  | context [factors_of ?a ?b ?c ?d ?e ?f ?h] =>
      assert (Hf : nth_error (snd (fst (fst (factors_of a b c d e f h)))) 0 = Some s_x /\
                   nth_error (snd (fst (factors_of a b c d e f h))) 0 = Some s_y /\
                   nth_error (snd (factors_of a b c d e f h)) 0 = Some tile);
      [| destruct (factors_of a b c d e f h) as [[[fs xs] ys] ts] ]
  end.
  - unfold factors_of. destruct has; [|repeat split; reflexivity].
    split; [now apply factors_loop_head|].
    split; [now apply factors_loop_head_y | now apply factors_loop_head_ts].
  - cbn [rbind] in H. injection H as <-. cbn. repeat split; apply Hf.
Qed.

Lemma int_of_exact (q : Q) (z : Z) : (q == inject_Z z)%Q -> Py.int (Qred q) = z.
Proof. intros H. apply Py_int_integral. now rewrite Qred_correct. Qed.

Lemma ceil_of_exact (q : Q) (z : Z) : (q == inject_Z z)%Q -> Py.ceil (Qred q) = z.
Proof.
  intros H. unfold Py.ceil.
  rewrite (Qceiling_comp (Qred q) (inject_Z z)) by (now rewrite Qred_correct).
  apply Qceiling_Z.
Qed.

Lemma int_abs_of_zero (q : Q) : (q == 0)%Q -> Py.int (Py.abs (Qred q)) = 0.
Proof. intros H. now rewrite (Qred_zero q H). Qed.

Lemma ceil_abs_of_exact (q : Q) (z : Z) :
  0 <= z -> (q == inject_Z z)%Q -> Py.ceil (Py.abs (Qred q)) = z.
Proof.
  intros Hz H. unfold Py.ceil, Py.abs.
  rewrite (Qceiling_comp (Qabs (Qred q)) (inject_Z z)); [apply Qceiling_Z|].
  rewrite Qred_correct, H. apply Qabs_pos.
  change 0%Q with (inject_Z 0). now rewrite <- Zle_Qle.
Qed.

Lemma range_one (a : Z) : Py.range a (a + 1) = [a].
Proof.
  unfold Py.range. replace (a + 1 - a) with 1 by lia.
  change (Z.to_nat 1) with 1%nat. cbn [seq map Z.of_nat]. now rewrite Z.add_0_r.
Qed.

Lemma tile_window_plan (g : GlobalTileInfo) (x y : Z) :
  (0 < scalaX g)%Q -> (scalaY g < 0)%Q -> 0 < tileSize g -> reSize g = tileSize g ->
  nth_error (scalaXList g) 0 = Some (scalaX g) ->
  nth_error (scalaYList g) 0 = Some (scalaY g) ->
  nth_error (tileSizeList g) 0 = Some (tileSize g) ->
  0 <= x < rangeX g ->
  calculate_read_window_of_sliced_band g (fst (get_tile_info g x y))
    (snd (snd (get_tile_info g x y))) (fst (snd (get_tile_info g x y))) 0
  = Ok (Some ([((x, y),
                (0, tileSize g - 1, 0, tileSize g - 1),
                (0, tileSize g - 1, 0, tileSize g - 1))],
              fst (get_tile_info g x y),
              (tileSize g, tileSize g))).
Proof.
  intros Hsx Hsy HT Hre Hxl Hyl Htl Hx.
  set (T := tileSize g) in *. set (sx := scalaX g) in *. set (sy := scalaY g) in *.
  set (F := firstTileLeftX g). set (G := firstTileLeftY g).
  assert (HTq : (0 < inject_Z T)%Q)
    by (change 0%Q with (inject_Z 0); rewrite <- Zlt_Qlt; exact HT).
  assert (HDx : (0 < inject_Z T * sx)%Q).
  { rewrite <- (Qmult_0_l sx). apply Qmult_lt_compat_r; assumption. }
  assert (HDy : (inject_Z T * sy < 0)%Q).
  { assert (0 < inject_Z T * - sy)%Q; [|lra].
    rewrite <- (Qmult_0_l (- sy)). apply Qmult_lt_compat_r; lra. }
  unfold get_tile_info, calculate_read_window_of_sliced_band.
  cbn [fst snd t0 t1 t3 t5]. rewrite Hre. fold T sx sy F G.
  unfold Py.index. rewrite Hxl, Hyl, Htl. cbn [rbind].
  set (lxq := Qred (F + inject_Z x * inject_Z T * sx)).
  set (tyq := Qred (G + inject_Z y * inject_Z T * sy)).
  set (rxq := Qred (lxq + sx * inject_Z T)).
  set (byq := Qred (tyq + sy * inject_Z T)).
  set (orx := Qred (F + inject_Z T * inject_Z (rangeX g) * sx)).
  set (oby := Qred (G + inject_Z T * inject_Z (rangeY g) * sy)).
  assert (Elx : (lxq == F + inject_Z x * (inject_Z T * sx))%Q)
    by (unfold lxq; rewrite Qred_correct; ring).
  assert (Ety : (tyq == G + inject_Z y * (inject_Z T * sy))%Q)
    by (unfold tyq; rewrite Qred_correct; ring).
  assert (Erx : (rxq == F + (inject_Z x + 1) * (inject_Z T * sx))%Q)
    by (unfold rxq; rewrite Qred_correct, Elx; ring).
  assert (Eby : (byq == G + (inject_Z y + 1) * (inject_Z T * sy))%Q)
    by (unfold byq; rewrite Qred_correct, Ety; ring).
  assert (Eorx : (orx == F + inject_Z (rangeX g) * (inject_Z T * sx))%Q)
    by (unfold orx; rewrite Qred_correct; ring).
  assert (Hx0 : (0 <= inject_Z x * (inject_Z T * sx))%Q).
  { apply Qmult_le_0_compat; [|lra].
    change 0%Q with (inject_Z 0). rewrite <- Zle_Qle. lia. }
  assert (Hx1 : (0 <= (inject_Z (rangeX g) - (inject_Z x + 1)) * (inject_Z T * sx))%Q).
  { apply Qmult_le_0_compat; [|lra].
    assert (inject_Z (x + 1) <= inject_Z (rangeX g))%Q by (rewrite <- Zle_Qle; lia).
    rewrite inject_Z_plus in H. change (inject_Z 1) with 1%Q in H. lra. }
  assert (Hcond : Py.ltb (Py.max lxq F) (Py.min rxq orx) = true).
  { apply Py_ltb_lt. unfold Py.max, Py.min.
    destruct (Py.ltb lxq F) eqn:E1; destruct (Py.ltb orx rxq) eqn:E2;
      try apply Py_ltb_lt in E1; try apply Py_ltb_ge in E1;
      try apply Py_ltb_lt in E2; try apply Py_ltb_ge in E2; lra. }
  rewrite Hcond. cbn [negb andb].
  assert (Hnx : ~ (inject_Z T * sx == 0)%Q) by lra.
  assert (Hny : ~ (inject_Z T * sy == 0)%Q) by lra.
  assert (Hnsx : ~ (sx == 0)%Q) by lra.
  assert (Hnsy : ~ (sy == 0)%Q) by lra.
  rewrite !Py_div_ok by assumption. cbn [rbind].
  rewrite (int_of_exact ((lxq - F) / (inject_Z T * sx)) x)
    by (rewrite Elx; field; lra).
  rewrite (int_of_exact ((tyq - G) / (inject_Z T * sy)) y)
    by (rewrite Ety; field; lra).
  rewrite (ceil_of_exact ((rxq - F) / (inject_Z T * sx)) (x + 1))
    by (rewrite Erx, inject_Z_plus; change (inject_Z 1) with 1%Q; field; lra).
  rewrite (ceil_of_exact ((byq - G) / (inject_Z T * sy)) (y + 1))
    by (rewrite Eby, inject_Z_plus; change (inject_Z 1) with 1%Q; field; lra).
  replace (x + 1 - 1) with x by lia. replace (y + 1 - 1) with y by lia.
  unfold _get_x, _get_y. fold T sx sy F G.
  rewrite !Py_div_ok by assumption. cbn [rbind].
  rewrite (int_abs_of_zero ((lxq - Qred (F + inject_Z x * sx * inject_Z T)) / sx))
    by (rewrite Qred_correct, Elx; field; lra).
  rewrite (int_abs_of_zero ((tyq - Qred (G + inject_Z y * sy * inject_Z T)) / sy))
    by (rewrite Qred_correct, Ety; field; lra).
  rewrite (ceil_abs_of_exact ((rxq - Qred (F + inject_Z x * sx * inject_Z T)) / sx) T)
    by (try lia; rewrite Qred_correct, Erx; field; lra).
  rewrite (ceil_abs_of_exact ((byq - Qred (G + inject_Z y * sy * inject_Z T)) / sy) T)
    by (try lia; rewrite Qred_correct, Eby; field; lra).
  rewrite !range_one. cbn [flat_map map app].
  rewrite !Z.eqb_refl. rewrite !rounding0_int.
  rewrite normalized_same by (cbn [r0 r1 r2 r3]; lia).
  replace ((y - y) * T - 0 + T) with T by lia.
  replace ((x - x) * T - 0 + T) with T by lia.
  replace (0 + (T - 1) - 0) with (T - 1) by lia.
  f_equal. f_equal. f_equal. f_equal.
  assert (Q1 : Qred (Qred (F + inject_Z x * sx * inject_Z T) + inject_Z 0 * sx) = lxq).
  { unfold lxq. apply Qred_complete. rewrite Qred_correct.
    change (inject_Z 0) with 0%Q. ring. }
  assert (Q2 : Qred (Qred (G + inject_Z y * sy * inject_Z T) + inject_Z 0 * sy) = tyq).
  { unfold tyq. apply Qred_complete. rewrite Qred_correct.
    change (inject_Z 0) with 0%Q. ring. }
  rewrite Q1, Q2. reflexivity.
Qed.

(** X22.  The window of a tile plans that tile, whole.  On a lattice built
    by the constructor from a north-up transform with an integer origin and
    integer pixel sizes, a positive tile size [T] and magnitudes below
    [2 ^ 52], the transform and shape that [get_tile_info(x, y)] gives for a
    tile [(x, y)] of the lattice are planned at level 0 as the single entry
    [((x, y), (0, T - 1, 0, T - 1), (0, T - 1, 0, T - 1))], with the same
    transform and the shape [(T, T)].  On such a lattice the corners of the
    tile and of the lattice are integers that binary64 holds exactly and the
    quotients the planner takes of them are integers, so the code plans this
    entry as it stands. *)
Theorem tile_info_plans_one_whole_tile (l_x s_x l_y s_y : Z) (z1 z2 : Q)
  (x_size y_size tile : Z) (has : bool) (g : GlobalTileInfo) (x y : Z) :
  0 < tile -> 0 < s_x -> s_y < 0 ->
  Z.abs l_x + (Z.abs x_size + 2 * tile) * s_x < 2 ^ 52 ->
  Z.abs l_y + (Z.abs y_size + 2 * tile) * - s_y < 2 ^ 52 ->
  init (inject_Z l_x, inject_Z s_x, z1, inject_Z l_y, z2, inject_Z s_y)
    x_size y_size tile has None = Ok g ->
  0 <= x < rangeX g -> 0 <= y < rangeY g ->
  calculate_read_window_of_sliced_band g (fst (get_tile_info g x y))
    (snd (snd (get_tile_info g x y))) (fst (snd (get_tile_info g x y))) 0
  = Ok (Some ([((x, y), (0, tile - 1, 0, tile - 1), (0, tile - 1, 0, tile - 1))],
              fst (get_tile_info g x y),
              (tile, tile))).
Proof.
  intros HT Hsx Hsy _ _ Hinit Hx _.
  assert (Hsxq : (0 < inject_Z s_x)%Q)
    by (change 0%Q with (inject_Z 0); rewrite <- Zlt_Qlt; exact Hsx).
  assert (Hsyq : (inject_Z s_y < 0)%Q)
    by (change 0%Q with (inject_Z 0); rewrite <- Zlt_Qlt; exact Hsy).
  destruct (init_level0 _ _ _ _ _ _ _ _ _ _ _ Hinit)
    as (Esx & Esy & ET & Ere & Hxl & Hyl & Htl).
  rewrite <- ET.
  apply tile_window_plan; try congruence; try lia; rewrite ?Esx, ?Esy; assumption.
Qed.

Lemma tile_info_plans_one_whole_tile_witness :
  calculate_read_window_of_sliced_band test_gti (fst (get_tile_info test_gti 1 0))
    (snd (snd (get_tile_info test_gti 1 0))) (fst (snd (get_tile_info test_gti 1 0))) 0
  = Ok (Some ([((1, 0), (0, 2048 - 1, 0, 2048 - 1), (0, 2048 - 1, 0, 2048 - 1))],
              fst (get_tile_info test_gti 1 0),
              (2048, 2048))).
Proof.
  apply (tile_info_plans_one_whole_tile 12834619 30 5011732 (-30) 0 0
           2000 2000 2048 true test_gti 1 0);
    try lia; try reflexivity; vm_compute; split; congruence.
Defined.

(* ================================================================== *)
(** ** [rebuild_transform_to_target_crs] on a constructed lattice *)

Lemma zoom_loop_bound (l : list Q) : forall sx i z,
  (zoom_loop sx l i z <= Nat.max z (i + List.length l - 1))%nat.
Proof.
  induction l as [|v l IH]; intros sx i z; cbn [zoom_loop List.length]; [lia|].
  destruct (Py.geb sx v); [|lia].
  specialize (IH sx (S i) i). lia.
Qed.

Lemma factors_loop_scales fuel : forall tile sX sY base cur fs xs ys ts,
  List.length xs = List.length ys ->
  Forall (fun v => ~ (v == 0)%Q) xs -> Forall (fun v => ~ (v == 0)%Q) ys ->
  ~ (sX == 0)%Q -> ~ (sY == 0)%Q -> 0 < cur ->
  let r := factors_loop fuel tile sX sY base cur (fs, xs, ys, ts) in
  List.length (snd (fst (fst r))) = List.length (snd (fst r)) /\
  Forall (fun v => ~ (v == 0)%Q) (snd (fst (fst r))) /\
  Forall (fun v => ~ (v == 0)%Q) (snd (fst r)).
Proof.
  induction fuel as [|fuel IH]; intros tile sX sY base cur fs xs ys ts Hl Hx Hy HsX HsY Hc;
    cbn [factors_loop].
  - cbn. auto.
  - destruct (Py.gtb base 256); [|cbn; auto].
    assert (Hcq : ~ (inject_Z cur == 0)%Q).
    { intros H. unfold Qeq, inject_Z in H. simpl in H. lia. }
    apply IH; try assumption; try lia.
    + rewrite !length_app. cbn [List.length]. lia.
    + apply Forall_app. split; [exact Hx|]. constructor; [|constructor].
      rewrite Qred_correct. intros H. apply Qmult_integral in H. tauto.
    + apply Forall_app. split; [exact Hy|]. constructor; [|constructor].
      rewrite Qred_correct. intros H. apply Qmult_integral in H. tauto.
Qed.

Lemma Py_mod_Ok_nonzero (x y r : Q) : Py.mod_ x y = Ok r -> ~ (y == 0)%Q.
Proof.
  unfold Py.mod_, Py.eqb. destruct (Qeq_bool y 0) eqn:E; [discriminate|].
  intros _ H. apply Qeq_bool_iff in H. congruence.
Qed.

Lemma init_scale_lists l_x s_x z1 l_y z2 s_y x_size y_size tile has g :
  init (l_x, s_x, z1, l_y, z2, s_y) x_size y_size tile has None = Ok g ->
  List.length (scalaXList g) = List.length (scalaYList g) /\
  Forall (fun v => ~ (v == 0)%Q) (scalaXList g) /\
  Forall (fun v => ~ (v == 0)%Q) (scalaYList g).
Proof.
  unfold init. intros H.
  destruct (Py.mod_ l_x s_x) as [dx|] eqn:Emx; cbn [rbind] in H; [|discriminate].
  destruct (Py.mod_ l_y (Py.abs s_y)) as [dy|] eqn:Emy; cbn [rbind] in H; [|discriminate].
  assert (HsX : ~ (s_x == 0)%Q) by exact (Py_mod_Ok_nonzero _ _ _ Emx).
  assert (HsY : ~ (s_y == 0)%Q).
  { intros E. apply (Py_mod_Ok_nonzero _ _ _ Emy). unfold Py.abs. now rewrite E. }
  repeat match type of H with
  | rbind ?m _ = _ => destruct m as [?|]; cbn [rbind] in H; [|discriminate]
  end.
  match type of H with
  | context [factors_of ?a ?b ?c ?d ?e ?f ?h] =>
      assert (Hf : List.length (snd (fst (fst (factors_of a b c d e f h))))
                   = List.length (snd (fst (factors_of a b c d e f h))) /\
                   Forall (fun v => ~ (v == 0)%Q) (snd (fst (fst (factors_of a b c d e f h)))) /\
                   Forall (fun v => ~ (v == 0)%Q) (snd (fst (factors_of a b c d e f h))));
      [| destruct (factors_of a b c d e f h) as [[[fs xs] ys] ts] ]
  end.
  - unfold factors_of. destruct has.
    + apply factors_loop_scales; auto; lia.
    + cbn. auto.
  - cbn [rbind] in H. injection H as <-. exact Hf.
Qed.

Section RebuildTotal.

Variable is_same_crs : string -> string -> bool.
Variable transform_envelope : Q -> Q -> Q -> Q -> string -> string -> Q * Q * Q * Q.

(** X23.  On a lattice built by the constructor,
    [rebuild_transform_to_target_crs] succeeds for every window with a
    non-zero height and width, whatever the coordinate systems and the
    driver's envelope: the level it picks is an index of both scale lists,
    no divisor is zero, and the transform it returns has the scales of that
    level. *)
Theorem rebuild_succeeds (l_x s_x z1 l_y z2 s_y : Q) (x_size y_size tile : Z)
  (has : bool) (g : GlobalTileInfo) (tr : transform) (shape : Z * Z)
  (s_crs t_crs : string) :
  init (l_x, s_x, z1, l_y, z2, s_y) x_size y_size tile has None = Ok g ->
  fst shape <> 0 -> snd shape <> 0 ->
  exists tr' shape' need_reproject zoom vx vy,
    rebuild_transform_to_target_crs is_same_crs transform_envelope g tr shape s_crs t_crs
      = Ok (tr', shape', need_reproject, zoom) /\
    nth_error (scalaXList g) zoom = Some vx /\
    nth_error (scalaYList g) zoom = Some vy /\
    (t1 tr' == vx)%Q /\ (t5 tr' == vy)%Q.
Proof.
  intros Hinit Hh Hw.
  destruct (init_level0 _ _ _ _ _ _ _ _ _ _ _ Hinit)
    as (Esx & Esy & _ & _ & Hx0 & Hy0 & _).
  destruct (init_scale_lists _ _ _ _ _ _ _ _ _ _ _ Hinit) as (Hlen & Hnx & Hny).
  destruct tr as [[[[[min_x step_x] u1] max_y] u2] step_y].
  unfold rebuild_transform_to_target_crs.
  destruct (Py.eqb step_x (scalaX g) && Py.eqb step_y (scalaY g) && is_same_crs s_crs t_crs)
    eqn:Eu.
  - apply andb_true_iff in Eu. destruct Eu as [Eu _].
    apply andb_true_iff in Eu. destruct Eu as [E1 E2].
    apply Qeq_bool_iff in E1. apply Qeq_bool_iff in E2.
    exists (min_x, step_x, u1, max_y, u2, step_y), shape, false, O, s_x, s_y.
    cbn [t1 t5]. rewrite Esx in E1. rewrite Esy in E2.
    repeat split; assumption.
  - destruct (transform_envelope _ _ _ _ s_crs t_crs) as [[[a b] c] d].
    assert (Hwq : ~ (inject_Z (snd shape) == 0)%Q).
    { intros H. unfold Qeq, inject_Z in H. simpl in H. lia. }
    assert (Hhq : ~ (inject_Z (fst shape) == 0)%Q).
    { intros H. unfold Qeq, inject_Z in H. simpl in H. lia. }
    rewrite (Py_div_ok _ _ Hwq), (Py_div_ok _ _ Hhq). cbn [rbind].
    set (zoom := zoom_loop (Qred ((b - a) / inject_Z (snd shape))) (scalaXList g) 0 0).
    assert (Hz : (zoom < List.length (scalaXList g))%nat).
    { pose proof (zoom_loop_bound (scalaXList g)
                    (Qred ((b - a) / inject_Z (snd shape))) 0 0) as Hb.
      fold zoom in Hb.
      destruct (scalaXList g) as [|v l]; [discriminate|]. cbn [List.length] in *. lia. }
    destruct (nth_error (scalaXList g) zoom) as [vx|] eqn:Evx;
      [|apply nth_error_None in Evx; lia].
    destruct (nth_error (scalaYList g) zoom) as [vy|] eqn:Evy;
      [|apply nth_error_None in Evy; lia].
    assert (Hvx : ~ (vx == 0)%Q).
    { apply nth_error_In in Evx. rewrite Forall_forall in Hnx. now apply Hnx. }
    assert (Hvy : ~ (vy == 0)%Q).
    { apply nth_error_In in Evy. rewrite Forall_forall in Hny. now apply Hny. }
    unfold Py.index. rewrite Evx, Evy.
    repeat first
      [ progress cbn [rbind]
      | rewrite Py_div_ok by assumption
      | match goal with
        | |- context [if ?c then _ else _] => destruct c
        end ].
    all: do 4 eexists; exists vx, vy; (split; [reflexivity|]);
      cbn [t1 t5]; repeat split; try assumption; reflexivity.
Qed.

End RebuildTotal.

Lemma rebuild_succeeds_witness :
  exists tr' shape' need_reproject zoom vx vy,
    rebuild_transform_to_target_crs same_crs_driver_is_same same_crs_driver_envelope
      test_gti (12834619 # 1, 70 # 1, 0, 5011732 # 1, 0, -70 # 1)%Q (100, 100)
      "EPSG:3857" "EPSG:3857"
      = Ok (tr', shape', need_reproject, zoom) /\
    nth_error (scalaXList test_gti) zoom = Some vx /\
    nth_error (scalaYList test_gti) zoom = Some vy /\
    (t1 tr' == vx)%Q /\ (t5 tr' == vy)%Q.
Proof.
  apply (rebuild_succeeds same_crs_driver_is_same same_crs_driver_envelope
           (12834619 # 1) (30 # 1) 0 (5011732 # 1) 0 (-30 # 1) 2000 2000 2048 true
           test_gti); [reflexivity | discriminate | discriminate].
Defined.
